(** * V-UPLOAD AI: the upload job scheduler, its recovery routine and the
    bulk schedule expander

    A shallow embedding of the server (the Express application with its
    Sequelize models, in its current and its earlier version) and of the
    scheduling form of the React client, with the properties of the
    specification proved over it.

    Conventions of the model.
    - A JavaScript [Date] is its time value, an integer count of
      milliseconds since the epoch, or [None] for an Invalid Date (time
      value NaN).  Local time is the time value shifted by a constant offset
      [tza] (no daylight-saving change), and the range limit of time values
      (about year 275760) is not modelled.
    - Strings are sequences of 8-bit units (text outside ASCII is in
      UTF-8); [null] and [undefined] string values are [None].
    - The tables of the database are finite maps and lists held in the
      state; a statement on them always completes.  The tables take any
      value: the limits of the columns (255 characters of a [STRING], keys
      of 32 bits) are predicates of their own, and a theorem on rows that
      are stored says for which rows it holds.  A request to the bulk route
      names no key, and what a refused insert does to the sequence of keys
      is not modelled.  Calls that leave the
      process (Drive, YouTube, the generative model, the webhook, the
      connection check and the schema sync) get their outcome from an
      environment, and every theorem holds for all environments unless it
      says which outcome it is about.
    - Output to the console is not modelled. *)

From Stdlib Require Import ZArith Lia List Bool Ascii String.
From stdpp Require Import gmap strings list fin_maps.
Import ListNotations.
#[local] Set Warnings "-register-all".

(** ** Strings: the built-ins the code calls *)

Module JsString.

Definition is_space (c : ascii) : bool :=
  match nat_of_ascii c with
  | 9%nat | 10%nat | 11%nat | 12%nat | 13%nat | 32%nat => true
  | _ => false
  end.

Fixpoint skip_spaces (s : string) : string :=
  match s with
  | String c r => if is_space c then skip_spaces r else s
  | EmptyString => s
  end.

(** Value of a character as a digit in a radix up to 16. *)
Definition digit_val (c : ascii) : option Z :=
  let n := Z.of_nat (nat_of_ascii c) in
  if (48 <=? n)%Z && (n <=? 57)%Z then Some (n - 48)%Z
  else if (97 <=? n)%Z && (n <=? 102)%Z then Some (n - 87)%Z
  else if (65 <=? n)%Z && (n <=? 70)%Z then Some (n - 55)%Z
  else None.

(** The longest prefix of digits of the radix, as a number; [acc] is [None]
    until a digit has been read. *)
Fixpoint digits (radix : Z) (acc : option Z) (s : string) : option Z :=
  match s with
  | EmptyString => acc
  | String c r =>
      match digit_val c with
      | Some d =>
          if (d <? radix)%Z
          then digits radix (Some (match acc with
                                   | Some a => a * radix + d
                                   | None => d
                                   end)%Z) r
          else acc
      | None => acc
      end
  end.

(** [parseInt(x)] with no radix: leading white space, a sign, a [0x]
    prefix, then digits; NaN ([None]) when there is no digit, and for
    [undefined] (whose string form has none). *)
Definition parseInt (arg : option string) : option Z :=
  match arg with
  | None => None
  | Some s =>
      let s1 := skip_spaces s in
      let '(neg, s2) :=
        match s1 with
        | String "-"%char r => (true, r)
        | String "+"%char r => (false, r)
        | _ => (false, s1)
        end in
      let '(radix, s3) :=
        match s2 with
        | String "0"%char (String "x"%char r) => (16%Z, r)
        | String "0"%char (String "X"%char r) => (16%Z, r)
        | _ => (10%Z, s2)
        end in
      match digits radix None s3 with
      | Some v => Some (if neg then (- v)%Z else v)
      | None => None
      end
  end.

(** [s.split(sep)] for a one-character separator. *)
Fixpoint split_on (sep : ascii) (s : string) : list string :=
  match s with
  | EmptyString => [EmptyString]
  | String c r =>
      if Ascii.eqb c sep then EmptyString :: split_on sep r
      else match split_on sep r with
           | h :: t => String c h :: t
           | [] => [String c EmptyString]
           end
  end.

(** [s.substring(0, n)]. *)
Fixpoint take_chars (n : nat) (s : string) : string :=
  match n, s with
  | S k, String c r => String c (take_chars k r)
  | _, _ => EmptyString
  end.

(** [s.trim()]: white space removed at both ends. *)
Fixpoint drop_trailing_spaces (s : string) : string :=
  match s with
  | EmptyString => EmptyString
  | String c r =>
      match drop_trailing_spaces r with
      | EmptyString => if is_space c then EmptyString else String c EmptyString
      | r' => String c r'
      end
  end.

Definition trim (s : string) : string := drop_trailing_spaces (skip_spaces s).

(** [a.join(sep)] on strings. *)
Fixpoint join (sep : string) (l : list string) : string :=
  match l with
  | [] => EmptyString
  | [x] => x
  | x :: r => (x ++ sep ++ join sep r)%string
  end.

(** A nullable string is truthy when it is a non-empty string. *)
Definition truthy (o : option string) : bool :=
  match o with
  | Some EmptyString | None => false
  | Some _ => true
  end.

(** [a || b] on nullable strings with a string default. *)
Definition or_default (o : option string) (d : string) : string :=
  match o with
  | Some EmptyString | None => d
  | Some s => s
  end.

End JsString.

(** ** Dates: the part of [Date] the scheduling form uses *)

Module JsDate.
Local Open Scope Z_scope.

Definition msPerDay : Z := 86400000.
Definition msPerHour : Z := 3600000.
Definition msPerMinute : Z := 60000.

Definition Day (t : Z) : Z := t / msPerDay.
Definition TimeWithinDay (t : Z) : Z := t mod msPerDay.
(** Day 0 (1 January 1970) was a Thursday; Sunday is 0. *)
Definition WeekDay (t : Z) : Z := (Day t + 4) mod 7.

(** The proleptic Gregorian calendar over day numbers, by 400-year eras
    that start on 1 March: [doe] is the day of the era, [yoe] the year of
    the era, [doy] the day of the year counted from 1 March. *)
Definition year_of_era (doe : Z) : Z :=
  (doe - doe / 1460 + doe / 36524 - doe / 146096) / 365.

Definition days_before_year (yoe : Z) : Z := 365 * yoe + yoe / 4 - yoe / 100.

Definition day_of_year (doe : Z) : Z := doe - days_before_year (year_of_era doe).

(** Month counted from March ([0] is March, [11] is February). *)
Definition month_index (doy : Z) : Z := (5 * doy + 2) / 153.

Definition days_before_month (mp : Z) : Z := (153 * mp + 2) / 5.

Definition day_of_month (doy : Z) : Z := doy - days_before_month (month_index doy) + 1.

Definition era_of (d : Z) : Z := (d + 719468) / 146097.
Definition day_of_era (d : Z) : Z := d + 719468 - era_of d * 146097.

(** Year, month (0 is January) and day of the month (from 1) of a time
    value. *)
Definition MonthFromTime (t : Z) : Z :=
  let mp := month_index (day_of_year (day_of_era (Day t))) in
  if mp <? 10 then mp + 2 else mp - 10.

Definition YearFromTime (t : Z) : Z :=
  year_of_era (day_of_era (Day t)) + era_of (Day t) * 400
  + (if MonthFromTime t <=? 1 then 1 else 0).

Definition DateFromTime (t : Z) : Z :=
  day_of_month (day_of_year (day_of_era (Day t))).

(** The day of the month of a day number. *)
Definition date_of_day (d : Z) : Z := day_of_month (day_of_year (day_of_era d)).

(** [MakeDay(year, month, date)]: the day number of the first day of the
    month, plus [date - 1]; a month outside 0..11 carries into the year and
    a date outside the month carries into the neighbouring months. *)
Definition MakeDay (year month date : Z) : Z :=
  let ym := year + month / 12 in
  let mn := month mod 12 in
  let ys := if mn <=? 1 then ym - 1 else ym in
  let era := ys / 400 in
  let yoe := ys - era * 400 in
  let mp := if 1 <? mn then mn - 2 else mn + 10 in
  era * 146097 + days_before_year yoe + days_before_month mp - 719468
  + date - 1.

Definition MakeTime (hour min sec ms : Z) : Z :=
  hour * msPerHour + min * msPerMinute + sec * 1000 + ms.

Definition MakeDate (day time : Z) : Z := day * msPerDay + time.

(** A [Date] object: its time value, or [None] when it is an Invalid
    Date. *)
Definition Date : Type := option Z.

Section LocalTime.
(** Offset of local time from UTC, in milliseconds. *)
Variable tza : Z.

Definition LocalTime (t : Z) : Z := t + tza.
Definition UTC (t : Z) : Z := t - tza.

Definition getDay (d : Date) : option Z :=
  match d with Some t => Some (WeekDay (LocalTime t)) | None => None end.

Definition getDate (d : Date) : option Z :=
  match d with Some t => Some (DateFromTime (LocalTime t)) | None => None end.

(** [d.setDate(dt)]. *)
Definition setDate (d : Date) (dt : option Z) : Date :=
  match d, dt with
  | Some t, Some n =>
      let lt := LocalTime t in
      Some (UTC (MakeDate (MakeDay (YearFromTime lt) (MonthFromTime lt) n)
                          (TimeWithinDay lt)))
  | _, _ => None
  end.

(** [d.setHours(hour, min, sec, ms)]. *)
Definition setHours (d : Date) (hour min sec ms : option Z) : Date :=
  match d, hour, min, sec, ms with
  | Some t, Some h, Some m, Some s, Some milli =>
      Some (UTC (MakeDate (Day (LocalTime t)) (MakeTime h m s milli)))
  | _, _, _, _, _ => None
  end.
End LocalTime.

(** [a <= b] on dates: a comparison with NaN is false. *)
Definition date_le (a b : Date) : bool :=
  match a, b with
  | Some x, Some y => x <=? y
  | _, _ => false
  end.

(** [x + k] on numbers that may be NaN. *)
Definition num_add (x : option Z) (k : Z) : option Z :=
  match x with Some v => Some (v + k) | None => None end.

End JsDate.

(** ** The scheduling form of the client (App.jsx) *)

Module App.
Import JsString JsDate.
Local Open Scope Z_scope.

(** The form state behind the scheduling dialog. *)
Record FormData := {
  fd_title : option string;
  fd_description : option string;
  fd_times : list string;
  fd_days : list Z;
  fd_thumbnail : option string;
  fd_firstComment : option string
}.

(** [toggleDay]: a selected day is removed, any other day is added at the
    end. *)
Definition toggleDay (dayId : Z) (prev : FormData) : FormData :=
  {| fd_title := fd_title prev;
     fd_description := fd_description prev;
     fd_times := fd_times prev;
     fd_days := if bool_decide (dayId ∈ fd_days prev)
                then filter (λ d, d ≠ dayId) (fd_days prev)
                else fd_days prev ++ [dayId];
     fd_thumbnail := fd_thumbnail prev;
     fd_firstComment := fd_firstComment prev |}.

(** [addTime]: one more time field, preset to noon. *)
Definition addTime (prev : FormData) : FormData :=
  {| fd_title := fd_title prev;
     fd_description := fd_description prev;
     fd_times := fd_times prev ++ ["12:00"%string];
     fd_days := fd_days prev;
     fd_thumbnail := fd_thumbnail prev;
     fd_firstComment := fd_firstComment prev |}.

(** [removeTime]: the time field at one position is dropped. *)
Definition removeTime (idx : nat) (prev : FormData) : FormData :=
  {| fd_title := fd_title prev;
     fd_description := fd_description prev;
     fd_times := delete idx (fd_times prev);
     fd_days := fd_days prev;
     fd_thumbnail := fd_thumbnail prev;
     fd_firstComment := fd_firstComment prev |}.

(** One entry of the body posted to the bulk route. *)
Record Schedule := {
  s_driveFileId : string;
  s_title : option string;
  s_description : option string;
  s_thumbnail : option string;
  s_firstComment : option string;
  s_scheduledTime : Date
}.

(** The toasts of [submitSchedule]: select at least one day, add at least
    one time, the success message with the number of uploads, and bulk
    scheduling failed. *)
Inductive Toast :=
| ToastSelectDay
| ToastAddTime
| ToastScheduled (n : nat)
| ToastBulkFailed.

(** What one run of [submitSchedule] did: the body it posted, if it posted
    one, and the toast it showed. *)
Record Submitted := {
  posted : option (list Schedule);
  toast : Toast
}.

Section Expansion.
Variable tza : Z.
(** The reading [const now = new Date()] taken before the loops. *)
Variable now : Z.

(** [const [hours, minutes] = timeStr.split(':')], each through
    [parseInt]. *)
Definition parse_time (timeStr : string) : option Z * option Z :=
  let parts := split_on ":"%char timeStr in
  (parseInt (parts !! 0%nat), parseInt (parts !! 1%nat)).

(** [let diff = dayIndex - now.getDay(); if (diff < 0) diff += 7]. *)
Definition day_diff (dayIndex : Z) : Z :=
  let diff := dayIndex - WeekDay (LocalTime tza now) in
  if diff <? 0 then diff + 7 else diff.

(** The date after [setDate] and [setHours], before the test against
    [now].  [date0] is the reading [let date = new Date()] taken inside
    the loop. *)
Definition candidate (date0 : Z) (dayIndex : Z) (timeStr : string) : Date :=
  let '(hours, minutes) := parse_time timeStr in
  let diff := day_diff dayIndex in
  let date := setDate tza (Some date0)
                (Some (DateFromTime (LocalTime tza now) + diff)) in
  setHours tza date hours minutes (Some 0) (Some 0).

(** The days by which the first [setDate] moves the date read inside the
    loop. *)
Definition day_offset (date0 dayIndex : Z) : Z :=
  DateFromTime (LocalTime tza now) + day_diff dayIndex
  - DateFromTime (LocalTime tza date0).

(** The scheduled time of one (day, time) pair. *)
Definition occurrence (date0 : Z) (dayIndex : Z) (timeStr : string) : Date :=
  let date := candidate date0 dayIndex timeStr in
  if date_le date (Some now)
  then setDate tza date (num_add (getDate tza date) 7)
  else date.

(** The clock read by the [k]-th [new Date()] inside the loops, as the
    time elapsed since [now]. *)
Variable clock : nat → N.

Variable driveFileId : string.
Variable formData : FormData.

Definition schedule_entry (k : nat) (dayIndex : Z) (timeStr : string) : Schedule :=
  {| s_driveFileId := driveFileId;
     s_title := fd_title formData;
     s_description := fd_description formData;
     s_thumbnail := fd_thumbnail formData;
     s_firstComment := fd_firstComment formData;
     s_scheduledTime := occurrence (now + Z.of_N (clock k)) dayIndex timeStr |}.

(** The inner [forEach] over the times; [k] counts the clock readings
    made so far. *)
Fixpoint each_time (k : nat) (dayIndex : Z) (ts : list string) : list Schedule :=
  match ts with
  | [] => []
  | timeStr :: r => schedule_entry k dayIndex timeStr :: each_time (S k) dayIndex r
  end.

(** The outer [forEach] over the days. *)
Fixpoint each_day (k : nat) (ds : list Z) : list Schedule :=
  match ds with
  | [] => []
  | dayIndex :: r =>
      each_time k dayIndex (fd_times formData)
      ++ each_day (k + length (fd_times formData))%nat r
  end.

Definition expand : list Schedule := each_day 0%nat (fd_days formData).
End Expansion.

(** The scheduled time as the specification words it, from one reading of
    the clock: the candidate is the current date moved by
    [(targetDay - currentDay + 7) mod 7] days, at the target hour and
    minute with zero seconds; a candidate that is not after [now] is moved
    by seven days. *)
Definition spec_candidate (tza now : Z) (dayIndex h m : Z) : Z :=
  let delta := (dayIndex - WeekDay (LocalTime tza now) + 7) mod 7 in
  UTC tza (MakeDate (Day (LocalTime tza now) + delta) (MakeTime h m 0 0)).

Definition spec_occurrence (tza now : Z) (dayIndex h m : Z) : Z :=
  let c := spec_candidate tza now dayIndex h m in
  if c <=? now then c + 7 * msPerDay else c.

(** [submitSchedule]. [selectedVideo] is the id of the file the dialog was
    opened for ([None] when there is none: reading its id then throws
    inside the loop), [post_ok] tells whether the request to the bulk route
    succeeded. *)
Definition submitSchedule (tza now : Z) (clock : nat → N)
    (selectedVideo : option string) (formData : FormData) (post_ok : bool)
    : Submitted :=
  if (length (fd_days formData) =? 0)%nat
  then {| posted := None; toast := ToastSelectDay |}
  else if (length (fd_times formData) =? 0)%nat
  then {| posted := None; toast := ToastAddTime |}
  else match selectedVideo with
       | None => {| posted := None; toast := ToastBulkFailed |}
       | Some vid =>
           let schedules := expand tza now clock vid formData in
           {| posted := Some schedules;
              toast := if post_ok then ToastScheduled (length schedules)
                       else ToastBulkFailed |}
       end.

(** A time of day as the time field writes it: two digits, a colon, two
    digits, the hour up to 23 and the minute up to 59. *)
Definition is_digit (c : ascii) : bool :=
  let n := nat_of_ascii c in (48 <=? n)%nat && (n <=? 57)%nat.

Definition decimal_digits : list ascii :=
  ["0"; "1"; "2"; "3"; "4"; "5"; "6"; "7"; "8"; "9"]%char.

Definition digit_of (c : ascii) : Z := Z.of_nat (nat_of_ascii c) - 48.

Definition valid_time (s : string) : bool :=
  match s with
  | String a (String b (String c (String d (String e EmptyString)))) =>
      is_digit a && is_digit b && Ascii.eqb c ":"%char
      && is_digit d && is_digit e
      && (10 * digit_of a + digit_of b <=? 23)
      && (10 * digit_of d + digit_of e <=? 59)
  | _ => false
  end.

End App.

(** ** JSON values and JSON text *)

Module Json.
Import JsString.

(** A JSON value.  A number is carried by its canonical string form: the
    code tests numbers for truth and prints them, and never computes with
    them. *)
Inductive Json :=
| JNull
| JBool (b : bool)
| JNum (repr : string)
| JStr (s : string)
| JArr (items : list Json)
| JObj (fields : list (string * Json)).

(** The content of a text column or of a reply: the JSON text of a value,
    or a string that is not JSON. *)
Inductive JsonText :=
| Encodes (v : Json)
| NotJson (raw : string).

Definition stringify (v : Json) : JsonText := Encodes v.

(** [JSON.parse]: the encoded value, or a syntax error. *)
Definition parse (t : JsonText) : option Json :=
  match t with
  | Encodes v => Some v
  | NotJson _ => None
  end.

(** A text is truthy unless it is the empty string. *)
Definition text_truthy (t : option JsonText) : bool :=
  match t with
  | Some (Encodes _) => true
  | Some (NotJson raw) => truthy (Some raw)
  | None => false
  end.

Definition js_truthy (v : Json) : bool :=
  match v with
  | JNull => false
  | JBool b => b
  | JNum repr => negb (String.eqb repr "0")
  | JStr s => truthy (Some s)
  | JArr _ | JObj _ => true
  end.

(** [x || []] for a value that may be absent. *)
Definition or_empty_array (o : option Json) : Json :=
  match o with
  | Some v => if js_truthy v then v else JArr []
  | None => JArr []
  end.

(** The string form of a value; inside an array [null] prints as the empty
    string and the items are separated by commas. *)
Fixpoint to_string (v : Json) : string :=
  match v with
  | JNull => "null"
  | JBool true => "true"
  | JBool false => "false"
  | JNum repr => repr
  | JStr s => s
  | JArr items =>
      (fix items_string (l : list Json) : string :=
         match l with
         | [] => EmptyString
         | [x] => match x with JNull => EmptyString | _ => to_string x end
         | x :: r =>
             (match x with JNull => EmptyString | _ => to_string x end
              ++ "," ++ items_string r)%string
         end) items
  | JObj _ => "[object Object]"
  end.

Definition item_string (v : Json) : string :=
  match v with JNull => EmptyString | _ => to_string v end.

(** [v.join(sep)]: defined on arrays only. *)
Definition array_join (sep : string) (v : Json) : option string :=
  match v with
  | JArr items => Some (join sep (map item_string items))
  | _ => None
  end.

(** [v.slice(0, n)]: arrays and strings have it; on any other value the
    call is a TypeError, whose message is returned on the right. *)
Definition slice_front (n : nat) (v : Json) : Json + string :=
  match v with
  | JArr items => inl (JArr (take n items))
  | JStr s => inl (JStr (take_chars n s))
  | JNull => inr "Cannot read properties of null (reading 'slice')"%string
  | _ => inr "tags.slice is not a function"%string
  end.

End Json.

(** ** Effects: a state with a trace, and exceptions *)

Module Effects.

Inductive Result (A : Type) :=
| Ok (a : A)
| Throw (message : string).
Arguments Ok {A} a.
Arguments Throw {A} message.

Definition Eff (W A : Type) : Type := W → Result A * W.

Definition eff_ret {W A} (a : A) : Eff W A := λ w, (Ok a, w).

Definition eff_bind {W A B} (m : Eff W A) (k : A → Eff W B) : Eff W B :=
  λ w, match m w with
       | (Ok a, w') => k a w'
       | (Throw msg, w') => (Throw msg, w')
       end.

Definition throw {W A} (msg : string) : Eff W A := λ w, (Throw msg, w).

(** [try { body } catch (e) { handler(e.message) }]: what the body did
    before it threw stays done. *)
Definition try_catch {W A} (body : Eff W A) (handler : string → Eff W A) : Eff W A :=
  λ w, match body w with
       | (Ok a, w') => (Ok a, w')
       | (Throw msg, w') => handler msg w'
       end.

(** The outcome of a computation as a value, for code that goes on after a
    [try] block with what the block did. *)
Definition attempt {W A} (body : Eff W A) : Eff W (Result A) :=
  λ w, match body w with (r, w') => (Ok r, w') end.

Definition get {W} : Eff W W := λ w, (Ok w, w).
Definition modify {W} (f : W → W) : Eff W unit := λ w, (Ok tt, f w).

(** A value that is there or an exception. *)
Definition lift {W A} (r : Result A) : Eff W A := λ w, (r, w).

End Effects.

Declare Scope eff_scope.
Delimit Scope eff_scope with eff.
Notation "x <- m ;; k" := (Effects.eff_bind m (λ x, k))
  (at level 100, m at next level, right associativity) : eff_scope.
Notation "m ;;; k" := (Effects.eff_bind m (λ _, k))
  (at level 100, right associativity) : eff_scope.

(** ** The server: models, store and environment *)

Module Server.
Import JsString Json Effects.
Local Open Scope eff_scope.

(** A row of the [Video] model, a scheduled or completed upload job.  The
    key of the row is the key of the table. *)
Record Video := {
  driveFileId : string;
  title : option string;
  description : option string;
  tags : option JsonText;
  hashtags : option JsonText;
  thumbnail : option string;
  firstComment : option string;
  scheduledTime : Z;
  status : string;
  youtubeId : option string;
  error : option string
}.

Record Favorite := {
  fav_driveFileId : option string;
  fav_name : option string;
  fav_thumbnailLink : option string
}.

(** The database: the three tables and the next key of the job table. *)
Record DB := {
  videos : gmap Z Video;
  next_id : Z;
  favorites : list Favorite;
  settings : gmap string JsonText
}.

(** The body of a request to the YouTube insert call. *)
Record Snippet := {
  sn_title : string;
  sn_description : string;
  sn_tags : option Json;
  sn_categoryId : string;
  sn_privacyStatus : string
}.

(** The embed posted to the webhook: its title and colour, the values of
    its two fields, and the instant of its timestamp. *)
Record Embed := {
  em_title : string;
  em_color : Z;
  em_video : option string;
  em_details : string;
  em_timestamp : Z
}.

(** What the run has done, in order: a [save] that had something to write,
    with the key and the status of its instance, the reset of stuck uploads
    with the number of rows, the entry of [processUpload], and each call to
    Drive, YouTube or the webhook that has succeeded. *)
Inductive Event :=
| EvStored (id : Z) (st : string)
| EvResetStuck (n : nat)
| EvPipeline (fileId : string)
| EvDownloaded (fileId : string)
| EvInserted (sn : Snippet) (videoId : string)
| EvThumbnailSet (videoId : string)
| EvCommented (videoId text commentId : string)
| EvPinned (commentId : string)
| EvNotified (url : string) (e : Embed).

Record World := {
  db : DB;
  trace : list Event
}.

(** Outcomes of the calls that leave the process, and the clock as read
    when an embed is built. *)
Record Env := {
  authenticate : Result unit;
  sync : Result unit;
  generateContent : option string → Result string;
  parse_reply : string → option Json;
  drive_files_get : string → Result unit;
  videos_insert : Snippet → Result string;
  thumbnails_set : string → string → Result unit;
  commentThreads_insert : string → string → Result string;
  comments_setManagementStatus : string → Result unit;
  webhook_url : option string;
  axios_post : string → Embed → Result unit;
  notify_time : Z;
  getToken : option string → Result Json
}.

Abbreviation M := (Eff World).

Definition log (e : Event) : M unit :=
  modify (λ w, {| db := db w; trace := trace w ++ [e] |}).

Definition set_videos (vs : gmap Z Video) (d : DB) : DB :=
  {| videos := vs; next_id := next_id d;
     favorites := favorites d; settings := settings d |}.

Definition set_db (d : DB) (w : World) : World :=
  {| db := d; trace := trace w |}.

Definition read {A} (f : DB → A) : M A := λ w, (Ok (f (db w)), w).

(** A computation that leaves the database as it is. *)
Definition keeps_db {A} (m : M A) : Prop := ∀ w, db (m w).2 = db w.

(** A computation that only adds to the trace. *)
Definition appends {A} (m : M A) : Prop :=
  ∀ w, ∃ evs, trace (m w).2 = trace w ++ evs.

(** A computation that never throws. *)
Definition total {A} (m : M A) : Prop := ∀ w, ∃ a, (m w).1 = Ok a.

(** *** Statements on the job table *)

Definition with_status (st : string) (v : Video) : Video :=
  {| driveFileId := driveFileId v; title := title v;
     description := description v; tags := tags v; hashtags := hashtags v;
     thumbnail := thumbnail v; firstComment := firstComment v;
     scheduledTime := scheduledTime v; status := st;
     youtubeId := youtubeId v; error := error v |}.

Definition with_outcome (st : string) (yt err : option string) (v : Video) : Video :=
  {| driveFileId := driveFileId v; title := title v;
     description := description v; tags := tags v; hashtags := hashtags v;
     thumbnail := thumbnail v; firstComment := firstComment v;
     scheduledTime := scheduledTime v; status := st;
     youtubeId := yt; error := err |}.

Definition has_status (st : string) (v : Video) : bool := String.eqb (status v) st.

(** The rows of a table that satisfy a condition, with their keys. *)
Definition select (cond : Video → bool) (vs : gmap Z Video) : list (Z * Video) :=
  filter (λ kv, cond kv.2 = true) (map_to_list vs).

(** [Video.findOne({ where: { status: 'Uploading' } })]. *)
Definition find_uploading (d : DB) : option (Z * Video) :=
  head (select (has_status "Uploading") (videos d)).

Definition is_due (now : Z) (v : Video) : bool :=
  has_status "Pending" v && (scheduledTime v <=? now)%Z.

(** The first row of the least scheduled time in a list of rows. *)
Fixpoint earliest (l : list (Z * Video)) : option (Z * Video) :=
  match l with
  | [] => None
  | kv :: r =>
      match earliest r with
      | Some kv' =>
          if (scheduledTime kv.2 <=? scheduledTime kv'.2)%Z
          then Some kv else Some kv'
      | None => Some kv
      end
  end.

(** [Video.findOne] of the pending rows that are due, in ascending order of
    the scheduled time.  Among rows of the same time the database may give
    any; the model gives one of them. *)
Definition find_next_due (now : Z) (d : DB) : option (Z * Video) :=
  earliest (select (is_due now) (videos d)).

(** [instance.save()].  An instance remembers the values it was loaded or
    last saved with; [save] writes, to the row of the instance's key, the
    columns whose value on the instance has changed since, and leaves the
    others of the row as they are.  It does nothing when no column has
    changed, and changes nothing when the row is gone.  The loop assigns the
    status, the remote id and the error only, once each between two
    saves. *)
Definition write_changed (before after row : Video) : Video :=
  {| driveFileId := driveFileId row; title := title row;
     description := description row; tags := tags row; hashtags := hashtags row;
     thumbnail := thumbnail row; firstComment := firstComment row;
     scheduledTime := scheduledTime row;
     status := if String.eqb (status after) (status before)
               then status row else status after;
     youtubeId := if bool_decide (youtubeId after = youtubeId before)
                  then youtubeId row else youtubeId after;
     error := if bool_decide (error after = error before)
              then error row else error after |}.

Definition changed (before after : Video) : bool :=
  negb (String.eqb (status after) (status before))
  || negb (bool_decide (youtubeId after = youtubeId before))
  || negb (bool_decide (error after = error before)).

Definition save (id : Z) (before after : Video) : M unit :=
  if changed before after
  then modify (λ w, set_db (set_videos (alter (write_changed before after) id
                                              (videos (db w))) (db w)) w) ;;;
       log (EvStored id (status after))
  else eff_ret tt.

(** [Video.update({ status: 'Pending', error: ... }, { where: { status:
    'Uploading' } })]: the rows it rewrites are counted. *)
Definition restart_note : string := "Server restarted during upload".

Definition reset_row (v : Video) : Video :=
  if has_status "Uploading" v
  then with_outcome "Pending" (youtubeId v) (Some restart_note) v
  else v.

Definition reset_stuck (d : DB) : DB := set_videos (reset_row <$> videos d) d.

Definition update_stuck : M nat :=
  w <- get ;;
  let n := length (select (has_status "Uploading") (videos (db w))) in
  modify (set_db (reset_stuck (db w))) ;;;
  log (EvResetStuck n) ;;;
  eff_ret n.

(** [Video.destroy({ where: { id, status: 'Pending' } })]. *)
Definition destroy_pending (id : Z) (d : DB) : DB :=
  match videos d !! id with
  | Some v => if has_status "Pending" v
              then set_videos (delete id (videos d)) d else d
  | None => d
  end.

(** An insert: the row gets the next key. *)
Definition insert_video (v : Video) (d : DB) : Z * DB :=
  (next_id d,
   {| videos := <[next_id d := v]> (videos d); next_id := (next_id d + 1)%Z;
      favorites := favorites d; settings := settings d |}).

(** *** Start-up *)

(** [initDB]: connection check, schema sync, then the reset of the uploads
    a previous run left in flight; an exception of any of them ends it. *)
Definition initDB (env : Env) : M unit :=
  try_catch
    (lift (authenticate env) ;;;
     lift (sync env) ;;;
     _ <- update_stuck ;;
     eff_ret tt)
    (λ _, eff_ret tt).

(** *** Tokens *)

(** [getStoredTokens]: the parsed value of the setting, [null] when there
    is no such setting. *)
Definition getStoredTokens : M (option Json) :=
  s <- read (λ d, settings d !! "google_tokens"%string) ;;
  match s with
  | Some txt =>
      match parse txt with
      | Some v => eff_ret (Some v)
      | None => throw "Unexpected token in JSON"
      end
  | None => eff_ret None
  end.

(** [saveTokens]: an upsert on the key of the setting. *)
Definition saveTokens (tokens : Json) : M unit :=
  modify (λ w, set_db {| videos := videos (db w); next_id := next_id (db w);
                         favorites := favorites (db w);
                         settings := <["google_tokens"%string := stringify tokens]>
                                       (settings (db w)) |} w).

Definition tokens_present (tokens : option Json) : bool :=
  match tokens with
  | Some v => js_truthy v
  | None => false
  end.

(** *** Notification *)

Definition embed_of (status : string) (videoTitle : option string) (details : string)
    (timestamp : Z) : Embed :=
  {| em_title := if String.eqb status "Success"
                 then "🚀 Video Uploaded!" else "❌ Upload Failed";
     em_color := if String.eqb status "Success" then 2263842%Z else 15749300%Z;
     em_video := videoTitle;
     em_details := or_default (Some details) "No extra details";
     em_timestamp := timestamp |}.

(** [sendDiscordNotification]: nothing without a webhook address; with
    one, the post is made inside a [try] whose handler only logs. *)
Definition sendDiscordNotification (env : Env) (status : string)
    (videoTitle : option string) (details : string) : M unit :=
  if truthy (webhook_url env)
  then
    let url := or_default (webhook_url env) EmptyString in
    let e := embed_of status videoTitle details (notify_time env) in
    try_catch (lift (axios_post env url e) ;;; log (EvNotified url e))
              (λ _, eff_ret tt)
  else eff_ret tt.

(** *** Metadata suggestion *)

(** The text of the reply with its code fences removed: every occurrence
    of three backquotes followed by [json], or of three backquotes alone,
    is deleted. *)
Definition bq : ascii := ascii_of_nat 96.

Fixpoint strip_fences (s : string) : string :=
  match s with
  | EmptyString => EmptyString
  | String a r =>
      match r with
      | String b (String c r3) =>
          if Ascii.eqb a bq && Ascii.eqb b bq && Ascii.eqb c bq
          then match r3 with
               | String j (String s' (String o (String n r4))) =>
                   if Ascii.eqb j "j" && Ascii.eqb s' "s"
                      && Ascii.eqb o "o" && Ascii.eqb n "n"
                   then strip_fences r4
                   else strip_fences r3
               | _ => strip_fences r3
               end
          else String a (strip_fences r)
      | _ => String a (strip_fences r)
      end
  end.

Definition clean_reply (text : string) : string := trim (strip_fences text).

(** A code fence, and the strings without a backquote. *)
Definition fence : string := String bq (String bq (String bq EmptyString)).

Fixpoint no_backquote (s : string) : bool :=
  match s with
  | EmptyString => true
  | String c r => negb (Ascii.eqb c bq) && no_backquote r
  end.

(** The fallback suggestion of the current server. *)
Definition fallback_metadata (filename : option string) : Json :=
  JObj (match filename with
        | Some f => [("title"%string, JStr f)]
        | None => []
        end
        ++ [("description"%string, JStr "Uploaded via V-UPLOAD AI");
            ("tags"%string, JArr [JStr "automation"; JStr "uploader"]);
            ("hashtags"%string, JArr [JStr "#VUpload"; JStr "#Automation"])]).

(** [generateMetadata]: the reply of the model, cleaned and parsed; the
    fallback when the call or the parsing throws.  A property whose value
    is [undefined] is left out of the object. *)
Definition generateMetadata (env : Env) (filename : option string) : M Json :=
  try_catch
    (text <- lift (generateContent env filename) ;;
     match parse_reply env (clean_reply text) with
     | Some data => eff_ret data
     | None => throw "Unexpected token in JSON"
     end)
    (λ _, eff_ret (fallback_metadata filename)).

(** *** The upload pipeline *)

Definition nl : string := String (ascii_of_nat 10) EmptyString.

(** The [try] block on the tags and hashtags: the tags become the parsed
    tags text, then the hashtags, joined by spaces, are appended to the
    description after an empty line; an exception stops the block and
    keeps what was assigned before it. *)
Definition parse_tags (description : option string)
    (tagsStr hashtagsStr : option JsonText) : Json * string :=
  let finalDescription := or_default description "Uploaded via V-UPLOAD AI" in
  let after_tags :=
    if text_truthy tagsStr
    then match tagsStr with
         | Some txt => parse txt
         | None => Some (JArr [])
         end
    else Some (JArr []) in
  match after_tags with
  | None => (JArr [], finalDescription)
  | Some tgs =>
      if text_truthy hashtagsStr
      then match hashtagsStr with
           | Some txt =>
               match parse txt with
               | Some hs =>
                   match array_join " " hs with
                   | Some joined =>
                       (tgs, (finalDescription ++ nl ++ nl ++ joined)%string)
                   | None => (tgs, finalDescription)
                   end
               | None => (tgs, finalDescription)
               end
           | None => (tgs, finalDescription)
           end
      else (tgs, finalDescription)
  end.

(** The snippet of the insert request; building it calls [slice] on the
    tags, which throws on a value that has no such method. *)
Definition build_snippet (title : option string) (finalDescription : string)
    (tgs : Json) : Result Snippet :=
  match slice_front 50 tgs with
  | inl sliced =>
      Ok {| sn_title := take_chars 100 (or_default title "Untitled Video");
            sn_description := finalDescription;
            sn_tags := Some sliced;
            sn_categoryId := "22";
            sn_privacyStatus := "private" |}
  | inr msg => Throw msg
  end.

(** The thumbnail step: the part of the data after its first comma is
    sent, when there is one; an exception of the step is logged and
    dropped. *)
Definition thumbnail_step (env : Env) (videoId : string)
    (thumbnailData : option string) : M unit :=
  if truthy thumbnailData
  then
    try_catch
      (let parts := split_on ","%char (or_default thumbnailData EmptyString) in
       let base64Data := parts !! 1%nat in
       if truthy base64Data
       then lift (thumbnails_set env videoId (or_default base64Data EmptyString)) ;;;
            log (EvThumbnailSet videoId)
       else eff_ret tt)
      (λ _, eff_ret tt)
  else eff_ret tt.

(** The first-comment step of the current server: the comment is posted,
    not pinned. *)
Definition comment_step (env : Env) (videoId : string)
    (firstComment : option string) : M unit :=
  if truthy firstComment
  then
    let text := or_default firstComment EmptyString in
    try_catch
      (cid <- lift (commentThreads_insert env videoId text) ;;
       log (EvCommented videoId text cid))
      (λ _, eff_ret tt)
  else eff_ret tt.

(** [processUpload]. *)
Definition processUpload (env : Env) (fileId : string)
    (title description thumbnailData firstComment : option string)
    (tagsStr hashtagsStr : option JsonText) : M string :=
  log (EvPipeline fileId) ;;;
  tokens <- getStoredTokens ;;
  if negb (tokens_present tokens)
  then throw "No tokens found. Please connect Google account."
  else
    let '(tgs, finalDescription) := parse_tags description tagsStr hashtagsStr in
    lift (drive_files_get env fileId) ;;;
    log (EvDownloaded fileId) ;;;
    sn <- lift (build_snippet title finalDescription tgs) ;;
    videoId <- lift (videos_insert env sn) ;;
    log (EvInserted sn videoId) ;;;
    thumbnail_step env videoId thumbnailData ;;;
    comment_step env videoId firstComment ;;;
    eff_ret videoId.

(** *** The scheduling loop *)

(** The first part of a tick, up to the first [save]: nothing when a job is
    uploading or none is due; otherwise the earliest due job is marked
    [Uploading] and stored.  It returns the instance the tick goes on
    with. *)
Definition tick_select (now : Z) : M (option (Z * Video)) :=
  activeJob <- read find_uploading ;;
  match activeJob with
  | Some _ => eff_ret None
  | None =>
      nextJob <- read (find_next_due now) ;;
      match nextJob with
      | Some (id, v) =>
          let job := with_status "Uploading" v in
          save id v job ;;;
          eff_ret (Some (id, job))
      | None => eff_ret None
      end
  end.

(** The handler of the inner [try]: the job fails with the message of the
    exception and the failure is notified. *)
Definition on_upload_error (env : Env) (job : Video) (msg : string) : M Video :=
  let failed := with_outcome "Failed" (youtubeId job) (Some msg) job in
  sendDiscordNotification env "Failed" (title failed) msg ;;;
  eff_ret failed.

(** The second part of a tick, for the instance as the first part saved
    it: the upload inside the inner [try], then the last [save].  The
    notification of a success is inside the [try] too. *)
Definition tick_upload (env : Env) (id : Z) (job : Video) : M unit :=
  r <- attempt (processUpload env (driveFileId job) (title job) (description job)
                  (thumbnail job) (firstComment job) (tags job) (hashtags job)) ;;
  final <- match r with
           | Ok ytId =>
               let done := with_outcome "Done" (Some ytId) None job in
               n <- attempt (sendDiscordNotification env "Success" (title done)
                               ("Live at: https://youtu.be/" ++ ytId)) ;;
               match n with
               | Ok _ => eff_ret done
               | Throw msg => on_upload_error env done msg
               end
           | Throw msg => on_upload_error env job msg
           end ;;
  save id job final.

(** One tick of the loop; the outer [try] only logs. *)
Definition tick (env : Env) (now : Z) : M unit :=
  try_catch
    (picked <- tick_select now ;;
     match picked with
     | Some (id, job) => tick_upload env id job
     | None => eff_ret tt
     end)
    (λ _, eff_ret tt).

(** *** Routes *)

Inductive Body :=
| BSuccess
| BError (msg : string)
| BVideo (id : Z) (v : Video)
| BVideos (rows : list (Z * Video))
| BFavorite (f : Favorite)
| BFavorites (rows : list Favorite)
| BJson (v : Json).

Record Response := {
  code : nat;
  body : Body
}.

Definition ok (b : Body) : Response := {| code := 200; body := b |}.

(** A handler's [try]/[catch]: an exception becomes a response of status
    500 with its message. *)
Definition handler (h : M Response) : M Response :=
  try_catch h (λ msg, eff_ret {| code := 500; body := BError msg |}).

(** The fields of a job in the body of a request.  A field that is absent
    is [None]; the key is given by the database. *)
Record JobFields := {
  jf_driveFileId : option string;
  jf_title : option string;
  jf_description : option string;
  jf_thumbnail : option string;
  jf_firstComment : option string;
  jf_tags : option Json;
  jf_hashtags : option Json;
  jf_scheduledTime : option Z;
  jf_status : option string;
  jf_youtubeId : option string;
  jf_error : option string
}.

(** The row of a job as [Video.create] of the single route builds it: the
    status, the remote id and the error of the request are not passed on,
    so the status is the default of the column. *)
Definition row_of_create (f : JobFields) : option Video :=
  match jf_driveFileId f, jf_scheduledTime f with
  | Some fid, Some t =>
      Some {| driveFileId := fid; title := jf_title f;
              description := jf_description f;
              tags := Some (stringify (or_empty_array (jf_tags f)));
              hashtags := Some (stringify (or_empty_array (jf_hashtags f)));
              thumbnail := jf_thumbnail f; firstComment := jf_firstComment f;
              scheduledTime := t; status := "Pending";
              youtubeId := None; error := None |}
  | _, _ => None
  end.

(** The row of an entry of the bulk route: every field of the entry is
    passed on ([...s]), the tags and hashtags are replaced by their JSON
    text, and a column the entry leaves out takes its default.  The key is
    the one exception in the model: an entry names none. *)
Definition row_of_bulk (f : JobFields) : option Video :=
  match jf_driveFileId f, jf_scheduledTime f with
  | Some fid, Some t =>
      Some {| driveFileId := fid; title := jf_title f;
              description := jf_description f;
              tags := Some (stringify (or_empty_array (jf_tags f)));
              hashtags := Some (stringify (or_empty_array (jf_hashtags f)));
              thumbnail := jf_thumbnail f; firstComment := jf_firstComment f;
              scheduledTime := t;
              status := match jf_status f with Some st => st | None => "Pending"%string end;
              youtubeId := jf_youtubeId f; error := jf_error f |}
  | _, _ => None
  end.

(** The error raised for a column that must not be null.  The text stands
    for the message, which names the column and differs between the
    routes. *)
Definition not_null_violation : string := "notNull Violation".

(** [POST /api/schedule]. *)
Definition post_schedule (f : JobFields) : M Response :=
  handler
    (match row_of_create f with
     | Some v =>
         w <- get ;;
         let '(id, d) := insert_video v (db w) in
         modify (set_db d) ;;;
         eff_ret (ok (BVideo id v))
     | None => throw not_null_violation
     end).

(** All the rows of a bulk request, or nothing when one of them lacks a
    column that must not be null. *)
Fixpoint rows_of_bulk (l : list JobFields) : option (list Video) :=
  match l with
  | [] => Some []
  | f :: r =>
      match row_of_bulk f, rows_of_bulk r with
      | Some v, Some vs => Some (v :: vs)
      | _, _ => None
      end
  end.

Fixpoint insert_all (vs : list Video) (d : DB) : list (Z * Video) * DB :=
  match vs with
  | [] => ([], d)
  | v :: r =>
      let '(id, d1) := insert_video v d in
      let '(rows, d2) := insert_all r d1 in
      ((id, v) :: rows, d2)
  end.

(** [POST /api/schedule/bulk]; [schedules] is [None] when the body has no
    such array. *)
Definition post_schedule_bulk (schedules : option (list JobFields)) : M Response :=
  handler
    (match schedules with
     | Some l =>
         match rows_of_bulk l with
         | Some vs =>
             w <- get ;;
             let '(rows, d) := insert_all vs (db w) in
             modify (set_db d) ;;;
             eff_ret (ok (BVideos rows))
         | None => throw not_null_violation
         end
     | None => throw "Cannot read properties of undefined (reading 'map')"
     end).

(** [DELETE /api/schedule/:id]; [id] is [None] when the parameter is not
    an integer of the key column, which the database refuses. *)
Definition delete_schedule (id : option Z) : M Response :=
  handler
    (match id with
     | Some k =>
         modify (λ w, set_db (destroy_pending k (db w)) w) ;;;
         eff_ret (ok BSuccess)
     | None => throw "invalid input syntax for type integer"
     end).

(** [GET /api/metadata/suggest]. *)
Definition get_metadata_suggest (env : Env) (filename : option string) : M Response :=
  handler (metadata <- generateMetadata env filename ;;
           eff_ret (ok (BJson metadata))).

(** [POST /api/auth/exchange]. *)
Definition post_auth_exchange (env : Env) (code : option string) : M Response :=
  handler (tokens <- lift (getToken env code) ;;
           saveTokens tokens ;;;
           eff_ret (ok BSuccess)).

(** Rows in descending order of the scheduled time. *)
Fixpoint insert_desc (kv : Z * Video) (l : list (Z * Video)) : list (Z * Video) :=
  match l with
  | [] => [kv]
  | kv' :: r =>
      if (scheduledTime kv'.2 <=? scheduledTime kv.2)%Z
      then kv :: l
      else kv' :: insert_desc kv r
  end.

Definition sort_desc (l : list (Z * Video)) : list (Z * Video) :=
  foldr insert_desc [] l.

(** [GET /api/schedule]: the 50 rows of the latest scheduled times. *)
Definition get_schedule : M Response :=
  handler (rows <- read (λ d, take 50 (sort_desc (map_to_list (videos d)))) ;;
           eff_ret (ok (BVideos rows))).

(** [GET /api/favorites]. *)
Definition get_favorites : M Response :=
  handler (rows <- read favorites ;;
           eff_ret (ok (BFavorites rows))).

Definition set_favorites (l : list Favorite) (d : DB) : DB :=
  {| videos := videos d; next_id := next_id d;
     favorites := l; settings := settings d |}.

(** The error raised on a second row of the same file id; the text stands
    for its message. *)
Definition unique_violation : string := "Validation error".

Definition same_file (k : option string) (f : Favorite) : bool :=
  match k, fav_driveFileId f with
  | Some a, Some b => String.eqb a b
  | _, _ => false
  end.

(** [POST /api/favorites]: the file id is unique among the rows that have
    one. *)
Definition post_favorites (f : Favorite) : M Response :=
  handler
    (w <- get ;;
     if existsb (same_file (fav_driveFileId f)) (favorites (db w))
     then throw unique_violation
     else modify (set_db (set_favorites (favorites (db w) ++ [f]) (db w))) ;;;
          eff_ret (ok (BFavorite f))).

(** [DELETE /api/favorites/:driveFileId]. *)
Definition delete_favorites (driveFileId : string) : M Response :=
  handler
    (modify (λ w, set_db (set_favorites
                            (filter (λ f, same_file (Some driveFileId) f = false)
                                    (favorites (db w))) (db w)) w) ;;;
     eff_ret (ok BSuccess)).

End Server.

(** ** The earlier version of the server *)

Module ServerV1.
Import JsString Json Effects Server.
Local Open Scope eff_scope.

(** The fallback suggestion: the file name and the default description. *)
Definition fallback_metadata (filename : option string) : Json :=
  JObj (match filename with
        | Some f => [("title"%string, JStr f)]
        | None => []
        end
        ++ [("description"%string, JStr "Uploaded via V-UPLOAD AI")]).

Definition generateMetadata (env : Env) (filename : option string) : M Json :=
  try_catch
    (text <- lift (generateContent env filename) ;;
     match parse_reply env (clean_reply text) with
     | Some data => eff_ret data
     | None => throw "Unexpected token in JSON"
     end)
    (λ _, eff_ret (fallback_metadata filename)).

Definition snippet_of (title description : option string) : Snippet :=
  {| sn_title := take_chars 100 (or_default title "Untitled Video");
     sn_description := or_default description "Uploaded via V-UPLOAD AI";
     sn_tags := None;
     sn_categoryId := "22";
     sn_privacyStatus := "private" |}.

(** The first-comment step: the comment is posted, then pinned. *)
Definition comment_step (env : Env) (videoId : string)
    (firstComment : option string) : M unit :=
  if truthy firstComment
  then
    let text := or_default firstComment EmptyString in
    try_catch
      (cid <- lift (commentThreads_insert env videoId text) ;;
       log (EvCommented videoId text cid) ;;;
       lift (comments_setManagementStatus env cid) ;;;
       log (EvPinned cid))
      (λ _, eff_ret tt)
  else eff_ret tt.

Definition processUpload (env : Env) (fileId : string)
    (title description thumbnailData firstComment : option string) : M string :=
  log (EvPipeline fileId) ;;;
  tokens <- getStoredTokens ;;
  if negb (tokens_present tokens)
  then throw "No tokens found. Please connect Google account."
  else
    lift (drive_files_get env fileId) ;;;
    log (EvDownloaded fileId) ;;;
    let sn := snippet_of title description in
    videoId <- lift (videos_insert env sn) ;;
    log (EvInserted sn videoId) ;;;
    thumbnail_step env videoId thumbnailData ;;;
    comment_step env videoId firstComment ;;;
    eff_ret videoId.

(** The second part of a tick: no notification in this version. *)
Definition tick_upload (env : Env) (id : Z) (job : Video) : M unit :=
  r <- attempt (processUpload env (driveFileId job) (title job) (description job)
                  (thumbnail job) (firstComment job)) ;;
  save id job
    (match r with
     | Ok ytId => with_outcome "Done" (Some ytId) None job
     | Throw msg => with_outcome "Failed" (youtubeId job) (Some msg) job
     end).

Definition tick (env : Env) (now : Z) : M unit :=
  try_catch
    (picked <- tick_select now ;;
     match picked with
     | Some (id, job) => tick_upload env id job
     | None => eff_ret tt
     end)
    (λ _, eff_ret tt).

End ServerV1.

(** ** The running system: what can happen to the store *)

Module System.
Import JsString Json Effects Server.

(** The operations on the store.  A tick is in two parts, so that the
    store can be observed, and other operations can run, while its upload
    is outstanding; the whole tick is there as well. *)
Inductive Op :=
| OpInit (env : Env)
| OpRecover
| OpTickSelect (now : Z)
| OpTickUpload (env : Env) (id : Z) (job : Video)
| OpTick (env : Env) (now : Z)
| OpCreate (f : JobFields)
| OpBulkCreate (schedules : option (list JobFields))
| OpDelete (id : option Z).

Definition step (w : World) (op : Op) : World :=
  match op with
  | OpInit env => (initDB env w).2
  | OpRecover => (update_stuck w).2
  | OpTickSelect now => (tick_select now w).2
  | OpTickUpload env id job => (tick_upload env id job w).2
  | OpTick env now => (tick env now w).2
  | OpCreate f => (post_schedule f w).2
  | OpBulkCreate l => (post_schedule_bulk l w).2
  | OpDelete id => (delete_schedule id w).2
  end.

Definition run (ops : list Op) (w : World) : World := foldl step w ops.

(** *** The process from its start

    The top level of the module calls [initDB] once, without awaiting it,
    and then registers the routes and the poller.  [initDB] waits in turn
    for the connection check, the schema sync and the reset; each part runs
    when the call before it has answered.  From then on the process takes
    turns: the next part of [initDB], the first part of a tick, the end of
    a tick that is in flight, or a request.  Nothing in the code orders the
    parts of [initDB] before the ticks; which comes first depends on how
    long the calls take, which the model leaves open. *)
Inductive InitStage :=
| AwaitAuthenticate
| AwaitSync
| AwaitUpdate
| InitDone.

(** The process: how far [initDB] has come, the instances of the ticks
    whose upload is outstanding, oldest first, and the world. *)
Record Process := {
  stage : InitStage;
  inflight : list (Z * Video);
  proc_world : World
}.

(** The process when the top level of the module has run. *)
Definition boot (w : World) : Process :=
  {| stage := AwaitAuthenticate; inflight := []; proc_world := w |}.

Inductive Turn :=
| TurnInit
| TurnTickStart (now : Z)
| TurnTickEnd (env : Env) (i : nat)
| TurnCreate (f : JobFields)
| TurnBulkCreate (schedules : option (list JobFields))
| TurnDelete (id : option Z).

(** The next part of [initDB]; an exception of the connection check or of
    the sync is caught and ends it. *)
Definition init_turn (env : Env) (p : Process) : Process :=
  match stage p with
  | AwaitAuthenticate =>
      {| stage := match authenticate env with
                  | Ok _ => AwaitSync
                  | Throw _ => InitDone
                  end;
         inflight := inflight p; proc_world := proc_world p |}
  | AwaitSync =>
      {| stage := match sync env with
                  | Ok _ => AwaitUpdate
                  | Throw _ => InitDone
                  end;
         inflight := inflight p; proc_world := proc_world p |}
  | AwaitUpdate =>
      {| stage := InitDone; inflight := inflight p;
         proc_world := (update_stuck (proc_world p)).2 |}
  | InitDone => p
  end.

(** A turn of the process.  The connection check and the sync get their
    outcome from the environment of the start; the end of a tick gets the
    outcomes of its upload from its own. *)
Definition turn (env : Env) (p : Process) (t : Turn) : Process :=
  match t with
  | TurnInit => init_turn env p
  | TurnTickStart now =>
      let r := tick_select now (proc_world p) in
      {| stage := stage p;
         inflight := match r.1 with
                     | Ok (Some picked) => inflight p ++ [picked]
                     | _ => inflight p
                     end;
         proc_world := r.2 |}
  | TurnTickEnd tenv i =>
      match inflight p !! i with
      | Some (id, job) =>
          {| stage := stage p; inflight := delete i (inflight p);
             proc_world := (tick_upload tenv id job (proc_world p)).2 |}
      | None => p
      end
  | TurnCreate f =>
      {| stage := stage p; inflight := inflight p;
         proc_world := (post_schedule f (proc_world p)).2 |}
  | TurnBulkCreate l =>
      {| stage := stage p; inflight := inflight p;
         proc_world := (post_schedule_bulk l (proc_world p)).2 |}
  | TurnDelete id =>
      {| stage := stage p; inflight := inflight p;
         proc_world := (delete_schedule id (proc_world p)).2 |}
  end.

Definition process (env : Env) (turns : list Turn) (w : World) : Process :=
  foldl (turn env) (boot w) turns.

(** The number of jobs of a status. *)
Definition count_status (st : string) (d : DB) : nat :=
  length (select (has_status st) (videos d)).

(** An entry of a bulk request asks for the status [Uploading]. *)
Definition asks_uploading (f : JobFields) : bool :=
  match jf_status f with
  | Some st => String.eqb st "Uploading"
  | None => false
  end.

(** No bulk request among the operations has such an entry. *)
Definition plain_bulk (op : Op) : bool :=
  match op with
  | OpBulkCreate (Some l) => forallb (λ f, negb (asks_uploading f)) l
  | _ => true
  end.

(** No bulk request among the turns has such an entry. *)
Definition plain_turn (t : Turn) : bool :=
  match t with
  | TurnBulkCreate (Some l) => forallb (λ f, negb (asks_uploading f)) l
  | _ => true
  end.

(** The resets of stuck uploads in a trace. *)
Definition is_reset (e : Event) : bool :=
  match e with EvResetStuck _ => true | _ => false end.

Definition resets (tr : list Event) : nat :=
  length (filter (λ e, is_reset e = true) tr).

(** Some job is uploading. *)
Definition some_uploading (d : DB) : Prop :=
  ∃ k v, videos d !! k = Some v ∧ status v = "Uploading"%string.

(** At most one job is uploading, said on the rows. *)
Definition single_flight (d : DB) : Prop :=
  ∀ i j x y, videos d !! i = Some x → videos d !! j = Some y →
             status x = "Uploading"%string → status y = "Uploading"%string →
             i = j.

(** An operation that puts no new row in the status [Uploading]. *)
Definition no_new_uploading (d d' : DB) : Prop :=
  ∀ k x, videos d' !! k = Some x → status x = "Uploading"%string →
         ∃ x0, videos d !! k = Some x0 ∧ status x0 = "Uploading"%string.

(** Two rows with the same content: they differ at most in the status, the
    remote id and the error. *)
Definition same_content (a b : Video) : Prop :=
  driveFileId a = driveFileId b ∧ title a = title b
  ∧ description a = description b ∧ tags a = tags b ∧ hashtags a = hashtags b
  ∧ thumbnail a = thumbnail b ∧ firstComment a = firstComment b
  ∧ scheduledTime a = scheduledTime b.

(** The connection check and the schema sync of the start succeed. *)
Definition started (env : Env) : bool :=
  match authenticate env, sync env with
  | Ok _, Ok _ => true
  | _, _ => false
  end.

(** The turns among a list in which [initDB] goes on. *)
Definition is_init (t : Turn) : bool :=
  match t with TurnInit => true | _ => false end.

Definition init_turns (turns : list Turn) : nat :=
  length (filter (λ t, is_init t = true) turns).

(** A row is stale: it is uploading and no tick in flight is at work on
    it. *)
Definition stale (p : Process) (k : Z) : Prop :=
  (∃ v, videos (db (proc_world p)) !! k = Some v ∧ status v = "Uploading"%string)
  ∧ k ∉ (inflight p).*1.

(** A computation that makes no reset of stuck uploads. *)
Definition quiet {A} (m : M A) : Prop :=
  ∀ w, resets (trace (m w).2) = resets (trace w).

(** The number of resets at each stage of [initDB]. *)
Definition resets_at (env : Env) (n0 : nat) (p : Process) : Prop :=
  match stage p with
  | AwaitAuthenticate => resets (trace (proc_world p)) = n0
  | AwaitSync => (∃ u, authenticate env = Ok u) ∧ resets (trace (proc_world p)) = n0
  | AwaitUpdate => started env = true ∧ resets (trace (proc_world p)) = n0
  | InitDone => resets (trace (proc_world p)) = if started env then S n0 else n0
  end.

(** How far [initDB] has come, as a number. *)
Definition stage_index (st : InitStage) : nat :=
  match st with
  | AwaitAuthenticate => 0
  | AwaitSync => 1
  | AwaitUpdate => 2
  | InitDone => 3
  end.

(** What is true of the ticks in flight and of the rows that are
    uploading, once [initDB] has ended after a start that succeeded. *)
Definition settled_start (env : Env) (p : Process) : Prop :=
  Forall (λ kv, status kv.2 = "Uploading"%string) (inflight p)
  ∧ (stage p = AwaitSync → ∃ u, authenticate env = Ok u)
  ∧ (stage p = InitDone →
     ∀ k v, videos (db (proc_world p)) !! k = Some v →
            status v = "Uploading"%string → k ∈ (inflight p).*1).

(** The world after the [save] of the first part of a tick. *)
Definition marked (id : Z) (w : World) : World :=
  {| db := set_videos (alter (with_status "Uploading") id (videos (db w))) (db w);
     trace := trace w ++ [EvStored id "Uploading"] |}.

(** The job as the tick leaves it, from the outcome of the pipeline. *)
Definition settled (r : Result string) (job : Video) : Video :=
  match r with
  | Ok ytId => with_outcome "Done" (Some ytId) None job
  | Throw msg => with_outcome "Failed" (youtubeId job) (Some msg) job
  end.

Definition upload_of (env : Env) (job : Video) : M string :=
  processUpload env (driveFileId job) (title job) (description job)
    (thumbnail job) (firstComment job) (tags job) (hashtags job).

(** The suggestion fails: the call of the model throws, or what it
    returns, cleaned of its fences, does not parse. *)
Definition failed_suggestion (env : Env) (filename : option string) : bool :=
  match generateContent env filename with
  | Ok text => match parse_reply env (clean_reply text) with
               | Some _ => false
               | None => true
               end
  | Throw _ => true
  end.

(** An entry of the form's request as the bulk route receives it: the
    fields of the entry, the scheduled time as its instant ([null] for an
    Invalid Date), and nothing else. *)
Definition entry_of_schedule (s : App.Schedule) : JobFields :=
  {| jf_driveFileId := Some (App.s_driveFileId s);
     jf_title := App.s_title s;
     jf_description := App.s_description s;
     jf_thumbnail := App.s_thumbnail s;
     jf_firstComment := App.s_firstComment s;
     jf_tags := None; jf_hashtags := None;
     jf_scheduledTime := App.s_scheduledTime s;
     jf_status := None; jf_youtubeId := None; jf_error := None |}.

(** *** What the columns hold

    A [STRING] column holds up to 255 characters, no text column holds the
    character of code 0, the scheduled time is not before the epoch, and a
    key is an integer of 32 bits.  The tables of the model take any value;
    the theorems on rows that are stored say for which rows they hold.
    Lengths are counted in the 8-bit units of the model, which are at least
    as many as the characters. *)
Fixpoint no_nul (s : string) : bool :=
  match s with
  | EmptyString => true
  | String c r => negb (Ascii.eqb c Ascii.zero) && no_nul r
  end.

Definition fits_string (o : option string) : bool :=
  match o with
  | Some s => (String.length s <=? 255)%nat && no_nul s
  | None => true
  end.

Definition fits_text (o : option string) : bool :=
  match o with
  | Some s => no_nul s
  | None => true
  end.


Definition storable_favorite (f : Favorite) : bool :=
  fits_string (fav_driveFileId f) && fits_string (fav_name f)
  && fits_text (fav_thumbnailLink f).


Definition in_key_range (k : Z) : bool :=
  (-2147483648 <=? k)%Z && (k <=? 2147483647)%Z.

(** Every key of the job table is below the next key. *)
Definition well_keyed (d : DB) : Prop :=
  ∀ k, is_Some (videos d !! k) → (k < next_id d)%Z.

(** The file ids of the favorites that have one. *)
Definition favorite_ids (d : DB) : list string :=
  omap fav_driveFileId (favorites d).

(** A list of rows is in descending order of the scheduled time. *)
Fixpoint descending (l : list (Z * Video)) : Prop :=
  match l with
  | [] => True
  | kv :: r => (∀ kv', kv' ∈ r → (scheduledTime kv'.2 ≤ scheduledTime kv.2)%Z)
               ∧ descending r
  end.

(** The message of the pipeline when there are no tokens. *)
Definition no_tokens_message : string :=
  "No tokens found. Please connect Google account.".

(** The store has working tokens. *)
Definition connected (d : DB) : bool :=
  match settings d !! "google_tokens"%string with
  | Some txt => match parse txt with
                | Some v => js_truthy v
                | None => false
                end
  | None => false
  end.

End System.

(** ** Sample data *)

Module Samples.
Import JsString JsDate App Json Effects Server System.
Local Open Scope Z_scope.

Definition sample_form : FormData :=
  {| fd_title := Some "clip"%string; fd_description := None;
     fd_times := ["09:00"; "18:30"]%string; fd_days := [1; 3; 5];
     fd_thumbnail := None; fd_firstComment := None |}.

Definition job (st : string) (t : Z) : Video :=
  {| driveFileId := "file-1"; title := Some "clip"%string; description := None;
     tags := None; hashtags := None;
     thumbnail := Some "data:image/jpeg;base64,AAAA"%string;
     firstComment := Some "first"%string;
     scheduledTime := t; status := st; youtubeId := None; error := None |}.

Definition tokens_text : JsonText :=
  Encodes (JObj [("access_token"%string, JStr "token")]).

Definition store (vs : gmap Z Video) : DB :=
  {| videos := vs; next_id := 10; favorites := [];
     settings := {["google_tokens"%string := tokens_text]} |}.

Definition world (vs : gmap Z Video) : World := {| db := store vs; trace := [] |}.

(** Every call succeeds, but the post to the webhook. *)
Definition env_ok : Env :=
  {| authenticate := Ok tt; sync := Ok tt;
     generateContent := λ _, Ok "{}"%string;
     parse_reply := λ _, Some (JObj []);
     drive_files_get := λ _, Ok tt;
     videos_insert := λ _, Ok "yt-1"%string;
     thumbnails_set := λ _ _, Ok tt;
     commentThreads_insert := λ _ _, Ok "c-1"%string;
     comments_setManagementStatus := λ _, Ok tt;
     webhook_url := Some "https://hook.example"%string;
     axios_post := λ _ _, Throw "axios is not defined";
     notify_time := 0;
     getToken := λ _, Ok (JObj [("access_token"%string, JStr "token")]) |}.

(** The database cannot be reached at start-up. *)
Definition env_down : Env :=
  {| authenticate := Throw "connect ECONNREFUSED"; sync := Ok tt;
     generateContent := generateContent env_ok;
     parse_reply := parse_reply env_ok;
     drive_files_get := drive_files_get env_ok;
     videos_insert := videos_insert env_ok;
     thumbnails_set := thumbnails_set env_ok;
     commentThreads_insert := commentThreads_insert env_ok;
     comments_setManagementStatus := comments_setManagementStatus env_ok;
     webhook_url := webhook_url env_ok;
     axios_post := axios_post env_ok;
     notify_time := notify_time env_ok;
     getToken := getToken env_ok |}.

(** The insert succeeds; the thumbnail, the comment and the pin fail. *)
Definition env_partial : Env :=
  {| authenticate := Ok tt; sync := Ok tt;
     generateContent := λ _, Throw "503 Service Unavailable";
     parse_reply := λ _, None;
     drive_files_get := λ _, Ok tt;
     videos_insert := λ _, Ok "yt-1"%string;
     thumbnails_set := λ _ _, Throw "forbidden";
     commentThreads_insert := λ _ _, Throw "commentsDisabled";
     comments_setManagementStatus := λ _, Throw "forbidden";
     webhook_url := None;
     axios_post := λ _ _, Ok tt;
     notify_time := 0;
     getToken := λ _, Throw "invalid_grant" |}.

(** The insert is refused. *)
Definition env_refused : Env :=
  {| authenticate := Ok tt; sync := Ok tt;
     generateContent := generateContent env_ok;
     parse_reply := parse_reply env_ok;
     drive_files_get := drive_files_get env_ok;
     videos_insert := λ _, Throw "quotaExceeded";
     thumbnails_set := thumbnails_set env_ok;
     commentThreads_insert := commentThreads_insert env_ok;
     comments_setManagementStatus := comments_setManagementStatus env_ok;
     webhook_url := webhook_url env_ok;
     axios_post := axios_post env_ok;
     notify_time := notify_time env_ok;
     getToken := getToken env_ok |}.

(** The download from Drive fails. *)
Definition env_offline : Env :=
  {| authenticate := Ok tt; sync := Ok tt;
     generateContent := generateContent env_ok;
     parse_reply := parse_reply env_ok;
     drive_files_get := λ _, Throw "File not found";
     videos_insert := videos_insert env_ok;
     thumbnails_set := thumbnails_set env_ok;
     commentThreads_insert := commentThreads_insert env_ok;
     comments_setManagementStatus := comments_setManagementStatus env_ok;
     webhook_url := webhook_url env_ok;
     axios_post := axios_post env_ok;
     notify_time := notify_time env_ok;
     getToken := getToken env_ok |}.

(** An entry of a bulk request that names a status. *)
Definition entry (st : option string) : JobFields :=
  {| jf_driveFileId := Some "file-1"%string; jf_title := None;
     jf_description := None; jf_thumbnail := None; jf_firstComment := None;
     jf_tags := None; jf_hashtags := None; jf_scheduledTime := Some 3;
     jf_status := st; jf_youtubeId := None; jf_error := None |}.

(** A run of operations with bulk requests that name no status or the
    status [Done]. *)
Definition sample_ops : list Op :=
  [OpInit env_ok; OpBulkCreate (Some [entry None; entry (Some "Done"%string)]);
   OpTickSelect 5; OpCreate (entry None); OpTick env_ok 6;
   OpTickUpload env_refused 10 (job "Uploading" 3); OpDelete (Some 11%Z);
   OpTick env_partial 7].

End Samples.

(** * Properties *)

(** ** The calendar *)

Module DateFacts.
Import JsDate.
Local Open Scope Z_scope.

Ltac div_lia := Z.div_mod_to_equations; lia.

Lemma day_of_era_range d : 0 <= day_of_era d < 146097.
Proof. unfold day_of_era, era_of. div_lia. Qed.

Lemma year_of_era_range doe :
  0 <= doe < 146097 -> 0 <= year_of_era doe <= 399.
Proof. intros H. unfold year_of_era. div_lia. Qed.

Lemma day_of_year_range doe :
  0 <= doe < 146097 -> 0 <= day_of_year doe <= 365.
Proof. intros H. unfold day_of_year, days_before_year, year_of_era. div_lia. Qed.

Lemma month_index_range doy : 0 <= doy <= 365 -> 0 <= month_index doy <= 11.
Proof. intros H. unfold month_index. div_lia. Qed.

Lemma day_of_month_range doy : 0 <= doy <= 365 -> 1 <= day_of_month doy <= 31.
Proof.
  intros H. unfold day_of_month, days_before_month, month_index. div_lia.
Qed.

(** The day of the month is between 1 and 31. *)
Lemma DateFromTime_range t : 1 <= DateFromTime t <= 31.
Proof.
  unfold DateFromTime. apply day_of_month_range, day_of_year_range,
    day_of_era_range.
Qed.

(** The week day is between 0 and 6. *)
Lemma WeekDay_range t : 0 <= WeekDay t <= 6.
Proof. unfold WeekDay. div_lia. Qed.

(** Within the year the day after has the next day of the month, or is a
    first of the month. *)
Lemma day_of_month_succ doy :
  0 <= doy < 365 -> day_of_month (doy + 1) <= day_of_month doy + 1.
Proof.
  intros H. unfold day_of_month, days_before_month, month_index. div_lia.
Qed.

Lemma year_of_era_succ doe :
  0 <= doe < 146096 ->
  year_of_era doe <= year_of_era (doe + 1) <= year_of_era doe + 1.
Proof. intros H. unfold year_of_era. div_lia. Qed.

Lemma year_of_era_end doe :
  0 <= doe < 146097 ->
  doe < days_before_year (year_of_era doe + 1) \/ year_of_era doe = 399.
Proof. intros H. unfold days_before_year, year_of_era. div_lia. Qed.

Lemma day_of_year_succ doe :
  0 <= doe < 146096 ->
  day_of_year (doe + 1) = day_of_year doe + 1 \/ day_of_year (doe + 1) = 0.
Proof.
  intros H.
  pose proof (year_of_era_succ doe H) as Hm.
  pose proof (year_of_era_end doe ltac:(lia)) as Hu.
  pose proof (day_of_year_range (doe + 1) ltac:(lia)) as Hb.
  pose proof (year_of_era_range (doe + 1) ltac:(lia)) as Hy.
  unfold day_of_year in *.
  set (y := year_of_era doe) in *. set (y' := year_of_era (doe + 1)) in *.
  assert (Hc : y' = y \/ y' = y + 1) by lia.
  destruct Hc as [-> | ->]; [left; lia|].
  right. destruct Hu as [Hu | Hu]; lia.
Qed.

Lemma day_of_era_succ d :
  (day_of_era d = 146096 /\ day_of_era (d + 1) = 0)
  \/ (day_of_era d < 146096 /\ day_of_era (d + 1) = day_of_era d + 1).
Proof. unfold day_of_era, era_of. div_lia. Qed.

Lemma date_of_day_succ d : date_of_day (d + 1) <= date_of_day d + 1.
Proof.
  unfold date_of_day.
  pose proof (day_of_era_range d) as He.
  pose proof (day_of_year_range _ He) as Hy.
  pose proof (day_of_month_range _ Hy) as Hd.
  destruct (day_of_era_succ d) as [[_ E] | [Hlt E]]; rewrite E.
  - change (day_of_month (day_of_year 0)) with 1. lia.
  - pose proof (day_of_year_range (day_of_era d + 1) ltac:(lia)) as Hb.
    destruct (day_of_year_succ (day_of_era d) ltac:(lia)) as [E1 | E1];
      rewrite E1 in *.
    + apply day_of_month_succ. lia.
    + change (day_of_month 0) with 1. lia.
Qed.

(** The first day of the month of a day does not come earlier when the
    day comes later. *)
Lemma month_start_mono d k :
  0 <= k -> d - date_of_day d <= (d + k) - date_of_day (d + k).
Proof.
  intros Hk. revert k Hk.
  apply (natlike_ind (λ k, d - date_of_day d <= d + k - date_of_day (d + k))).
  - rewrite Z.add_0_r. lia.
  - intros k Hk IH. pose proof (date_of_day_succ (d + k)) as Hs.
    replace (d + Z.succ k) with (d + k + 1) by lia. lia.
Qed.

(** A year, month and date give back the day they come from: the day
    number of the first of the month of [t], plus a date, is the day of
    [t] moved by the difference of the dates. *)
Lemma MakeDay_of_time t n :
  MakeDay (YearFromTime t) (MonthFromTime t) n = Day t + n - DateFromTime t.
Proof.
  unfold MakeDay, YearFromTime, DateFromTime, MonthFromTime.
  pose proof (day_of_era_range (Day t)) as He.
  pose proof (year_of_era_range _ He) as Hy.
  pose proof (day_of_year_range _ He) as Hd.
  pose proof (month_index_range _ Hd) as Hm.
  unfold day_of_month.
  assert (Hdoy : day_of_year (day_of_era (Day t))
                 = day_of_era (Day t)
                   - days_before_year (year_of_era (day_of_era (Day t))))
    by reflexivity.
  assert (Hdoe : day_of_era (Day t) = Day t + 719468 - era_of (Day t) * 146097)
    by reflexivity.
  set (doy := day_of_year (day_of_era (Day t))) in *.
  set (yoe := year_of_era (day_of_era (Day t))) in *.
  set (mp := month_index doy) in *.
  set (era := era_of (Day t)) in *.
  set (doe := day_of_era (Day t)) in *.
  destruct (Z.ltb_spec mp 10) as [Hlt | Hge].
  - replace ((mp + 2) / 12) with 0 by div_lia.
    replace ((mp + 2) mod 12) with (mp + 2) by div_lia.
    destruct (Z.leb_spec (mp + 2) 1); [lia|].
    destruct (Z.ltb_spec 1 (mp + 2)); [|lia].
    replace (mp + 2 - 2) with mp by lia.
    replace ((yoe + era * 400 + 0 + 0) / 400) with era by div_lia.
    replace (yoe + era * 400 + 0 + 0 - era * 400) with yoe by lia.
    lia.
  - replace ((mp - 10) / 12) with 0 by div_lia.
    replace ((mp - 10) mod 12) with (mp - 10) by div_lia.
    destruct (Z.leb_spec (mp - 10) 1); [|lia].
    destruct (Z.ltb_spec 1 (mp - 10)); [lia|].
    replace (mp - 10 + 10) with mp by lia.
    replace ((yoe + era * 400 + 1 + 0 - 1) / 400) with era by div_lia.
    replace (yoe + era * 400 + 1 + 0 - 1 - era * 400) with yoe by lia.
    lia.
Qed.

Lemma Day_shift t k : Day (t + k * msPerDay) = Day t + k.
Proof. unfold Day, msPerDay. div_lia. Qed.

Lemma TimeWithinDay_shift t k : TimeWithinDay (t + k * msPerDay) = TimeWithinDay t.
Proof. unfold TimeWithinDay, msPerDay. div_lia. Qed.

Lemma Day_split t : t = Day t * msPerDay + TimeWithinDay t.
Proof. unfold Day, TimeWithinDay, msPerDay. div_lia. Qed.

Lemma TimeWithinDay_range t : 0 <= TimeWithinDay t < msPerDay.
Proof. unfold TimeWithinDay, msPerDay. div_lia. Qed.

Section Local.
Variable tza : Z.

(** [setDate] moves a date by whole days: by the difference between the
    date asked for and the date it has. *)
Lemma setDate_shift t n :
  setDate tza (Some t) (Some n)
  = Some (t + (n - DateFromTime (LocalTime tza t)) * msPerDay).
Proof.
  unfold setDate. f_equal. rewrite MakeDay_of_time.
  unfold UTC, MakeDate.
  pose proof (Day_split (LocalTime tza t)) as Hs.
  unfold LocalTime in *. lia.
Qed.

(** [setHours] keeps the local day and replaces the time of day. *)
Lemma setHours_value t h m :
  setHours tza (Some t) (Some h) (Some m) (Some 0) (Some 0)
  = Some (Day (LocalTime tza t) * msPerDay + h * msPerHour + m * msPerMinute - tza).
Proof. unfold setHours, UTC, MakeDate, MakeTime. f_equal. lia. Qed.
End Local.

End DateFacts.

(** ** The scheduling form *)

Module ExpanderFacts.
Import JsString JsDate App DateFacts.
Local Open Scope Z_scope.

Lemma is_digit_cases c : is_digit c = true -> In c decimal_digits.
Proof.
  destruct c as [[] [] [] [] [] [] [] []]; vm_compute; intros H;
    try discriminate H; tauto.
Qed.

Lemma digit_of_range c : In c decimal_digits -> 0 <= digit_of c <= 9.
Proof.
  intros H. repeat (destruct H as [<- | H]; [vm_compute; split; discriminate|]).
  destruct H.
Qed.

Lemma digit_not_colon c : In c decimal_digits -> Ascii.eqb c ":" = false.
Proof.
  intros H. repeat (destruct H as [<- | H]; [reflexivity|]). destruct H.
Qed.

(** [parseInt] of two decimal digits is their decimal value. *)
Lemma parseInt_two_digits a b :
  In a decimal_digits -> In b decimal_digits ->
  parseInt (Some (String a (String b EmptyString)))
  = Some (10 * digit_of a + digit_of b).
Proof.
  intros Ha Hb.
  repeat (destruct Ha as [<- | Ha];
          [repeat (destruct Hb as [<- | Hb]; [reflexivity|]); destruct Hb|]).
  destruct Ha.
Qed.

(** A time of day of the form HH:MM parses to its hour and its minute. *)
Lemma parse_time_valid s :
  valid_time s = true ->
  ∃ h m, 0 <= h <= 23 ∧ 0 <= m <= 59 ∧ parse_time s = (Some h, Some m).
Proof.
  unfold valid_time.
  destruct s as [|a [|b [|c [|d [|e [|]]]]]]; try discriminate.
  intros H. rewrite !andb_true_iff in H.
  destruct H as ((((((Ha & Hb) & Hc) & Hd) & He) & Hhour) & Hmin).
  apply is_digit_cases in Ha, Hb, Hd, He.
  apply Ascii.eqb_eq in Hc. subst c.
  apply Z.leb_le in Hhour, Hmin.
  exists (10 * digit_of a + digit_of b), (10 * digit_of d + digit_of e).
  pose proof (digit_of_range a Ha) as Ra. pose proof (digit_of_range b Hb) as Rb.
  pose proof (digit_of_range d Hd) as Rd. pose proof (digit_of_range e He) as Re.
  split; [lia|]. split; [lia|].
  unfold parse_time. cbn [split_on].
  rewrite !digit_not_colon by assumption. cbn [Ascii.eqb Bool.eqb split_on].
  rewrite !digit_not_colon by assumption. cbn [split_on lookup list_lookup].
  rewrite !parseInt_two_digits by assumption. reflexivity.
Qed.

Section Pair.
Variables tza now : Z.

Lemma day_diff_range dayIndex :
  0 <= dayIndex <= 6 -> 0 <= day_diff tza now dayIndex <= 6.
Proof.
  intros H. unfold day_diff.
  pose proof (WeekDay_range (LocalTime tza now)).
  destruct (Z.ltb_spec (dayIndex - WeekDay (LocalTime tza now)) 0); lia.
Qed.

(** For week days, [day_diff] is the formula of the distance to the next
    such day. *)
Lemma day_diff_mod dayIndex :
  0 <= dayIndex <= 6 ->
  day_diff tza now dayIndex
  = (dayIndex - WeekDay (LocalTime tza now) + 7) mod 7.
Proof.
  intros H. unfold day_diff.
  pose proof (WeekDay_range (LocalTime tza now)).
  destruct (Z.ltb_spec (dayIndex - WeekDay (LocalTime tza now)) 0); div_lia.
Qed.

(** The candidate in closed form. *)
Lemma candidate_value date0 dayIndex s h m :
  parse_time s = (Some h, Some m) ->
  candidate tza now date0 dayIndex s
  = Some ((Day (LocalTime tza date0) + day_offset tza now date0 dayIndex) * msPerDay
          + h * msPerHour + m * msPerMinute - tza).
Proof.
  intros Hp. unfold candidate. rewrite Hp.
  rewrite setDate_shift, setHours_value. f_equal.
  fold (day_offset tza now date0 dayIndex).
  replace (LocalTime tza (date0 + day_offset tza now date0 dayIndex * msPerDay))
    with (LocalTime tza date0 + day_offset tza now date0 dayIndex * msPerDay)
    by (unfold LocalTime; lia).
  rewrite Day_shift. reflexivity.
Qed.

(** A candidate that is not after [now] is moved by exactly seven days;
    any other candidate is the scheduled time. *)
Lemma occurrence_value date0 dayIndex s c :
  candidate tza now date0 dayIndex s = Some c ->
  occurrence tza now date0 dayIndex s
  = Some (if c <=? now then c + 7 * msPerDay else c).
Proof.
  intros Hc. unfold occurrence. rewrite Hc. cbn [date_le].
  destruct (c <=? now); [|reflexivity].
  cbn [getDate num_add]. rewrite setDate_shift. f_equal. lia.
Qed.

(** The scheduled time of a week day and an HH:MM time is after [now],
    whatever the time that passed before the date was read. *)
Lemma occurrence_future lag dayIndex s :
  0 <= lag -> 0 <= dayIndex <= 6 -> valid_time s = true ->
  ∃ t, occurrence tza now (now + lag) dayIndex s = Some t ∧ now < t.
Proof.
  intros Hlag Hd Hv.
  destruct (parse_time_valid s Hv) as (h & m & Hh & Hm & Hp).
  pose proof (candidate_value (now + lag) dayIndex s h m Hp) as Hc.
  rewrite (occurrence_value _ _ _ _ Hc).
  eexists. split; [reflexivity|].
  destruct (Z.leb_spec
    ((Day (LocalTime tza (now + lag)) + day_offset tza now (now + lag) dayIndex)
       * msPerDay + h * msPerHour + m * msPerMinute - tza) now) as [Hle | Hgt];
    [|lia].
  pose proof (day_diff_range dayIndex Hd) as Hdiff.
  unfold day_offset in *.
  set (ltn := LocalTime tza now) in *.
  assert (Hl0 : LocalTime tza (now + lag) = ltn + lag)
    by (subst ltn; unfold LocalTime; lia).
  rewrite Hl0 in *.
  assert (Hday : ∃ j, 0 <= j ∧ Day (ltn + lag) = Day ltn + j).
  { exists (Day (ltn + lag) - Day ltn). split; [|lia].
    unfold Day, msPerDay. div_lia. }
  destruct Hday as (j & Hj & Ej).
  pose proof (month_start_mono (Day ltn) j Hj) as Hmono.
  change (date_of_day (Day ltn)) with (DateFromTime ltn) in Hmono.
  rewrite <- Ej in Hmono.
  change (date_of_day (Day (ltn + lag))) with (DateFromTime (ltn + lag)) in Hmono.
  pose proof (Day_split ltn) as Hs.
  pose proof (TimeWithinDay_range ltn) as Hr.
  assert (Hn : now = ltn - tza) by (subst ltn; unfold LocalTime; lia).
  unfold msPerDay, msPerHour, msPerMinute in *. lia.
Qed.
End Pair.

Section Loops.
Variables tza now : Z.
Variable clock : nat → N.
Variable vid : string.
Variable fd : FormData.

Lemma each_time_length k d ts :
  length (each_time tza now clock vid fd k d ts) = length ts.
Proof. revert k. induction ts as [|t r IH]; intros k; simpl; [|rewrite IH]; reflexivity. Qed.

Lemma each_day_length k ds :
  length (each_day tza now clock vid fd k ds)
  = (length ds * length (fd_times fd))%nat.
Proof.
  revert k. induction ds as [|d r IH]; intros k; simpl; [reflexivity|].
  rewrite length_app, each_time_length, IH. reflexivity.
Qed.

Lemma each_time_Forall (P : Schedule → Prop) k d ts :
  (∀ k' s, In s ts → P (schedule_entry tza now clock vid fd k' d s)) →
  Forall P (each_time tza now clock vid fd k d ts).
Proof.
  revert k. induction ts as [|t r IH]; intros k H; simpl; constructor.
  - apply H. now left.
  - apply IH. intros k' s Hs. apply H. now right.
Qed.

Lemma each_day_Forall (P : Schedule → Prop) k ds :
  (∀ k' d s, In d ds → In s (fd_times fd) →
             P (schedule_entry tza now clock vid fd k' d s)) →
  Forall P (each_day tza now clock vid fd k ds).
Proof.
  revert k. induction ds as [|d r IH]; intros k H; simpl; [constructor|].
  apply Forall_app. split.
  - apply each_time_Forall. intros k' s Hs. apply H; [now left|assumption].
  - apply IH. intros k' d' s Hd Hs. apply H; [now right|assumption].
Qed.
End Loops.

End ExpanderFacts.

Module Expansion.
Import JsString JsDate App DateFacts ExpanderFacts Samples.
Local Open Scope Z_scope.

Lemma expansion_rows
    (tza now : Z) (clock : nat → N) (vid : string) (fd : FormData)
    (post_ok : bool) :
  fd_days fd ≠ [] →
  fd_times fd ≠ [] →
  Forall (λ d, 0 <= d <= 6) (fd_days fd) →
  Forall (λ s, valid_time s = true) (fd_times fd) →
  ∃ schedules,
    posted (submitSchedule tza now clock (Some vid) fd post_ok) = Some schedules
    ∧ length schedules = (length (fd_days fd) * length (fd_times fd))%nat
    ∧ Forall (λ s, s_driveFileId s = vid
                   ∧ ∃ t, s_scheduledTime s = Some t ∧ now < t) schedules.
Proof.
  intros Hd Ht Hdays Htimes.
  unfold submitSchedule.
  destruct (fd_days fd) as [|d0 ds] eqn:Ed; [congruence|].
  destruct (fd_times fd) as [|t0 ts] eqn:Et; [congruence|].
  cbn [length Nat.eqb posted].
  exists (expand tza now clock vid fd). split; [reflexivity|].
  unfold expand. rewrite Ed. split.
  - rewrite each_day_length, Et. reflexivity.
  - apply each_day_Forall. intros k d s Hin Hs.
    cbn [schedule_entry s_scheduledTime s_driveFileId]. split; [reflexivity|].
    rewrite Et in Hs.
    apply occurrence_future.
    + lia.
    + rewrite Forall_forall in Hdays. apply Hdays, list_elem_of_In, Hin.
    + rewrite Forall_forall in Htimes. apply Htimes, list_elem_of_In, Hs.
Qed.

(** C4. For a non-empty list of week days (0 to 6) and a non-empty list of
    HH:MM times, [submitSchedule] posts exactly one entry per pair of a day
    and a time, and the scheduled time of every entry is strictly after the
    instant [now] read when the expansion started. *)
Theorem expansion_count_and_future
    (tza now : Z) (clock : nat → N) (vid : string) (fd : FormData)
    (post_ok : bool) :
  fd_days fd ≠ [] →
  fd_times fd ≠ [] →
  Forall (λ d, 0 <= d <= 6) (fd_days fd) →
  Forall (λ s, valid_time s = true) (fd_times fd) →
  ∃ schedules,
    posted (submitSchedule tza now clock (Some vid) fd post_ok) = Some schedules
    ∧ length schedules = (length (fd_days fd) * length (fd_times fd))%nat
    ∧ Forall (λ s, ∃ t, s_scheduledTime s = Some t ∧ now < t) schedules.
Proof.
  intros Hd Ht Hdays Htimes.
  destruct (expansion_rows tza now clock vid fd post_ok Hd Ht Hdays Htimes)
    as (schedules & Hp & Hlen & Hall).
  exists schedules. split; [exact Hp|]. split; [exact Hlen|].
  eapply Forall_impl; [exact Hall|]. intros s [_ H]. exact H.
Qed.

Lemma expansion_count_and_future_witness :
  fd_days sample_form ≠ []
  ∧ fd_times sample_form ≠ []
  ∧ Forall (λ d, 0 <= d <= 6) (fd_days sample_form)
  ∧ Forall (λ s, valid_time s = true) (fd_times sample_form)
  ∧ ∃ schedules,
      posted (submitSchedule 3600000 1706745599999 (λ _, 2%N) (Some "file"%string)
                sample_form true) = Some schedules
      ∧ length schedules = 6%nat
      ∧ Forall (λ s, ∃ t, s_scheduledTime s = Some t ∧ 1706745599999 < t) schedules.
Proof.
  assert (H1 : fd_days sample_form ≠ []) by discriminate.
  assert (H2 : fd_times sample_form ≠ []) by discriminate.
  assert (H3 : Forall (λ d, 0 <= d <= 6) (fd_days sample_form))
    by (repeat constructor; lia).
  assert (H4 : Forall (λ s, valid_time s = true) (fd_times sample_form))
    by (repeat constructor).
  repeat (split; [assumption|]).
  exact (expansion_count_and_future 3600000 1706745599999 (λ _, 2%N) "file"
           sample_form true H1 H2 H3 H4).
Defined.

Lemma occurrence_same_day_general tza now lag dayIndex s h m :
  0 <= dayIndex <= 6 →
  parse_time s = (Some h, Some m) →
  Day (LocalTime tza (now + lag)) = Day (LocalTime tza now) →
  candidate tza now (now + lag) dayIndex s
    = Some (spec_candidate tza now dayIndex h m)
  ∧ occurrence tza now (now + lag) dayIndex s
    = Some (spec_occurrence tza now dayIndex h m).
Proof.
  intros Hd Hp Hday.
  assert (Hc : candidate tza now (now + lag) dayIndex s
               = Some (spec_candidate tza now dayIndex h m)).
  { rewrite (candidate_value tza now _ _ _ h m Hp). f_equal.
    unfold day_offset, spec_candidate, DateFromTime.
    rewrite <- (day_diff_mod tza now dayIndex Hd), Hday.
    unfold UTC, MakeDate, MakeTime. lia. }
  split; [exact Hc|].
  rewrite (occurrence_value tza now _ _ _ _ Hc). reflexivity.
Qed.

(** X1. In a time zone whose offset from UTC does not change (the local
    time of the model; a zone that changes its offset within the week is not
    covered), for a week day and a time field of the form HH:MM: when the
    date is read on the local day of [now], the code computes the scheduled
    time of the specification: the candidate is the current date moved by
    [(targetDay - currentDay + 7) mod 7] days at the target hour and minute,
    and a candidate that is not after [now] is moved by exactly seven
    days. *)
Theorem occurrence_same_day (tza now lag dayIndex : Z) (s : string) :
  0 <= dayIndex <= 6 →
  valid_time s = true →
  Day (LocalTime tza (now + lag)) = Day (LocalTime tza now) →
  ∃ h m,
    parse_time s = (Some h, Some m)
    ∧ 0 <= h <= 23 ∧ 0 <= m <= 59
    ∧ candidate tza now (now + lag) dayIndex s
      = Some (spec_candidate tza now dayIndex h m)
    ∧ occurrence tza now (now + lag) dayIndex s
      = Some (spec_occurrence tza now dayIndex h m).
Proof.
  intros Hd Hv Hday.
  destruct (parse_time_valid s Hv) as (h & m & Hh & Hm & Hp).
  exists h, m. split; [exact Hp|]. split; [exact Hh|]. split; [exact Hm|].
  by apply occurrence_same_day_general.
Qed.

Lemma occurrence_same_day_witness :
  0 <= 1 <= 6
  ∧ valid_time "09:00" = true
  ∧ Day (LocalTime 0 (1706608800000 + 5)) = Day (LocalTime 0 1706608800000)
  ∧ candidate 0 1706608800000 (1706608800000 + 5) 1 "09:00"
    = Some (spec_candidate 0 1706608800000 1 9 0)
  ∧ occurrence 0 1706608800000 (1706608800000 + 5) 1 "09:00"
    = Some (spec_occurrence 0 1706608800000 1 9 0).
Proof.
  assert (H1 : 0 <= 1 <= 6) by lia.
  assert (H2 : valid_time "09:00" = true) by reflexivity.
  assert (H3 : Day (LocalTime 0 (1706608800000 + 5)) = Day (LocalTime 0 1706608800000))
    by reflexivity.
  repeat (split; [assumption|]).
  destruct (occurrence_same_day 0 1706608800000 5 1 "09:00" H1 H2 H3)
    as (h & m & Hp & _ & _ & Hc & Ho).
  assert (E : h = 9 ∧ m = 0).
  { change (parse_time "09:00") with (Some 9, Some 0) in Hp.
    split; congruence. }
  destruct E as [-> ->]. split; [exact Hc|exact Ho].
Defined.

(** C5. With [now] read in the last millisecond of Wednesday 31 January
    2024 and the date of the loop read one millisecond later, on 1 February,
    the scheduled time for Wednesday at 09:00 is Saturday 2 March 09:00: it
    is neither the candidate of the specification (31 January 09:00) moved
    by seven days, nor on the chosen week day. *)
Theorem occurrence_across_month_end :
  let now := 1706745599999 in
  let date0 := 1706745600000 in
  WeekDay now = 3
  ∧ spec_candidate 0 now 3 9 0 = 1706691600000
  ∧ spec_occurrence 0 now 3 9 0 = 1706691600000 + 7 * msPerDay
  ∧ candidate 0 now date0 3 "09:00" = Some 1709370000000
  ∧ occurrence 0 now date0 3 "09:00" = Some 1709370000000
  ∧ WeekDay 1709370000000 = 6
  ∧ occurrence 0 now date0 3 "09:00" ≠ Some (spec_occurrence 0 now 3 9 0).
Proof. vm_compute. repeat split; congruence. Qed.

End Expansion.

(** ** Effects of the server's computations *)

Module EffectFacts.
Import JsString Json Effects Server.
Local Open Scope eff_scope.

Section Combinators.
Context {A B : Type}.

Lemma keeps_db_ret (a : A) : keeps_db (eff_ret a).
Proof. intros w. reflexivity. Qed.

Lemma keeps_db_throw msg : keeps_db (throw (A := A) msg).
Proof. intros w. reflexivity. Qed.

Lemma keeps_db_lift (r : Result A) : keeps_db (lift r).
Proof. intros w. reflexivity. Qed.

Lemma keeps_db_read (f : DB → A) : keeps_db (read f).
Proof. intros w. reflexivity. Qed.

Lemma keeps_db_bind (m : M A) (k : A → M B) :
  keeps_db m → (∀ a, keeps_db (k a)) → keeps_db (eff_bind m k).
Proof.
  intros Hm Hk w. unfold eff_bind. specialize (Hm w).
  destruct (m w) as [[a | msg] w1]; cbn in *; [|assumption].
  rewrite Hk. assumption.
Qed.

Lemma keeps_db_try (m : M A) (h : string → M A) :
  keeps_db m → (∀ msg, keeps_db (h msg)) → keeps_db (try_catch m h).
Proof.
  intros Hm Hh w. unfold try_catch. specialize (Hm w).
  destruct (m w) as [[a | msg] w1]; cbn in *; [assumption|].
  rewrite Hh. assumption.
Qed.

Lemma keeps_db_attempt (m : M A) : keeps_db m → keeps_db (attempt m).
Proof.
  intros Hm w. unfold attempt. specialize (Hm w).
  destruct (m w) as [r w1]. assumption.
Qed.

Lemma appends_ret (a : A) : appends (eff_ret a).
Proof. intros w. exists []. cbn. by rewrite app_nil_r. Qed.

Lemma appends_throw msg : appends (throw (A := A) msg).
Proof. intros w. exists []. cbn. by rewrite app_nil_r. Qed.

Lemma appends_lift (r : Result A) : appends (lift r).
Proof. intros w. exists []. cbn. by rewrite app_nil_r. Qed.

Lemma appends_read (f : DB → A) : appends (read f).
Proof. intros w. exists []. cbn. by rewrite app_nil_r. Qed.

Lemma appends_bind (m : M A) (k : A → M B) :
  appends m → (∀ a, appends (k a)) → appends (eff_bind m k).
Proof.
  intros Hm Hk w. unfold eff_bind. destruct (Hm w) as [e1 H1].
  destruct (m w) as [[a | msg] w1]; cbn in *; [|eauto].
  destruct (Hk a w1) as [e2 H2]. exists (e1 ++ e2).
  rewrite H2, H1. by rewrite app_assoc.
Qed.

Lemma appends_try (m : M A) (h : string → M A) :
  appends m → (∀ msg, appends (h msg)) → appends (try_catch m h).
Proof.
  intros Hm Hh w. unfold try_catch. destruct (Hm w) as [e1 H1].
  destruct (m w) as [[a | msg] w1]; cbn in *; [eauto|].
  destruct (Hh msg w1) as [e2 H2]. exists (e1 ++ e2).
  rewrite H2, H1. by rewrite app_assoc.
Qed.

Lemma appends_attempt (m : M A) : appends m → appends (attempt m).
Proof.
  intros Hm w. unfold attempt. destruct (Hm w) as [e1 H1].
  destruct (m w) as [r w1]. eauto.
Qed.

Lemma total_ret (a : A) : total (eff_ret a).
Proof. intros w. by exists a. Qed.

Lemma total_try (m : M A) (h : string → M A) :
  (∀ msg, total (h msg)) → total (try_catch m h).
Proof.
  intros Hh w. unfold try_catch.
  destruct (m w) as [[a | msg] w1]; [by exists a|]. apply Hh.
Qed.
End Combinators.

Lemma keeps_db_log e : keeps_db (log e).
Proof. intros w. reflexivity. Qed.

Lemma appends_log e : appends (log e).
Proof. intros w. by exists [e]. Qed.

Lemma appends_modify_db (f : World → DB) :
  appends (modify (λ w, set_db (f w) w)).
Proof. intros w. exists []. cbn. by rewrite app_nil_r. Qed.

(** One step of a proof that a computation keeps the database, or only adds
    to the trace: the rule of the outermost construct. *)
Ltac eff_step :=
  first
    [ apply keeps_db_bind; [|intros ?]
    | apply keeps_db_try; [|intros ?]
    | apply keeps_db_attempt
    | apply keeps_db_ret | apply keeps_db_throw | apply keeps_db_lift
    | apply keeps_db_read | apply keeps_db_log
    | apply appends_bind; [|intros ?]
    | apply appends_try; [|intros ?]
    | apply appends_attempt
    | apply appends_ret | apply appends_throw | apply appends_lift
    | apply appends_read | apply appends_log | apply appends_modify_db
    | match goal with
      | |- keeps_db (match ?x with _ => _ end) => destruct x
      | |- appends (match ?x with _ => _ end) => destruct x
      end ].

Ltac eff_solve := repeat eff_step.

Lemma getStoredTokens_keeps_db : keeps_db getStoredTokens.
Proof. unfold getStoredTokens. eff_solve. Qed.

Lemma getStoredTokens_appends : appends getStoredTokens.
Proof. unfold getStoredTokens. eff_solve. Qed.

Lemma notification_keeps_db env st t d : keeps_db (sendDiscordNotification env st t d).
Proof. unfold sendDiscordNotification. eff_solve. Qed.

Lemma notification_appends env st t d : appends (sendDiscordNotification env st t d).
Proof. unfold sendDiscordNotification. eff_solve. Qed.

(** The notification never throws, whatever the webhook does. *)
Lemma notification_total env st t d : total (sendDiscordNotification env st t d).
Proof.
  unfold sendDiscordNotification.
  destruct (truthy (webhook_url env)); [|apply total_ret].
  apply total_try. intros msg. apply total_ret.
Qed.

Lemma thumbnail_step_keeps_db env vid th : keeps_db (thumbnail_step env vid th).
Proof. unfold thumbnail_step. eff_solve. Qed.

Lemma thumbnail_step_appends env vid th : appends (thumbnail_step env vid th).
Proof. unfold thumbnail_step. eff_solve. Qed.

Lemma thumbnail_step_total env vid th : total (thumbnail_step env vid th).
Proof.
  unfold thumbnail_step. destruct (truthy th); [|apply total_ret].
  apply total_try. intros msg. apply total_ret.
Qed.

Lemma comment_step_keeps_db env vid c : keeps_db (comment_step env vid c).
Proof. unfold comment_step. eff_solve. Qed.

Lemma comment_step_appends env vid c : appends (comment_step env vid c).
Proof. unfold comment_step. eff_solve. Qed.

Lemma comment_step_total env vid c : total (comment_step env vid c).
Proof.
  unfold comment_step. destruct (truthy c); [|apply total_ret].
  apply total_try. intros msg. apply total_ret.
Qed.

Lemma comment_step_v1_keeps_db env vid c : keeps_db (ServerV1.comment_step env vid c).
Proof. unfold ServerV1.comment_step. eff_solve. Qed.

Lemma comment_step_v1_total env vid c : total (ServerV1.comment_step env vid c).
Proof.
  unfold ServerV1.comment_step. destruct (truthy c); [|apply total_ret].
  apply total_try. intros msg. apply total_ret.
Qed.

(** The pipeline does not write to the database. *)
Lemma processUpload_keeps_db env fid t d th c tg ht :
  keeps_db (processUpload env fid t d th c tg ht).
Proof.
  unfold processUpload. eff_solve;
    auto using getStoredTokens_keeps_db, thumbnail_step_keeps_db,
      comment_step_keeps_db.
Qed.

Lemma processUpload_v1_keeps_db env fid t d th c :
  keeps_db (ServerV1.processUpload env fid t d th c).
Proof.
  unfold ServerV1.processUpload. eff_solve;
    auto using getStoredTokens_keeps_db, thumbnail_step_keeps_db,
      comment_step_v1_keeps_db.
Qed.

End EffectFacts.

(** ** The job table *)

Module StoreFacts.
Import JsString Json Effects Server System EffectFacts.
Local Open Scope eff_scope.

Lemma has_status_true st v : has_status st v = true ↔ status v = st.
Proof. unfold has_status. apply String.eqb_eq. Qed.

Lemma has_status_false st v : has_status st v = false ↔ status v ≠ st.
Proof. unfold has_status. apply String.eqb_neq. Qed.

Lemma elem_of_select cond (vs : gmap Z Video) k v :
  (k, v) ∈ select cond vs ↔ vs !! k = Some v ∧ cond v = true.
Proof.
  unfold select. rewrite list_elem_of_filter, elem_of_map_to_list. cbn. tauto.
Qed.

Lemma NoDup_select cond (vs : gmap Z Video) : NoDup (select cond vs).
Proof. unfold select. apply NoDup_filter, NoDup_map_to_list. Qed.

Lemma select_nil cond (vs : gmap Z Video) :
  select cond vs = [] ↔ ∀ k v, vs !! k = Some v → cond v = false.
Proof.
  split.
  - intros E k v Hk. destruct (cond v) eqn:Ec; [|reflexivity].
    assert (H : (k, v) ∈ select cond vs) by (apply elem_of_select; auto).
    rewrite E in H. by apply elem_of_nil in H.
  - intros H. apply elem_of_nil_inv. intros [k v] Hin.
    apply elem_of_select in Hin as [Hk Hc]. rewrite (H k v Hk) in Hc.
    discriminate.
Qed.

Lemma find_uploading_None d : find_uploading d = None ↔ ¬ some_uploading d.
Proof.
  unfold find_uploading. rewrite head_None, select_nil. split.
  - intros H (k & v & Hk & Hs). specialize (H k v Hk).
    apply has_status_false in H. contradiction.
  - intros H k v Hk. apply has_status_false. intros Hs. apply H. by exists k, v.
Qed.

Lemma find_uploading_Some d k v :
  find_uploading d = Some (k, v) →
  videos d !! k = Some v ∧ status v = "Uploading"%string.
Proof.
  unfold find_uploading. intros H. apply head_Some_elem_of in H.
  apply elem_of_select in H as [Hk Hs]. split; [assumption|].
  by apply has_status_true.
Qed.

Lemma find_uploading_is_Some d :
  some_uploading d → ∃ kv, find_uploading d = Some kv.
Proof.
  intros H. destruct (find_uploading d) as [kv|] eqn:E; [eauto|].
  apply find_uploading_None in E. contradiction.
Qed.

Lemma earliest_None l : earliest l = None ↔ l = [].
Proof.
  destruct l as [|kv r]; [done|]. split; [|done]. cbn.
  destruct (earliest r) as [kv'|]; [|done]. by case_match.
Qed.

Lemma earliest_Some l kv :
  earliest l = Some kv →
  kv ∈ l ∧ ∀ kv', kv' ∈ l → (scheduledTime kv.2 ≤ scheduledTime kv'.2)%Z.
Proof.
  revert kv. induction l as [|x r IH]; intros kv; [done|]. cbn.
  destruct (earliest r) as [y|] eqn:Er.
  - destruct (IH y eq_refl) as [Hy Hmin]. clear IH.
    destruct (Z.leb_spec (scheduledTime x.2) (scheduledTime y.2)) as [Hle | Hgt];
      intros E; injection E as <-; (split; [set_solver|]); intros kv' Hin;
      apply elem_of_cons in Hin as [-> | Hin]; try lia;
      specialize (Hmin kv' Hin); lia.
  - apply earliest_None in Er. subst r. clear IH. intros E. injection E as <-.
    split; [set_solver|]. intros kv' Hin.
    apply elem_of_cons in Hin as [-> | Hin]; [lia|]. by apply elem_of_nil in Hin.
Qed.

Lemma is_due_true now v :
  is_due now v = true ↔ status v = "Pending"%string ∧ (scheduledTime v ≤ now)%Z.
Proof.
  unfold is_due. rewrite andb_true_iff, has_status_true, Z.leb_le. tauto.
Qed.

(** What the query of the next job returns: a pending row that is due,
    and no pending row that is due has an earlier scheduled time. *)
Lemma find_next_due_Some now d k v :
  find_next_due now d = Some (k, v) →
  videos d !! k = Some v
  ∧ status v = "Pending"%string
  ∧ (scheduledTime v ≤ now)%Z
  ∧ ∀ k' v', videos d !! k' = Some v' → status v' = "Pending"%string →
             (scheduledTime v' ≤ now)%Z →
             (scheduledTime v ≤ scheduledTime v')%Z.
Proof.
  unfold find_next_due. intros H. apply earliest_Some in H as [Hin Hmin].
  apply elem_of_select in Hin as [Hk Hd]. apply is_due_true in Hd as [Hs Ht].
  repeat split; try assumption.
  intros k' v' Hk' Hs' Ht'.
  apply (Hmin (k', v')), elem_of_select. split; [assumption|].
  by apply is_due_true.
Qed.

(** It returns nothing exactly when no pending row is due. *)
Lemma find_next_due_None now d :
  find_next_due now d = None ↔
  ∀ k v, videos d !! k = Some v →
         ¬ (status v = "Pending"%string ∧ (scheduledTime v ≤ now)%Z).
Proof.
  unfold find_next_due. rewrite earliest_None, select_nil. split.
  - intros H k v Hk Hd. apply is_due_true in Hd. rewrite (H k v Hk) in Hd.
    discriminate.
  - intros H k v Hk. destruct (is_due now v) eqn:E; [|done].
    apply is_due_true in E. by destruct (H k v Hk).
Qed.

Lemma count_le_1 d : (count_status "Uploading" d ≤ 1)%nat ↔ single_flight d.
Proof.
  unfold count_status, single_flight. split.
  - intros Hlen i j x y Hi Hj Hx Hy.
    assert (Hin1 : (i, x) ∈ select (has_status "Uploading") (videos d))
      by (apply elem_of_select; split; [done|by apply has_status_true]).
    assert (Hin2 : (j, y) ∈ select (has_status "Uploading") (videos d))
      by (apply elem_of_select; split; [done|by apply has_status_true]).
    destruct (select (has_status "Uploading") (videos d)) as [|a [|b r]];
      [by apply elem_of_nil in Hin1| |cbn in Hlen; lia].
    apply list_elem_of_singleton in Hin1, Hin2. congruence.
  - intros H.
    pose proof (NoDup_select (has_status "Uploading") (videos d)) as Hnd.
    destruct (select (has_status "Uploading") (videos d))
      as [|[i x] [|[j y] r]] eqn:E; [cbn; lia|cbn; lia|].
    exfalso.
    assert (Hin1 : (i, x) ∈ select (has_status "Uploading") (videos d))
      by (rewrite E; set_solver).
    assert (Hin2 : (j, y) ∈ select (has_status "Uploading") (videos d))
      by (rewrite E; set_solver).
    apply elem_of_select in Hin1 as [Hi Hx], Hin2 as [Hj Hy].
    apply has_status_true in Hx, Hy.
    assert (i = j) by eauto. subst j.
    assert (x = y) by congruence. subst y.
    apply NoDup_cons in Hnd as [Hnot _]. apply Hnot. set_solver.
Qed.

Lemma count_0 st d :
  count_status st d = 0%nat ↔ ∀ k v, videos d !! k = Some v → status v ≠ st.
Proof.
  unfold count_status. rewrite length_zero_iff_nil, select_nil.
  split; intros H k v Hk; apply has_status_false; eauto.
Qed.

Lemma no_new_uploading_refl d : no_new_uploading d d.
Proof. intros k x Hk Hs. by exists x. Qed.

Lemma no_new_uploading_trans d1 d2 d3 :
  no_new_uploading d1 d2 → no_new_uploading d2 d3 → no_new_uploading d1 d3.
Proof.
  intros H12 H23 k x Hk Hs. destruct (H23 k x Hk Hs) as (x0 & Hk0 & Hs0).
  exact (H12 k x0 Hk0 Hs0).
Qed.

Lemma single_flight_no_new d d' :
  single_flight d → no_new_uploading d d' → single_flight d'.
Proof.
  intros H Hn i j x y Hi Hj Hx Hy.
  destruct (Hn i x Hi Hx) as (x0 & Hi0 & Hx0).
  destruct (Hn j y Hj Hy) as (y0 & Hj0 & Hy0).
  exact (H i j x0 y0 Hi0 Hj0 Hx0 Hy0).
Qed.

Lemma none_uploading_no_new d d' :
  ¬ some_uploading d → no_new_uploading d d' → ¬ some_uploading d'.
Proof.
  intros H Hn (k & v & Hk & Hs). destruct (Hn k v Hk Hs) as (x0 & Hk0 & Hs0).
  apply H. by exists k, x0.
Qed.

Lemma reset_row_status v : status (reset_row v) ≠ "Uploading"%string.
Proof.
  unfold reset_row. destruct (has_status "Uploading" v) eqn:E; [done|].
  by apply has_status_false.
Qed.

(** After the reset no job is uploading. *)
Lemma reset_stuck_none d : ¬ some_uploading (reset_stuck d).
Proof.
  intros (k & v & Hk & Hs). cbn in Hk. rewrite lookup_fmap in Hk.
  destruct (videos d !! k) as [x|]; [|done]. injection Hk as <-.
  by apply reset_row_status in Hs.
Qed.

Lemma no_new_reset d : no_new_uploading d (reset_stuck d).
Proof.
  intros k x Hk Hs. exfalso. apply (reset_stuck_none d). by exists k, x.
Qed.

Lemma no_new_alter d f id :
  (∀ v, status (f v) = "Uploading"%string → status v = "Uploading"%string) →
  no_new_uploading d (set_videos (alter f id (videos d)) d).
Proof.
  intros Hf k x Hk Hs. cbn in Hk. rewrite lookup_alter in Hk.
  case_decide; [|by exists x]. subst k.
  destruct (videos d !! id) as [v|]; [|done]. injection Hk as <-.
  exists v. split; [reflexivity|]. by apply Hf.
Qed.

Lemma no_new_insert d v :
  status v ≠ "Uploading"%string → no_new_uploading d (insert_video v d).2.
Proof.
  intros Hv k x Hk Hs. cbn in Hk. rewrite lookup_insert in Hk.
  case_decide; [|by exists x]. injection Hk as <-. contradiction.
Qed.

(** What [save] writes to a row. *)
Lemma write_changed_content before after row :
  same_content (write_changed before after row) row.
Proof. repeat split. Qed.

Lemma write_changed_status before after row :
  status (write_changed before after row)
  = if String.eqb (status after) (status before) then status row else status after.
Proof. reflexivity. Qed.

(** On the row the instance was loaded from, [save] leaves the row as the
    instance is. *)
Lemma write_changed_loaded before after :
  same_content after before → write_changed before after before = after.
Proof.
  intros (H1 & H2 & H3 & H4 & H5 & H6 & H7 & H8).
  destruct before, after. cbn in *. subst. unfold write_changed. cbn.
  f_equal.
  - destruct (String.eqb_spec status1 status0); congruence.
  - case_bool_decide; congruence.
  - case_bool_decide; congruence.
Qed.

Lemma write_changed_none before after row :
  changed before after = false → write_changed before after row = row.
Proof.
  unfold changed. rewrite !orb_false_iff, !negb_false_iff.
  intros [[H1 H2] H3]. destruct row. unfold write_changed. cbn.
  by rewrite H1, H2, H3.
Qed.

Lemma set_videos_same d : set_videos (videos d) d = d.
Proof. by destruct d. Qed.

(** A run of [save]. *)
Lemma save_run id before after w :
  save id before after w
  = (Ok tt,
     {| db := set_videos (alter (write_changed before after) id (videos (db w))) (db w);
        trace := trace w ++ if changed before after
                            then [EvStored id (status after)] else [] |}).
Proof.
  unfold save. destruct (changed before after) eqn:E; [reflexivity|].
  unfold eff_ret. f_equal. destruct w as [d tr]. cbn. rewrite app_nil_r.
  f_equal. rewrite alter_id; [by rewrite set_videos_same|].
  intros x _. by apply write_changed_none.
Qed.

Lemma no_new_insert_all vs d :
  Forall (λ v, status v ≠ "Uploading"%string) vs →
  no_new_uploading d (insert_all vs d).2.
Proof.
  revert d. induction vs as [|v r IH]; intros d H; [apply no_new_uploading_refl|].
  apply Forall_cons in H as [Hv Hr]. cbn [insert_all].
  pose proof (no_new_insert d v Hv) as H1.
  destruct (insert_video v d) as [id d1].
  specialize (IH d1 Hr). destruct (insert_all r d1) as [rows d2].
  exact (no_new_uploading_trans _ _ _ H1 IH).
Qed.

Lemma no_new_destroy d id : no_new_uploading d (destroy_pending id d).
Proof.
  unfold destroy_pending. destruct (videos d !! id) as [v|] eqn:E;
    [|apply no_new_uploading_refl].
  destruct (has_status "Pending" v); [|apply no_new_uploading_refl].
  intros k x Hk Hs. cbn in Hk. rewrite lookup_delete in Hk.
  case_decide; [done|by exists x].
Qed.

End StoreFacts.

(** ** The scheduling loop, the recovery and the routes on jobs *)

Module SchedulerFacts.
Import JsString Json Effects Server System EffectFacts StoreFacts.
Local Open Scope eff_scope.

Lemma tick_select_busy now w :
  some_uploading (db w) → tick_select now w = (Ok None, w).
Proof.
  intros H. apply find_uploading_is_Some in H as [kv E].
  unfold tick_select, eff_bind, read. by rewrite E.
Qed.

Lemma tick_select_idle now w :
  ¬ some_uploading (db w) → find_next_due now (db w) = None →
  tick_select now w = (Ok None, w).
Proof.
  intros H E. apply find_uploading_None in H.
  unfold tick_select, eff_bind, read. by rewrite H, E.
Qed.

Lemma tick_select_pick now w id v :
  ¬ some_uploading (db w) → find_next_due now (db w) = Some (id, v) →
  tick_select now w = (Ok (Some (id, with_status "Uploading" v)), marked id w).
Proof.
  intros H E. destruct (find_next_due_Some _ _ _ _ E) as (Hk & Hs & _).
  apply find_uploading_None in H.
  unfold tick_select, eff_bind, read. rewrite H, E, save_run.
  unfold eff_ret, marked. do 3 f_equal.
  - apply alter_ext. intros x Hx. rewrite Hk in Hx. injection Hx as <-.
    apply write_changed_loaded. repeat split.
  - unfold changed. cbn. by rewrite Hs.
Qed.

(** A run of the notification: it returns, keeps the database and only
    adds to the trace. *)
Lemma notification_run env st t d w :
  ∃ evs, sendDiscordNotification env st t d w
         = (Ok tt, {| db := db w; trace := trace w ++ evs |}).
Proof.
  destruct (notification_total env st t d w) as [[] Ha].
  pose proof (notification_keeps_db env st t d w) as Hd.
  destruct (notification_appends env st t d w) as [evs He].
  exists evs. destruct (sendDiscordNotification env st t d w) as [r [d' tr']].
  cbn in *. by subst.
Qed.

(** The second part of a tick reaches its last [save]: it stores the
    outcome of the pipeline in the row of the job, whatever the
    notification does. *)
Lemma tick_upload_run env id job w :
  let pr := upload_of env job w in
  let final := settled pr.1 job in
  ∃ evs,
    tick_upload env id job w
    = (Ok tt,
       {| db := set_videos (alter (write_changed job final) id (videos (db w))) (db w);
          trace := trace pr.2 ++ evs ++ if changed job final
                                        then [EvStored id (status final)] else [] |}).
Proof.
  intros pr final. subst pr final. unfold tick_upload, upload_of.
  pose proof (processUpload_keeps_db env (driveFileId job) (title job)
                (description job) (thumbnail job) (firstComment job)
                (tags job) (hashtags job) w) as Hdb.
  unfold eff_bind at 1. unfold attempt at 1.
  destruct (processUpload env (driveFileId job) (title job) (description job)
              (thumbnail job) (firstComment job) (tags job) (hashtags job) w)
    as [[ytId | msg] w1]; cbn [fst snd settled] in *.
  - unfold eff_bind at 1. unfold eff_bind at 1. unfold attempt.
    destruct (notification_run env "Success"
                (title (with_outcome "Done" (Some ytId) None job))
                ("Live at: https://youtu.be/" ++ ytId) w1) as [evs E].
    rewrite E. exists evs. cbv beta iota delta [eff_ret eff_bind]. rewrite save_run.
    cbn [db trace]. rewrite Hdb, <- app_assoc. reflexivity.
  - unfold eff_bind at 1. unfold on_upload_error, eff_bind at 1.
    destruct (notification_run env "Failed"
                (title (with_outcome "Failed" (youtubeId job) (Some msg) job))
                msg w1) as [evs E].
    rewrite E. exists evs. cbv beta iota delta [eff_ret eff_bind]. rewrite save_run.
    cbn [db trace]. rewrite Hdb, <- app_assoc. reflexivity.
Qed.

Lemma settled_status r job :
  status (settled r job) = "Done"%string ∨ status (settled r job) = "Failed"%string.
Proof. destruct r; cbn; auto. Qed.

Lemma tick_upload_db env id job w :
  let final := settled (upload_of env job w).1 job in
  db (tick_upload env id job w).2
  = set_videos (alter (write_changed job final) id (videos (db w))) (db w).
Proof.
  cbv zeta. destruct (tick_upload_run env id job w) as [evs E].
  cbv zeta in E. by rewrite E.
Qed.

(** The tick in terms of its two parts. *)
Lemma tick_unfold env now w :
  (tick env now w).2
  = match tick_select now w with
    | (Ok (Some (id, job)), w1) => (tick_upload env id job w1).2
    | (_, w1) => w1
    end.
Proof.
  unfold tick, try_catch, eff_bind.
  destruct (tick_select now w) as [[[[id job]|]|msg] w1]; cbn; try reflexivity.
  destruct (tick_upload_run env id job w1) as [evs E]. cbv zeta in E.
  by rewrite E.
Qed.

Lemma initDB_db env w :
  db (initDB env w).2
  = match authenticate env, sync env with
    | Ok _, Ok _ => reset_stuck (db w)
    | _, _ => db w
    end.
Proof.
  unfold initDB, try_catch, eff_bind, lift.
  destruct (authenticate env), (sync env); reflexivity.
Qed.

Lemma row_of_bulk_status f v :
  row_of_bulk f = Some v → asks_uploading f = false →
  status v ≠ "Uploading"%string.
Proof.
  unfold row_of_bulk, asks_uploading.
  destruct (jf_driveFileId f), (jf_scheduledTime f); try discriminate.
  intros [= <-]. cbn. destruct (jf_status f) as [st|]; [|discriminate].
  intros H. by apply String.eqb_neq.
Qed.

Lemma rows_of_bulk_status l vs :
  rows_of_bulk l = Some vs →
  forallb (λ f, negb (asks_uploading f)) l = true →
  Forall (λ v, status v ≠ "Uploading"%string) vs.
Proof.
  revert vs. induction l as [|f r IH]; intros vs; cbn.
  - intros [= <-] _. constructor.
  - destruct (row_of_bulk f) as [v|] eqn:Ef; [|discriminate].
    destruct (rows_of_bulk r) as [vr|]; [|discriminate].
    intros [= <-] H. apply andb_prop in H as [Hf Hr].
    constructor; [|by apply IH].
    eapply row_of_bulk_status; [eassumption|]. by apply negb_true_iff.
Qed.

Lemma post_schedule_db f w :
  db (post_schedule f w).2
  = match row_of_create f with
    | Some v => (insert_video v (db w)).2
    | None => db w
    end.
Proof.
  unfold post_schedule, handler, try_catch, eff_bind.
  destruct (row_of_create f) as [v|]; reflexivity.
Qed.

Lemma post_schedule_bulk_db l w :
  db (post_schedule_bulk l w).2
  = match l with
    | Some entries =>
        match rows_of_bulk entries with
        | Some vs => (insert_all vs (db w)).2
        | None => db w
        end
    | None => db w
    end.
Proof.
  unfold post_schedule_bulk, handler, try_catch, eff_bind.
  destruct l as [entries|]; [|reflexivity].
  destruct (rows_of_bulk entries) as [vs|]; [|reflexivity].
  cbn. destruct (insert_all vs (db w)). reflexivity.
Qed.

Lemma delete_schedule_db id w :
  db (delete_schedule id w).2
  = match id with
    | Some k => destroy_pending k (db w)
    | None => db w
    end.
Proof. destruct id; reflexivity. Qed.

Lemma row_of_create_status f v : row_of_create f = Some v → status v = "Pending"%string.
Proof.
  unfold row_of_create.
  destruct (jf_driveFileId f), (jf_scheduledTime f); try discriminate.
  by intros [= <-].
Qed.

Lemma single_flight_marked id w :
  ¬ some_uploading (db w) → single_flight (db (marked id w)).
Proof.
  intros H i j x y Hi Hj Hx Hy. cbn in Hi, Hj.
  rewrite lookup_alter in Hi, Hj.
  destruct (decide (id = i)) as [<-|Ni], (decide (id = j)) as [<-|Nj];
    try reflexivity; exfalso; apply H.
  - by exists j, y.
  - by exists i, x.
  - by exists i, x.
Qed.

Lemma single_flight_tick_select now w :
  single_flight (db w) → single_flight (db (tick_select now w).2).
Proof.
  intros H.
  destruct (find_uploading (db w)) as [kv|] eqn:Eu.
  - rewrite tick_select_busy; [done|]. destruct kv as [k v].
    apply find_uploading_Some in Eu. by exists k, v.
  - apply find_uploading_None in Eu.
    destruct (find_next_due now (db w)) as [[id v]|] eqn:En.
    + rewrite (tick_select_pick now w id v Eu En). by apply single_flight_marked.
    + by rewrite tick_select_idle.
Qed.

(** The last [save] of a tick puts no row in the status [Uploading]. *)
Lemma no_new_tick_upload env id job w :
  no_new_uploading (db w)
    (set_videos (alter (write_changed job (settled (upload_of env job w).1 job)) id
                       (videos (db w))) (db w)).
Proof.
  apply no_new_alter. intros v. rewrite write_changed_status.
  destruct (String.eqb _ _); [done|].
  destruct (settled_status (upload_of env job w).1 job) as [-> | ->]; discriminate.
Qed.

Lemma single_flight_tick_upload env id job w :
  single_flight (db w) → single_flight (db (tick_upload env id job w).2).
Proof.
  intros H. rewrite tick_upload_db. eapply single_flight_no_new; [exact H|].
  apply no_new_tick_upload.
Qed.

(** Every operation keeps the store in single flight, a bulk request
    provided none of its entries asks for the status [Uploading]. *)
Lemma single_flight_step w op :
  plain_bulk op = true → single_flight (db w) → single_flight (db (step w op)).
Proof.
  intros Hp H. destruct op as [env| |now|env id job|env now|f|l|id]; cbn [step].
  - rewrite initDB_db. destruct (authenticate env), (sync env); try assumption.
    eapply single_flight_no_new; [exact H|apply no_new_reset].
  - eapply single_flight_no_new; [exact H|apply no_new_reset].
  - by apply single_flight_tick_select.
  - by apply single_flight_tick_upload.
  - rewrite tick_unfold.
    pose proof (single_flight_tick_select now w H) as Hs.
    destruct (tick_select now w) as [[[[id job]|]|msg] w1]; cbn in *; try assumption.
    by apply single_flight_tick_upload.
  - rewrite post_schedule_db. destruct (row_of_create f) as [v|] eqn:E; [|done].
    eapply single_flight_no_new; [exact H|]. apply no_new_insert.
    rewrite (row_of_create_status f v E). discriminate.
  - rewrite post_schedule_bulk_db. destruct l as [entries|]; [|done].
    destruct (rows_of_bulk entries) as [vs|] eqn:E; [|done].
    eapply single_flight_no_new; [exact H|]. apply no_new_insert_all.
    eapply rows_of_bulk_status; eassumption.
  - rewrite delete_schedule_db. destruct id as [k|]; [|done].
    eapply single_flight_no_new; [exact H|apply no_new_destroy].
Qed.

Lemma settled_content r job : same_content (settled r job) job.
Proof. destruct r; repeat split. Qed.

(** The row of the job after the second part of a tick, when the row was
    as the instance of the tick had it. *)
Lemma tick_upload_row env id job w :
  videos (db w) !! id = Some job →
  videos (db (tick_upload env id job w).2) !! id
  = Some (settled (upload_of env job w).1 job).
Proof.
  intros Hid. rewrite tick_upload_db. cbn [videos set_videos].
  rewrite lookup_alter_eq, Hid. cbn. f_equal.
  apply write_changed_loaded, settled_content.
Qed.

Lemma tick_upload_others env id job w k :
  k ≠ id →
  videos (db (tick_upload env id job w).2) !! k = videos (db w) !! k.
Proof.
  intros Hk. rewrite tick_upload_db. cbn [videos set_videos].
  by rewrite lookup_alter_ne.
Qed.


End SchedulerFacts.

(** ** The process from its start *)

Module ProcessFacts.
Import JsString Json Effects Server System EffectFacts StoreFacts SchedulerFacts.
Local Open Scope eff_scope.

Lemma resets_app tr1 tr2 : resets (tr1 ++ tr2) = (resets tr1 + resets tr2)%nat.
Proof. unfold resets. by rewrite filter_app, length_app. Qed.

Section Quiet.
Context {A B : Type}.

Lemma quiet_ret (a : A) : quiet (eff_ret a).
Proof. intros w. reflexivity. Qed.

Lemma quiet_throw msg : quiet (throw (A := A) msg).
Proof. intros w. reflexivity. Qed.

Lemma quiet_lift (r : Result A) : quiet (lift r).
Proof. intros w. reflexivity. Qed.

Lemma quiet_read (f : DB → A) : quiet (read f).
Proof. intros w. reflexivity. Qed.

Lemma quiet_bind (m : M A) (k : A → M B) :
  quiet m → (∀ a, quiet (k a)) → quiet (eff_bind m k).
Proof.
  intros Hm Hk w. unfold eff_bind. specialize (Hm w).
  destruct (m w) as [[a | msg] w1]; cbn in *; [|assumption].
  rewrite Hk. assumption.
Qed.

Lemma quiet_try (m : M A) (h : string → M A) :
  quiet m → (∀ msg, quiet (h msg)) → quiet (try_catch m h).
Proof.
  intros Hm Hh w. unfold try_catch. specialize (Hm w).
  destruct (m w) as [[a | msg] w1]; cbn in *; [assumption|].
  rewrite Hh. assumption.
Qed.

Lemma quiet_attempt (m : M A) : quiet m → quiet (attempt m).
Proof.
  intros Hm w. unfold attempt. specialize (Hm w).
  destruct (m w) as [r w1]. assumption.
Qed.
End Quiet.

Lemma quiet_get : quiet (get (W := World)).
Proof. intros w. reflexivity. Qed.

Lemma quiet_log e : is_reset e = false → quiet (log e).
Proof.
  intros He w. unfold log, modify. cbn [snd trace]. rewrite resets_app.
  unfold resets at 2. rewrite filter_cons, filter_nil.
  rewrite decide_False by (rewrite He; discriminate). cbn. lia.
Qed.

Lemma quiet_modify_db (f : World → DB) : quiet (modify (λ w, set_db (f w) w)).
Proof. intros w. reflexivity. Qed.

Lemma quiet_set_db d : quiet (modify (set_db d)).
Proof. intros w. reflexivity. Qed.

(** One step of a proof that a computation makes no reset. *)
Ltac quiet_step :=
  first
    [ apply quiet_bind; [|intros ?]
    | apply quiet_try; [|intros ?]
    | apply quiet_attempt
    | apply quiet_ret | apply quiet_throw | apply quiet_lift
    | apply quiet_read | apply quiet_get
    | apply quiet_log; reflexivity
    | apply quiet_modify_db | apply quiet_set_db
    | match goal with
      | |- quiet (match ?x with _ => _ end) => destruct x
      | |- quiet (let '(_, _) := ?x in _) => destruct x
      end ].

Ltac quiet_solve := repeat quiet_step.

Lemma quiet_save id before after : quiet (save id before after).
Proof. unfold save. quiet_solve. Qed.

Lemma quiet_notification env st t d : quiet (sendDiscordNotification env st t d).
Proof. unfold sendDiscordNotification. quiet_solve. Qed.

Lemma quiet_thumbnail_step env vid th : quiet (thumbnail_step env vid th).
Proof. unfold thumbnail_step. quiet_solve. Qed.

Lemma quiet_comment_step env vid c : quiet (comment_step env vid c).
Proof. unfold comment_step. quiet_solve. Qed.

Lemma quiet_processUpload env fid t d th c tg ht :
  quiet (processUpload env fid t d th c tg ht).
Proof.
  unfold processUpload, getStoredTokens. quiet_solve;
    auto using quiet_thumbnail_step, quiet_comment_step.
Qed.

Lemma quiet_tick_select now : quiet (tick_select now).
Proof. unfold tick_select. quiet_solve. apply quiet_save. Qed.

Lemma quiet_tick_upload env id job : quiet (tick_upload env id job).
Proof.
  unfold tick_upload, on_upload_error. quiet_solve;
    auto using quiet_processUpload, quiet_notification, quiet_save,
      quiet_thumbnail_step, quiet_comment_step.
Qed.

Lemma quiet_post_schedule f : quiet (post_schedule f).
Proof. unfold post_schedule, handler. quiet_solve. Qed.

Lemma quiet_post_schedule_bulk l : quiet (post_schedule_bulk l).
Proof. unfold post_schedule_bulk, handler. quiet_solve. Qed.

Lemma quiet_delete_schedule id : quiet (delete_schedule id).
Proof. unfold delete_schedule, handler. quiet_solve. Qed.

Lemma update_stuck_trace w :
  trace (update_stuck w).2
  = trace w ++ [EvResetStuck (length (select (has_status "Uploading") (videos (db w))))].
Proof. reflexivity. Qed.

Lemma resets_reset n : resets [EvResetStuck n] = 1%nat.
Proof. reflexivity. Qed.

Lemma process_snoc env turns t w :
  process env (turns ++ [t]) w = turn env (process env turns w) t.
Proof. unfold process. by rewrite foldl_app. Qed.

Lemma resets_at_same env n0 p p' :
  stage p' = stage p →
  resets (trace (proc_world p')) = resets (trace (proc_world p)) →
  resets_at env n0 p → resets_at env n0 p'.
Proof. unfold resets_at. intros -> ->. done. Qed.

Lemma resets_at_turn env n0 p t :
  resets_at env n0 p → resets_at env n0 (turn env p t).
Proof.
  intros H. destruct t as [|now|tenv i|f|l|id]; cbn [turn].
  - unfold init_turn, resets_at in *.
    destruct (stage p) eqn:Es; cbn [stage proc_world].
    + unfold started. destruct (authenticate env) as [u|msg]; [by eauto|done].
    + destruct H as [[u Hu] H]. unfold started. rewrite Hu.
      destruct (sync env) as [u'|msg]; [by split|done].
    + destruct H as [-> H]. rewrite update_stuck_trace, resets_app, H.
      rewrite resets_reset. lia.
    + by rewrite Es.
  - eapply resets_at_same; [| |exact H]; [reflexivity|]. apply quiet_tick_select.
  - destruct (inflight p !! i) as [[id job]|]; [|exact H].
    eapply resets_at_same; [| |exact H]; [reflexivity|]. apply quiet_tick_upload.
  - eapply resets_at_same; [| |exact H]; [reflexivity|]. apply quiet_post_schedule.
  - eapply resets_at_same; [| |exact H]; [reflexivity|].
    apply quiet_post_schedule_bulk.
  - eapply resets_at_same; [| |exact H]; [reflexivity|].
    apply quiet_delete_schedule.
Qed.

Lemma process_resets_at env turns w :
  resets_at env (resets (trace w)) (process env turns w).
Proof.
  induction turns as [|t r IH] using rev_ind; [reflexivity|].
  rewrite process_snoc. by apply resets_at_turn.
Qed.

Lemma process_resets env turns w :
  resets (trace (proc_world (process env turns w)))
  = match stage (process env turns w) with
    | InitDone => if started env then S (resets (trace w)) else resets (trace w)
    | _ => resets (trace w)
    end.
Proof.
  pose proof (process_resets_at env turns w) as H. unfold resets_at in H.
  destruct (stage (process env turns w)); tauto.
Qed.

Lemma turn_stage env p t :
  (stage_index (stage (turn env p t))
   ≥ Nat.min 3 (stage_index (stage p) + if is_init t then 1 else 0))%nat.
Proof.
  destruct t as [|now|tenv i|f|l|id]; cbn [turn is_init stage];
    try (rewrite Nat.add_0_r; destruct (stage p); cbn; lia).
  - unfold init_turn. destruct (stage p) eqn:Es; cbn [stage].
    + destruct (authenticate env); cbn; lia.
    + destruct (sync env); cbn; lia.
    + cbn. lia.
    + rewrite Es. cbn. lia.
  - rewrite Nat.add_0_r. destruct (inflight p !! i) as [[id job]|]; cbn [stage];
      destruct (stage p); cbn; lia.
Qed.

Lemma process_stage env turns w :
  (stage_index (stage (process env turns w)) ≥ Nat.min 3 (init_turns turns))%nat.
Proof.
  induction turns as [|t r IH] using rev_ind; [cbn; lia|].
  rewrite process_snoc. pose proof (turn_stage env (process env r w) t) as H.
  unfold init_turns in *. rewrite filter_app, length_app.
  rewrite filter_cons, filter_nil. destruct (is_init t) eqn:Et.
  - rewrite decide_True by done. cbn [length]. lia.
  - rewrite decide_False by done. cbn [length]. lia.
Qed.

Lemma process_init_ends env turns w :
  (3 ≤ init_turns turns)%nat → stage (process env turns w) = InitDone.
Proof.
  intros H. pose proof (process_stage env turns w) as Hs.
  rewrite Nat.min_l in Hs by exact H.
  destruct (stage (process env turns w)); cbn [stage_index] in Hs; try lia.
  reflexivity.
Qed.

(** The three parts of [initDB], one after the other, are [initDB]. *)
Lemma init_turns_initDB env w :
  process env [TurnInit; TurnInit; TurnInit] w
  = {| stage := InitDone; inflight := []; proc_world := (initDB env w).2 |}.
Proof.
  unfold process, initDB, try_catch, eff_bind, lift. cbn [foldl turn].
  unfold init_turn, boot. cbn [stage inflight proc_world].
  destruct (authenticate env) as [u|msg]; cbn [stage inflight proc_world];
    [|reflexivity].
  destruct (sync env) as [u'|msg]; cbn [stage inflight proc_world]; reflexivity.
Qed.

(** Ticks that find a job uploading change nothing. *)
Lemma ticks_blocked env (ticks : list Z) p :
  some_uploading (db (proc_world p)) →
  foldl (turn env) p (map TurnTickStart ticks) = p.
Proof.
  intros H. induction ticks as [|now r IH]; [reflexivity|].
  cbn [map foldl turn]. rewrite tick_select_busy by exact H.
  cbn [fst snd]. destruct p as [st fl w]. exact IH.
Qed.

Lemma covered_no_new d d' (keys : list Z) :
  no_new_uploading d d' →
  (∀ k v, videos d !! k = Some v → status v = "Uploading"%string → k ∈ keys) →
  ∀ k v, videos d' !! k = Some v → status v = "Uploading"%string → k ∈ keys.
Proof.
  intros Hn H k v Hk Hs. destruct (Hn k v Hk Hs) as (x0 & Hk0 & Hs0). eauto.
Qed.

Lemma elem_of_delete_other (l : list (Z * Video)) i id job k :
  l !! i = Some (id, job) → k ≠ id → k ∈ l.*1 → k ∈ (delete i l).*1.
Proof.
  intros Hi Hne Hin. apply list_elem_of_fmap in Hin as ([k' v] & -> & Hin).
  cbn in Hne. apply list_elem_of_lookup in Hin as [j Hj].
  destruct (decide (j = i)) as [->|Hji]; [congruence|].
  apply list_elem_of_fmap. exists (k', v). split; [done|].
  apply list_elem_of_lookup.
  destruct (decide (j < i)%nat) as [Hlt|Hge].
  - exists j. by rewrite list_lookup_delete_lt.
  - exists (pred j). rewrite list_lookup_delete_ge by lia.
    replace (S (pred j)) with j by lia. done.
Qed.

Lemma settled_start_turn env p t :
  started env = true → plain_turn t = true →
  settled_start env p → settled_start env (turn env p t).
Proof.
  intros Hst Hp (Hfl & Hauth & Hcov).
  assert (Hsync : ∃ u, sync env = Ok u).
  { unfold started in Hst. destruct (authenticate env); [|done].
    destruct (sync env); [by eauto|done]. }
  assert (Hplain : ∀ w', stage (turn env p t) = stage p →
            inflight (turn env p t) = inflight p →
            proc_world (turn env p t) = w' →
            no_new_uploading (db (proc_world p)) (db w') →
            settled_start env (turn env p t)).
  { intros w' Es Ef Ew Hn. unfold settled_start. rewrite Es, Ef, Ew.
    split; [done|]. split; [done|]. intros He. eapply covered_no_new; eauto. }
  destruct t as [|now|tenv i|f|l|id]; cbn [turn].
  - unfold init_turn. destruct (stage p) eqn:Es.
    + split; [done|]. cbn [stage]. unfold started in Hst.
      destruct (authenticate env) as [u|msg]; [|done]. split; [by eauto|done].
    + split; [done|]. cbn [stage]. destruct Hsync as [u ->]. by split.
    + split; [done|]. split; [done|]. intros _ k v Hk Hs. exfalso.
      apply (reset_stuck_none (db (proc_world p))). by exists k, v.
    + split; [done|]. split; [by rewrite Es|]. by rewrite Es.
  - destruct (find_uploading (db (proc_world p))) as [[k0 v0]|] eqn:Eu.
    { apply find_uploading_Some in Eu.
      rewrite tick_select_busy by (by exists k0, v0). by split. }
    apply find_uploading_None in Eu.
    destruct (find_next_due now (db (proc_world p))) as [[id v]|] eqn:En;
      [|rewrite tick_select_idle by done; by split].
    rewrite (tick_select_pick now _ id v Eu En). cbn [fst snd].
    split; [|split; [done|]].
    + apply Forall_app. split; [done|]. by repeat constructor.
    + intros He k x Hk Hs. cbn [stage inflight proc_world] in *.
      rewrite fmap_app, elem_of_app. cbn in Hk. rewrite lookup_alter in Hk.
      case_decide as Hd.
      * subst k. right. cbn. apply list_elem_of_singleton. reflexivity.
      * left. eauto.
  - destruct (inflight p !! i) as [[id job]|] eqn:Ei; [|by split].
    assert (Hjob : status job = "Uploading"%string).
    { rewrite Forall_forall in Hfl. apply (Hfl (id, job)).
      eapply list_elem_of_lookup_2. exact Ei. }
    split; [|split; [done|]]; cbn [stage inflight proc_world].
    + by apply Forall_delete.
    + intros He k x Hk Hs. rewrite tick_upload_db in Hk.
      cbn [videos set_videos] in Hk.
      rewrite lookup_alter in Hk. case_decide as Hd.
      * exfalso. subst k.
        destruct (videos (db (proc_world p)) !! id) as [row|]; [|done].
        cbn [fmap option_fmap option_map] in Hk.
        injection Hk as <-. rewrite write_changed_status in Hs.
        destruct (settled_status (upload_of tenv job (proc_world p)).1 job)
          as [E | E]; rewrite E, Hjob in Hs; cbn in Hs; discriminate.
      * eapply elem_of_delete_other; [exact Ei|by auto|]. eauto.
  - apply (Hplain (post_schedule f (proc_world p)).2); try reflexivity.
    rewrite post_schedule_db.
    destruct (row_of_create f) as [v|] eqn:E; [|apply no_new_uploading_refl].
    apply no_new_insert. rewrite (row_of_create_status f v E). discriminate.
  - apply (Hplain (post_schedule_bulk l (proc_world p)).2); try reflexivity.
    rewrite post_schedule_bulk_db.
    destruct l as [entries|]; [|apply no_new_uploading_refl].
    destruct (rows_of_bulk entries) as [vs|] eqn:E; [|apply no_new_uploading_refl].
    apply no_new_insert_all. eapply rows_of_bulk_status; eassumption.
  - apply (Hplain (delete_schedule id (proc_world p)).2); try reflexivity.
    rewrite delete_schedule_db.
    destruct id as [k|]; [apply no_new_destroy|apply no_new_uploading_refl].
Qed.

Lemma process_settled_start env turns w :
  started env = true → forallb plain_turn turns = true →
  settled_start env (process env turns w).
Proof.
  intros Hst. induction turns as [|t r IH] using rev_ind; intros Hp.
  { split; [constructor|]. split; discriminate. }
  rewrite forallb_app in Hp. apply andb_prop in Hp as [Hr Ht]. cbn in Ht.
  rewrite andb_true_r in Ht. rewrite process_snoc.
  apply settled_start_turn; auto.
Qed.

(** Once [initDB] has ended after a start that succeeded, every row in the
    status [Uploading] is the row of a tick in flight. *)
Lemma process_no_stale env turns w :
  started env = true → forallb plain_turn turns = true →
  stage (process env turns w) = InitDone →
  ∀ k v, videos (db (proc_world (process env turns w))) !! k = Some v →
         status v = "Uploading"%string → k ∈ (inflight (process env turns w)).*1.
Proof.
  intros Hst Hp He.
  destruct (process_settled_start env turns w Hst Hp) as (_ & _ & H). exact (H He).
Qed.

End ProcessFacts.

Module Scheduler.
Import JsString Json Effects Server System EffectFacts StoreFacts SchedulerFacts
  ProcessFacts Samples.
Local Open Scope eff_scope.

Lemma run_app ops1 ops2 w : run (ops1 ++ ops2) w = run ops2 (run ops1 w).
Proof. unfold run. apply foldl_app. Qed.

Lemma single_flight_run ops w :
  forallb plain_bulk ops = true → single_flight (db w) →
  single_flight (db (run ops w)).
Proof.
  revert w. induction ops as [|op r IH]; intros w Hp H; [exact H|].
  cbn in Hp. apply andb_prop in Hp as [Hop Hr].
  apply (IH (step w op) Hr). by apply single_flight_step.
Qed.

Lemma forallb_take {A} (f : A → bool) n l :
  forallb f l = true → forallb f (take n l) = true.
Proof.
  revert n. induction l as [|x r IH]; intros [|n]; cbn; try done.
  intros H. apply andb_prop in H as [Hx Hr]. rewrite Hx. by apply IH.
Qed.

(** C1, as the code has it.  From a store with at most one job in the
    status [Uploading] (in particular none), after any number of operations
    (start-up, recovery, either part of a tick or a whole tick, creation,
    bulk creation, deletion) at most one job has the status [Uploading],
    provided no entry of a bulk request asks for that status. *)
Theorem single_flight_preserved (ops : list Op) (w : World) (n : nat) :
  forallb plain_bulk ops = true →
  (count_status "Uploading" (db w) ≤ 1)%nat →
  (count_status "Uploading" (db (run (take n ops) w)) ≤ 1)%nat.
Proof.
  intros Hp H. apply count_le_1. apply count_le_1 in H.
  apply single_flight_run; [by apply forallb_take|exact H].
Qed.

Lemma single_flight_preserved_witness :
  forallb plain_bulk sample_ops = true
  ∧ (count_status "Uploading" (db (world ∅)) ≤ 1)%nat
  ∧ (count_status "Uploading" (db (run (take 3 sample_ops) (world ∅))) ≤ 1)%nat.
Proof.
  assert (H1 : forallb plain_bulk sample_ops = true) by reflexivity.
  assert (H2 : (count_status "Uploading" (db (world ∅)) ≤ 1)%nat)
    by (vm_compute; lia).
  repeat (split; [assumption|]).
  exact (single_flight_preserved sample_ops (world ∅) 3 H1 H2).
Defined.

(** C1, as the claim states it, fails: a bulk request whose entries name
    the status [Uploading] puts two jobs in that status in a store that had
    none. *)
Lemma bulk_request_breaks_single_flight :
  ¬ (∀ (ops : list Op) (w : World),
       count_status "Uploading" (db w) = 0%nat →
       (count_status "Uploading" (db (run ops w)) ≤ 1)%nat).
Proof.
  intros H.
  specialize (H [OpBulkCreate (Some [entry (Some "Uploading"%string);
                                     entry (Some "Uploading"%string)])]
                (world ∅) eq_refl).
  vm_compute in H. lia.
Qed.

Lemma log_then {A} e (k : M A) :
  appends k → ∀ w, ∃ evs, trace ((log e ;;; k) w).2 = trace w ++ e :: evs.
Proof.
  intros Hk w. unfold eff_bind, log, modify. cbn.
  destruct (Hk {| db := db w; trace := trace w ++ [e] |}) as [evs E].
  exists evs. rewrite E. cbn. by rewrite <- app_assoc.
Qed.

(** The pipeline records its start before anything else. *)
Lemma upload_starts env job w :
  ∃ evs, trace (upload_of env job w).2
         = trace w ++ EvPipeline (driveFileId job) :: evs.
Proof.
  unfold upload_of, processUpload. apply log_then. eff_solve;
    auto using getStoredTokens_appends, thumbnail_step_appends,
      comment_step_appends.
Qed.

(** C2. A tick changes nothing when some job has the status [Uploading],
    and nothing when no pending job is due.  Otherwise it picks a pending
    job that is due and has the least scheduled time of all such jobs, marks
    it [Uploading] and stores that status; the pipeline is started after
    that, from the store that already holds the status. *)
Theorem tick_selects_earliest_due (env : Env) (now : Z) (w : World) :
  (some_uploading (db w) → (tick env now w).2 = w)
  ∧ (¬ some_uploading (db w) →
     (∀ k x, videos (db w) !! k = Some x →
             ¬ (status x = "Pending"%string ∧ (scheduledTime x ≤ now)%Z)) →
     (tick env now w).2 = w)
  ∧ (¬ some_uploading (db w) →
     (∃ k x, videos (db w) !! k = Some x
             ∧ status x = "Pending"%string ∧ (scheduledTime x ≤ now)%Z) →
     ∃ id v,
       videos (db w) !! id = Some v
       ∧ status v = "Pending"%string
       ∧ (scheduledTime v ≤ now)%Z
       ∧ (∀ k x, videos (db w) !! k = Some x → status x = "Pending"%string →
                 (scheduledTime x ≤ now)%Z →
                 (scheduledTime v ≤ scheduledTime x)%Z)
       ∧ tick_select now w
         = (Ok (Some (id, with_status "Uploading" v)), marked id w)
       ∧ videos (db (marked id w)) !! id = Some (with_status "Uploading" v)
       ∧ (tick env now w).2
         = (tick_upload env id (with_status "Uploading" v) (marked id w)).2
       ∧ ∃ evs, trace (tick env now w).2
                = trace w ++ EvStored id "Uploading"
                             :: EvPipeline (driveFileId v) :: evs).
Proof.
  split; [|split].
  - intros H. by rewrite tick_unfold, tick_select_busy.
  - intros H Hnone. rewrite tick_unfold, tick_select_idle; [done..|].
    by apply find_next_due_None.
  - intros H (k & x & Hk & Hs & Ht).
    destruct (find_next_due now (db w)) as [[id v]|] eqn:E.
    + pose proof (find_next_due_Some now (db w) id v E) as (Hid & Hp & Hd & Hmin).
      pose proof (tick_select_pick now w id v H E) as Hsel.
      exists id, v. repeat (split; [assumption|]).
      split; [|split].
      * cbn. by rewrite lookup_alter_eq, Hid.
      * by rewrite tick_unfold, Hsel.
      * rewrite tick_unfold, Hsel.
        destruct (tick_upload_run env id (with_status "Uploading" v) (marked id w))
          as [evs E1]. cbv zeta in E1. rewrite E1. cbn [snd trace].
        destruct (upload_starts env (with_status "Uploading" v) (marked id w))
          as [evs2 E2]. rewrite E2. cbn [marked trace driveFileId with_status].
        eexists. rewrite <- !app_assoc. cbn. reflexivity.
    + exfalso. rewrite find_next_due_None in E. by apply (E k x Hk).
Qed.

Lemma tick_selects_earliest_due_witness :
  let w := world {[1%Z := job "Pending" 9; 2%Z := job "Pending" 4;
                   3%Z := job "Done" 1; 4%Z := job "Pending" 20]} in
  ∃ id v,
    videos (db w) !! id = Some v
    ∧ id = 2%Z
    ∧ (tick env_ok 10 w).2
      = (tick_upload env_ok id (with_status "Uploading" v) (marked id w)).2.
Proof.
  intros w.
  assert (H1 : ¬ some_uploading (db w)).
  { apply find_uploading_None. reflexivity. }
  assert (H2 : ∃ k x, videos (db w) !! k = Some x
                      ∧ status x = "Pending"%string ∧ (scheduledTime x ≤ 10)%Z).
  { exists 1%Z, (job "Pending" 9). repeat split. cbn. lia. }
  destruct (tick_selects_earliest_due env_ok 10 w) as (_ & _ & H).
  destruct (H H1 H2) as (id & v & Hid & _ & _ & _ & Hsel & _ & Hrun & _).
  exists id, v. split; [exact Hid|]. split; [|exact Hrun].
  vm_compute in Hsel. congruence.
Defined.





(** C6, as the claim states it, fails on the text of the note: the
    recovery writes another diagnostic than the one of the claim. *)
Lemma recovery_note_differs :
  let w := world {[1%Z := job "Uploading" 4]} in
  ∃ r, videos (db (update_stuck w).2) !! 1%Z = Some r
       ∧ status r = "Pending"%string
       ∧ error r = Some "Server restarted during upload"%string
       ∧ error r ≠ Some "interrupted by restart"%string.
Proof.
  eexists. split; [reflexivity|]. repeat split. discriminate.
Qed.

(** C6, as the code has it.  The recovery rewrites every job whose status
    is [Uploading] to [Pending] with the error text [Server restarted
    during upload], changes no other job and adds none; afterwards no job
    is uploading, and a job it has reset is among the pending jobs that are
    due at any time from its scheduled time on, so that the next query for
    a due job returns a job scheduled no later. *)
Theorem recovery_resets_uploading (w : World) (id : Z) (v : Video) :
  videos (db w) !! id = Some v →
  let d' := db (update_stuck w).2 in
  (status v = "Uploading"%string →
   videos d' !! id
   = Some (with_outcome "Pending" (youtubeId v)
             (Some "Server restarted during upload"%string) v))
  ∧ (status v ≠ "Uploading"%string → videos d' !! id = Some v)
  ∧ (∀ k, videos (db w) !! k = None → videos d' !! k = None)
  ∧ ¬ some_uploading d'
  ∧ (status v = "Uploading"%string →
     ∀ now, (scheduledTime v ≤ now)%Z →
       (id, reset_row v) ∈ select (is_due now) (videos d')
       ∧ ∃ id' v', find_next_due now d' = Some (id', v')
                   ∧ (scheduledTime v' ≤ scheduledTime v)%Z).
Proof.
  intros Hid d'.
  assert (Ed : d' = reset_stuck (db w)) by reflexivity.
  assert (Hrow : videos d' !! id = Some (reset_row v)).
  { rewrite Ed. cbn. by rewrite lookup_fmap, Hid. }
  split; [|split; [|split; [|split]]].
  - intros Hs. rewrite Hrow. unfold reset_row.
    apply has_status_true in Hs. by rewrite Hs.
  - intros Hs. rewrite Hrow. unfold reset_row.
    apply has_status_false in Hs. by rewrite Hs.
  - intros k Hk. rewrite Ed. cbn. by rewrite lookup_fmap, Hk.
  - rewrite Ed. apply reset_stuck_none.
  - intros Hs now Hnow.
    assert (Hdue : is_due now (reset_row v) = true).
    { unfold reset_row. apply has_status_true in Hs. rewrite Hs.
      apply is_due_true. by split. }
    assert (Hin : (id, reset_row v) ∈ select (is_due now) (videos d'))
      by (by apply elem_of_select).
    split; [exact Hin|].
    destruct (find_next_due now d') as [[id' v']|] eqn:E.
    + exists id', v'. split; [done|].
      unfold find_next_due in E. apply earliest_Some in E as [_ Hmin].
      specialize (Hmin _ Hin). cbn in Hmin.
      unfold reset_row in Hmin. apply has_status_true in Hs.
      by rewrite Hs in Hmin.
    + unfold find_next_due in E. apply earliest_None in E.
      rewrite E in Hin. by apply elem_of_nil in Hin.
Qed.

Lemma recovery_resets_uploading_witness :
  let w := world {[1%Z := job "Uploading" 4; 2%Z := job "Pending" 9]} in
  videos (db w) !! 1%Z = Some (job "Uploading" 4)
  ∧ videos (db (update_stuck w).2) !! 1%Z
    = Some (with_outcome "Pending" None
              (Some "Server restarted during upload"%string) (job "Uploading" 4))
  ∧ ¬ some_uploading (db (update_stuck w).2).
Proof.
  intros w.
  assert (H : videos (db w) !! 1%Z = Some (job "Uploading" 4)) by reflexivity.
  destruct (recovery_resets_uploading w 1 (job "Uploading" 4) H)
    as (H1 & _ & _ & H4 & _).
  split; [exact H|]. split; [exact (H1 eq_refl)|exact H4].
Defined.

(** C7, as the claim states it, fails.  Nothing makes the poller wait
    for [initDB]: when the ticks come before [initDB] has reached its reset,
    they find the row a crash left in the status [Uploading], which no tick
    is at work on, and do nothing, although the start succeeds.  And when
    the connection check throws, [initDB] ends without the reset: every tick
    from then on finds that row and does nothing. *)
Lemma recovery_not_before_first_tick :
  let w := world {[1%Z := job "Uploading" 4; 2%Z := job "Pending" 5]} in
  (∀ ticks : list Z,
     let p := process env_ok (map TurnTickStart ticks) w in
     stage p ≠ InitDone
     ∧ resets (trace (proc_world p)) = 0%nat
     ∧ stale p 1
     ∧ proc_world p = w)
  ∧ (∀ ticks : list Z,
       let p := process env_down (TurnInit :: map TurnTickStart ticks) w in
       stage p = InitDone
       ∧ resets (trace (proc_world p)) = 0%nat
       ∧ stale p 1
       ∧ proc_world p = w).
Proof.
  intros w.
  assert (Hbusy : some_uploading (db w)) by (by exists 1%Z, (job "Uploading" 4)).
  assert (Hstale : ∀ st, stale {| stage := st; inflight := []; proc_world := w |} 1).
  { intros st. split; [by exists (job "Uploading" 4)|]. cbn. apply not_elem_of_nil. }
  split; intros ticks p; subst p; unfold process; cbn [foldl].
  - rewrite ticks_blocked by exact Hbusy.
    split; [done|]. split; [reflexivity|]. split; [apply Hstale|reflexivity].
  - change (turn env_down (boot w) TurnInit)
      with {| stage := InitDone; inflight := []; proc_world := w |}.
    rewrite ticks_blocked by exact Hbusy.
    split; [reflexivity|]. split; [reflexivity|]. split; [apply Hstale|reflexivity].
Qed.

(** C7, as the code has it.  [initDB] is started once, when the process
    starts, and the process then takes its turns in any order.  In every
    run the reset is made at most once.  It has not been made as long as
    [initDB] has not come to its end; at the end of [initDB] it has been
    made exactly once when the connection check and the schema sync
    succeeded, and not at all when one of them threw.  [initDB] is at its
    end after three of its turns at the latest.  Once it has ended after a
    start that succeeded, no row is stale: every row in the status
    [Uploading] is the row of a tick in flight, provided no bulk request
    asks for that status.  When nothing comes between its parts, they do
    what [initDB] does. *)
Theorem recovery_once_per_start (env : Env) (turns : list Turn) (w : World) :
  let p := process env turns w in
  let n := resets (trace (proc_world p)) in
  let n0 := resets (trace w) in
  (n ≤ n0 + 1)%nat
  ∧ (stage p ≠ InitDone → n = n0)
  ∧ (stage p = InitDone → n = if started env then S n0 else n0)
  ∧ (3 ≤ init_turns turns → stage p = InitDone)%nat
  ∧ (stage p = InitDone → started env = true →
     forallb plain_turn turns = true → ∀ k, ¬ stale p k)
  ∧ process env [TurnInit; TurnInit; TurnInit] w
    = {| stage := InitDone; inflight := []; proc_world := (initDB env w).2 |}.
Proof.
  intros p n n0. subst p n n0.
  pose proof (process_resets env turns w) as Hr.
  split; [|split; [|split; [|split; [|split]]]].
  - destruct (stage (process env turns w)), (started env); lia.
  - intros Hne. destruct (stage (process env turns w)); try done.
  - intros He. by rewrite He in Hr.
  - apply process_init_ends.
  - intros He Hs Hp k [(v & Hk & Hv) Hnot]. apply Hnot.
    exact (process_no_stale env turns w Hs Hp He k v Hk Hv).
  - apply init_turns_initDB.
Qed.

Lemma recovery_once_per_start_witness :
  let w := world {[1%Z := job "Uploading" 4; 2%Z := job "Pending" 5]} in
  let turns := [TurnTickStart 3; TurnInit; TurnInit; TurnInit; TurnTickStart 10] in
  let p := process env_ok turns w in
  stage p = InitDone
  ∧ started env_ok = true
  ∧ forallb plain_turn turns = true
  ∧ resets (trace (proc_world p)) = 1%nat
  ∧ (inflight p).*1 = [1%Z]
  ∧ ∀ k, ¬ stale p k.
Proof.
  intros w turns p.
  assert (H1 : stage p = InitDone) by reflexivity.
  assert (H2 : started env_ok = true) by reflexivity.
  assert (H3 : forallb plain_turn turns = true) by reflexivity.
  destruct (recovery_once_per_start env_ok turns w) as (_ & _ & Hn & _ & Hst & _).
  split; [exact H1|]. split; [exact H2|]. split; [exact H3|].
  split; [exact (Hn H1)|]. split; [reflexivity|exact (Hst H1 H2 H3)].
Defined.

(** C8. The delete route answers with success and removes the job when
    its status is [Pending]: the row is gone, the other rows stay and the
    table has one row less.  For a job of any other status, [Done] and
    [Failed] in particular, the route changes nothing, so the number of rows
    stays. *)
Theorem delete_only_pending (w : World) (id : Z) (v : Video) :
  videos (db w) !! id = Some v →
  let r := delete_schedule (Some id) w in
  r.1 = Ok (ok BSuccess)
  ∧ (status v = "Pending"%string →
     videos (db r.2) = delete id (videos (db w))
     ∧ videos (db r.2) !! id = None
     ∧ S (size (videos (db r.2))) = size (videos (db w)))
  ∧ (status v ≠ "Pending"%string → r.2 = w)
  ∧ (status v = "Done"%string ∨ status v = "Failed"%string →
     r.2 = w ∧ size (videos (db r.2)) = size (videos (db w))).
Proof.
  intros Hid r.
  assert (Hdb : db r.2 = destroy_pending id (db w)) by reflexivity.
  assert (Htr : trace r.2 = trace w) by reflexivity.
  assert (Hno : status v ≠ "Pending"%string → r.2 = w).
  { intros Hs. destruct r.2 as [d' tr'] eqn:Er. cbn in Hdb, Htr. subst d' tr'.
    unfold destroy_pending. rewrite Hid. apply has_status_false in Hs.
    rewrite Hs. by destruct w. }
  split; [reflexivity|]. split; [|split; [exact Hno|]].
  - intros Hs. rewrite Hdb. unfold destroy_pending. rewrite Hid.
    apply has_status_true in Hs. rewrite Hs. cbn [videos set_videos].
    split; [reflexivity|]. split; [apply lookup_delete_eq|].
    rewrite map_size_delete, Hid.
    assert (size (videos (db w)) ≠ 0%nat).
    { intros Hz. apply map_size_empty_iff in Hz. rewrite Hz in Hid.
      by rewrite lookup_empty in Hid. }
    lia.
  - intros Hs.
    assert (Hne : status v ≠ "Pending"%string)
      by (destruct Hs as [-> | ->]; discriminate).
    by rewrite (Hno Hne).
Qed.

Lemma delete_only_pending_witness :
  let w := world {[1%Z := job "Pending" 4; 2%Z := job "Done" 2]} in
  videos (db w) !! 1%Z = Some (job "Pending" 4)
  ∧ videos (db w) !! 2%Z = Some (job "Done" 2)
  ∧ videos (db (delete_schedule (Some 1%Z) w).2) !! 1%Z = None
  ∧ (delete_schedule (Some 2%Z) w).2 = w.
Proof.
  intros w.
  assert (H1 : videos (db w) !! 1%Z = Some (job "Pending" 4)) by reflexivity.
  assert (H2 : videos (db w) !! 2%Z = Some (job "Done" 2)) by reflexivity.
  destruct (delete_only_pending w 1 (job "Pending" 4) H1) as (_ & Hp & _).
  destruct (delete_only_pending w 2 (job "Done" 2) H2) as (_ & _ & _ & Hd).
  split; [exact H1|]. split; [exact H2|]. split.
  - exact (proj1 (proj2 (Hp eq_refl))).
  - exact (proj1 (Hd (or_introl eq_refl))).
Defined.

End Scheduler.

(** ** The metadata suggestion and the upload pipeline *)

Module Pipeline.
Import JsString Json Effects Server System EffectFacts StoreFacts SchedulerFacts Samples.
Local Open Scope eff_scope.

Lemma generateMetadata_run env filename w :
  generateMetadata env filename w
  = (Ok (match generateContent env filename with
         | Ok text => match parse_reply env (clean_reply text) with
                      | Some data => data
                      | None => fallback_metadata filename
                      end
         | Throw _ => fallback_metadata filename
         end), w).
Proof.
  unfold generateMetadata, try_catch, eff_bind, lift.
  destruct (generateContent env filename) as [text|msg]; [|reflexivity].
  by destruct (parse_reply env (clean_reply text)).
Qed.

Lemma generateMetadata_v1_run env filename w :
  ServerV1.generateMetadata env filename w
  = (Ok (match generateContent env filename with
         | Ok text => match parse_reply env (clean_reply text) with
                      | Some data => data
                      | None => ServerV1.fallback_metadata filename
                      end
         | Throw _ => ServerV1.fallback_metadata filename
         end), w).
Proof.
  unfold ServerV1.generateMetadata, try_catch, eff_bind, lift.
  destruct (generateContent env filename) as [text|msg]; [|reflexivity].
  by destruct (parse_reply env (clean_reply text)).
Qed.

(** C9, as the claim states it, fails on the current server: its fallback
    is not the object of the two properties [title] and [description]. *)
Lemma fallback_has_more_fields :
  (generateMetadata env_partial (Some "clip.mp4"%string) (world ∅)).1
  ≠ Ok (JObj [("title"%string, JStr "clip.mp4");
              ("description"%string, JStr "Uploaded via V-UPLOAD AI")]).
Proof. vm_compute. discriminate. Qed.

(** C9, as the code has it.  The suggestion never throws, in either
    version of the server.  When the call of the model throws, or its reply
    does not parse, the result is the fallback: the file name as the title
    and the default description, and on the current server also the fixed
    tags and hashtags. *)
Theorem metadata_fallback (env : Env) (filename : string) (w : World) :
  (∃ v, generateMetadata env (Some filename) w = (Ok v, w))
  ∧ (∃ v, ServerV1.generateMetadata env (Some filename) w = (Ok v, w))
  ∧ (failed_suggestion env (Some filename) = true →
     generateMetadata env (Some filename) w
     = (Ok (JObj [("title"%string, JStr filename);
                  ("description"%string, JStr "Uploaded via V-UPLOAD AI");
                  ("tags"%string, JArr [JStr "automation"; JStr "uploader"]);
                  ("hashtags"%string, JArr [JStr "#VUpload"; JStr "#Automation"])]),
        w)
     ∧ ServerV1.generateMetadata env (Some filename) w
       = (Ok (JObj [("title"%string, JStr filename);
                    ("description"%string, JStr "Uploaded via V-UPLOAD AI")]),
          w)).
Proof.
  rewrite generateMetadata_run, generateMetadata_v1_run.
  split; [eauto|]. split; [eauto|].
  unfold failed_suggestion.
  destruct (generateContent env (Some filename)) as [text|msg]; [|done].
  by destruct (parse_reply env (clean_reply text)).
Qed.

Lemma metadata_fallback_witness :
  failed_suggestion env_partial (Some "clip.mp4"%string) = true
  ∧ (generateMetadata env_partial (Some "clip.mp4"%string) (world ∅)).1
    = Ok (JObj [("title"%string, JStr "clip.mp4");
                ("description"%string, JStr "Uploaded via V-UPLOAD AI");
                ("tags"%string, JArr [JStr "automation"; JStr "uploader"]);
                ("hashtags"%string, JArr [JStr "#VUpload"; JStr "#Automation"])]).
Proof.
  split; [reflexivity|].
  destruct (metadata_fallback env_partial "clip.mp4" (world ∅)) as (_ & _ & H).
  destruct (H eq_refl) as [-> _]. reflexivity.
Defined.

Lemma getStoredTokens_connected w :
  connected (db w) = true →
  ∃ tokens, getStoredTokens w = (Ok tokens, w) ∧ tokens_present tokens = true.
Proof.
  unfold connected, getStoredTokens, eff_bind, read. cbn [db fst snd].
  destruct (settings (db w) !! "google_tokens"%string) as [txt|]; [|done].
  destruct (parse txt) as [v|]; [|done].
  intros H. by exists (Some v).
Qed.

Lemma step_run {A} (m : M A) w :
  keeps_db m → appends m → total m →
  ∃ a evs, m w = (Ok a, {| db := db w; trace := trace w ++ evs |}).
Proof.
  intros Hk Ha Ht. destruct (Ht w) as [a E]. destruct (Ha w) as [evs Ev].
  specialize (Hk w). exists a, evs.
  destruct (m w) as [r [d' tr']]. cbn in *. by subst.
Qed.

Lemma comment_step_v1_appends env vid c : appends (ServerV1.comment_step env vid c).
Proof. unfold ServerV1.comment_step. eff_solve. Qed.

(** The steps after the insert cannot make the pipeline fail. *)
Lemma late_steps_run env vid th fc w :
  ∃ evs, (thumbnail_step env vid th ;;; comment_step env vid fc ;;; eff_ret vid) w
         = (Ok vid, {| db := db w; trace := trace w ++ evs |}).
Proof.
  unfold eff_bind.
  destruct (step_run (thumbnail_step env vid th) w
              (thumbnail_step_keeps_db _ _ _) (thumbnail_step_appends _ _ _)
              (thumbnail_step_total _ _ _)) as ([] & e1 & E1).
  rewrite E1.
  destruct (step_run (comment_step env vid fc) {| db := db w; trace := trace w ++ e1 |}
              (comment_step_keeps_db _ _ _) (comment_step_appends _ _ _)
              (comment_step_total _ _ _)) as ([] & e2 & E2).
  rewrite E2. exists (e1 ++ e2). cbn. by rewrite app_assoc.
Qed.

Lemma late_steps_v1_run env vid th fc w :
  ∃ evs, (thumbnail_step env vid th ;;; ServerV1.comment_step env vid fc
          ;;; eff_ret vid) w
         = (Ok vid, {| db := db w; trace := trace w ++ evs |}).
Proof.
  unfold eff_bind.
  destruct (step_run (thumbnail_step env vid th) w
              (thumbnail_step_keeps_db _ _ _) (thumbnail_step_appends _ _ _)
              (thumbnail_step_total _ _ _)) as ([] & e1 & E1).
  rewrite E1.
  destruct (step_run (ServerV1.comment_step env vid fc)
              {| db := db w; trace := trace w ++ e1 |}
              (comment_step_v1_keeps_db _ _ _) (comment_step_v1_appends _ _ _)
              (comment_step_v1_total _ _ _)) as ([] & e2 & E2).
  rewrite E2. exists (e1 ++ e2). cbn. by rewrite app_assoc.
Qed.

(** With tokens, a download and an insert that succeed, the pipeline
    returns the id of the video. *)
Lemma processUpload_inserted env fid t d th fc tg ht w sn vid :
  connected (db w) = true →
  drive_files_get env fid = Ok tt →
  build_snippet t (parse_tags d tg ht).2 (parse_tags d tg ht).1 = Ok sn →
  videos_insert env sn = Ok vid →
  ∃ evs, processUpload env fid t d th fc tg ht w
         = (Ok vid,
            {| db := db w;
               trace := trace w ++ [EvPipeline fid; EvDownloaded fid; EvInserted sn vid]
                        ++ evs |}).
Proof.
  intros Hc Hd Hs Hi. unfold processUpload.
  unfold eff_bind at 1. cbn [log modify fst snd].
  unfold eff_bind at 1.
  destruct (getStoredTokens_connected
              {| db := db w; trace := trace w ++ [EvPipeline fid] |} Hc)
    as (tokens & Et & Hp).
  cbv beta iota delta [log modify]. rewrite Et, Hp. cbn [negb].
  destruct (parse_tags d tg ht) as [tgs fdesc]. cbn [fst snd] in Hs.
  unfold eff_bind at 1. unfold lift at 1. rewrite Hd.
  unfold eff_bind at 1. cbn [db trace].
  unfold eff_bind at 1. unfold lift at 1. rewrite Hs.
  unfold eff_bind at 1. unfold lift at 1. rewrite Hi.
  unfold eff_bind at 1. cbn [db trace].
  destruct (late_steps_run env vid th fc
              {| db := db w;
                 trace := ((trace w ++ [EvPipeline fid]) ++ [EvDownloaded fid])
                          ++ [EvInserted sn vid] |}) as [evs E].
  rewrite E. exists evs. cbn [db trace]. f_equal. f_equal.
  by rewrite <- !app_assoc.
Qed.

Lemma processUpload_v1_inserted env fid t d th fc w vid :
  connected (db w) = true →
  drive_files_get env fid = Ok tt →
  videos_insert env (ServerV1.snippet_of t d) = Ok vid →
  ∃ evs, ServerV1.processUpload env fid t d th fc w
         = (Ok vid,
            {| db := db w;
               trace := trace w ++ [EvPipeline fid; EvDownloaded fid;
                                    EvInserted (ServerV1.snippet_of t d) vid]
                        ++ evs |}).
Proof.
  intros Hc Hd Hi. unfold ServerV1.processUpload.
  unfold eff_bind at 1. cbn [log modify fst snd].
  unfold eff_bind at 1.
  destruct (getStoredTokens_connected
              {| db := db w; trace := trace w ++ [EvPipeline fid] |} Hc)
    as (tokens & Et & Hp).
  cbv beta iota delta [log modify]. rewrite Et, Hp. cbn [negb].
  unfold eff_bind at 1. unfold lift at 1. rewrite Hd.
  unfold eff_bind at 1. cbn [db trace].
  unfold eff_bind at 1. unfold lift at 1. rewrite Hi.
  unfold eff_bind at 1. cbn [db trace].
  destruct (late_steps_v1_run env vid th fc
              {| db := db w;
                 trace := ((trace w ++ [EvPipeline fid]) ++ [EvDownloaded fid])
                          ++ [EvInserted (ServerV1.snippet_of t d) vid] |})
    as [evs E].
  rewrite E. exists evs. cbn [db trace]. f_equal. f_equal.
  by rewrite <- !app_assoc.
Qed.

(** A thumbnail call that throws leaves no mark. *)
Lemma thumbnail_step_failed env vid th w :
  (∀ data, ∃ msg, thumbnails_set env vid data = Throw msg) →
  thumbnail_step env vid th w = (Ok tt, w).
Proof.
  intros H. unfold thumbnail_step. destruct (truthy th); [|reflexivity].
  unfold try_catch.
  destruct (truthy (split_on "," (or_default th "") !! 1%nat)); [|reflexivity].
  unfold eff_bind, lift.
  destruct (H (or_default (split_on "," (or_default th "") !! 1%nat) ""))
    as [msg ->].
  reflexivity.
Qed.

(** A comment call that throws leaves no mark, in either version. *)
Lemma comment_step_failed env vid fc w :
  (∀ text, ∃ msg, commentThreads_insert env vid text = Throw msg) →
  comment_step env vid fc w = (Ok tt, w)
  ∧ ServerV1.comment_step env vid fc w = (Ok tt, w).
Proof.
  intros H. unfold comment_step, ServerV1.comment_step.
  destruct (truthy fc); [|by split].
  unfold try_catch, eff_bind, lift.
  destruct (H (or_default fc "")) as [msg ->]. by split.
Qed.

Lemma tick_upload_v1_db env id job w :
  let r := (ServerV1.processUpload env (driveFileId job) (title job)
              (description job) (thumbnail job) (firstComment job) w).1 in
  db (ServerV1.tick_upload env id job w).2
  = set_videos (alter (write_changed job (settled r job)) id (videos (db w))) (db w).
Proof.
  cbv zeta. unfold ServerV1.tick_upload, eff_bind, attempt.
  pose proof (processUpload_v1_keeps_db env (driveFileId job) (title job)
                (description job) (thumbnail job) (firstComment job) w) as Hdb.
  destruct (ServerV1.processUpload env (driveFileId job) (title job)
              (description job) (thumbnail job) (firstComment job) w)
    as [[ytId | msg] w1]; cbn [fst snd] in *; rewrite save_run;
    cbn [fst snd db]; by rewrite Hdb.
Qed.

(** The row of the job after the second part of a tick of the earlier
    server, when the row was as the instance of the tick had it. *)
Lemma tick_upload_v1_row env id job w :
  videos (db w) !! id = Some job →
  videos (db (ServerV1.tick_upload env id job w).2) !! id
  = Some (settled (ServerV1.processUpload env (driveFileId job) (title job)
                     (description job) (thumbnail job) (firstComment job) w).1 job).
Proof.
  intros Hid. rewrite tick_upload_v1_db. cbn [videos set_videos].
  rewrite lookup_alter_eq, Hid. cbn. f_equal.
  apply write_changed_loaded. by destruct (_ : Result string).
Qed.

(** C10. Once the download and the insert have succeeded the pipeline
    returns the id of the video, whatever the thumbnail call, the comment
    call and the pin do, and the tick leaves the row of the job, which was
    as the instance of the tick had it, with the status [Done], that id as
    the remote id, no error and the content it had.  When the thumbnail
    call and the comment call throw, the run of the pipeline has recorded
    the download and the insert and nothing else: the job is [Done] though
    no thumbnail was set and no comment posted.  The same holds for the
    earlier version of the server. *)
Theorem done_despite_late_failures
    (env : Env) (id : Z) (job : Video) (w : World) (sn : Snippet)
    (vid : string) :
  connected (db w) = true →
  videos (db w) !! id = Some job →
  drive_files_get env (driveFileId job) = Ok tt →
  (build_snippet (title job)
     (parse_tags (description job) (tags job) (hashtags job)).2
     (parse_tags (description job) (tags job) (hashtags job)).1 = Ok sn →
   videos_insert env sn = Ok vid →
   (upload_of env job w).1 = Ok vid
   ∧ (∃ r, videos (db (tick_upload env id job w).2) !! id = Some r
           ∧ status r = "Done"%string ∧ youtubeId r = Some vid ∧ error r = None
           ∧ same_content r job)
   ∧ ((∀ data, ∃ msg, thumbnails_set env vid data = Throw msg) →
      (∀ text, ∃ msg, commentThreads_insert env vid text = Throw msg) →
      (upload_of env job w).2
      = {| db := db w;
           trace := trace w ++ [EvPipeline (driveFileId job);
                                EvDownloaded (driveFileId job);
                                EvInserted sn vid] |}))
  ∧ (videos_insert env (ServerV1.snippet_of (title job) (description job)) = Ok vid →
     (ServerV1.processUpload env (driveFileId job) (title job) (description job)
        (thumbnail job) (firstComment job) w).1 = Ok vid
     ∧ (∃ r, videos (db (ServerV1.tick_upload env id job w).2) !! id = Some r
             ∧ status r = "Done"%string ∧ youtubeId r = Some vid ∧ error r = None
             ∧ same_content r job)
     ∧ ((∀ data, ∃ msg, thumbnails_set env vid data = Throw msg) →
        (∀ text, ∃ msg, commentThreads_insert env vid text = Throw msg) →
        (ServerV1.processUpload env (driveFileId job) (title job) (description job)
           (thumbnail job) (firstComment job) w).2
        = {| db := db w;
             trace := trace w ++ [EvPipeline (driveFileId job);
                                  EvDownloaded (driveFileId job);
                                  EvInserted (ServerV1.snippet_of (title job)
                                                (description job)) vid] |})).
Proof.
  intros Hc Hid Hd. split.
  - intros Hs Hi.
    destruct (processUpload_inserted env (driveFileId job) (title job)
                (description job) (thumbnail job) (firstComment job) (tags job)
                (hashtags job) w sn vid Hc Hd Hs Hi) as [evs E].
    assert (Hr : (upload_of env job w).1 = Ok vid)
      by (unfold upload_of; by rewrite E).
    split; [exact Hr|]. split.
    + eexists. split; [by apply tick_upload_row|]. rewrite Hr.
      repeat split.
    + intros Hth Hcm. clear E evs. unfold upload_of, processUpload.
      unfold eff_bind at 1. cbn [log modify fst snd].
      unfold eff_bind at 1.
      destruct (getStoredTokens_connected
                  {| db := db w; trace := trace w ++ [EvPipeline (driveFileId job)] |} Hc)
        as (tokens & Et & Hp).
      cbv beta iota delta [log modify]. rewrite Et, Hp. cbn [negb].
      destruct (parse_tags (description job) (tags job) (hashtags job))
        as [tgs fdesc]. cbn [fst snd] in Hs.
      unfold eff_bind at 1. unfold lift at 1. rewrite Hd.
      unfold eff_bind at 1. cbn [db trace].
      unfold eff_bind at 1. unfold lift at 1. rewrite Hs.
      unfold eff_bind at 1. unfold lift at 1. rewrite Hi.
      unfold eff_bind at 1. cbn [db trace].
      unfold eff_bind at 1. rewrite (thumbnail_step_failed _ _ _ _ Hth).
      unfold eff_bind at 1.
      rewrite (proj1 (comment_step_failed _ _ _ _ Hcm)).
      cbn. by rewrite <- !app_assoc.
  - intros Hi.
    destruct (processUpload_v1_inserted env (driveFileId job) (title job)
                (description job) (thumbnail job) (firstComment job) w vid
                Hc Hd Hi) as [evs E].
    assert (Hr : (ServerV1.processUpload env (driveFileId job) (title job)
                    (description job) (thumbnail job) (firstComment job) w).1
                 = Ok vid) by (by rewrite E).
    split; [exact Hr|]. split.
    + eexists. split; [by apply tick_upload_v1_row|]. rewrite Hr.
      repeat split.
    + intros Hth Hcm. clear E evs Hr. unfold ServerV1.processUpload.
      unfold eff_bind at 1. cbn [log modify fst snd].
      unfold eff_bind at 1.
      destruct (getStoredTokens_connected
                  {| db := db w; trace := trace w ++ [EvPipeline (driveFileId job)] |} Hc)
        as (tokens & Et & Hp).
      cbv beta iota delta [log modify]. rewrite Et, Hp. cbn [negb].
      unfold eff_bind at 1. unfold lift at 1. rewrite Hd.
      unfold eff_bind at 1. cbn [db trace].
      unfold eff_bind at 1. unfold lift at 1. rewrite Hi.
      unfold eff_bind at 1. cbn [db trace].
      unfold eff_bind at 1. rewrite (thumbnail_step_failed _ _ _ _ Hth).
      unfold eff_bind at 1.
      rewrite (proj2 (comment_step_failed _ _ _ _ Hcm)).
      cbn. by rewrite <- !app_assoc.
Qed.

Lemma done_despite_late_failures_witness :
  let w := world {[1%Z := job "Uploading" 4]} in
  let sn := {| sn_title := "clip"; sn_description := "Uploaded via V-UPLOAD AI";
               sn_tags := Some (JArr []); sn_categoryId := "22";
               sn_privacyStatus := "private" |} in
  connected (db w) = true
  ∧ videos (db w) !! 1%Z = Some (job "Uploading" 4)
  ∧ (∀ data, ∃ msg, thumbnails_set env_partial "yt-1" data = Throw msg)
  ∧ (∀ text, ∃ msg, commentThreads_insert env_partial "yt-1" text = Throw msg)
  ∧ (∃ r, videos (db (tick_upload env_partial 1 (job "Uploading" 4) w).2) !! 1%Z
          = Some r
          ∧ status r = "Done"%string ∧ youtubeId r = Some "yt-1"%string
          ∧ error r = None)
  ∧ trace (upload_of env_partial (job "Uploading" 4) w).2
    = [EvPipeline "file-1"; EvDownloaded "file-1"; EvInserted sn "yt-1"].
Proof.
  intros w sn.
  assert (H1 : connected (db w) = true) by reflexivity.
  assert (H2 : videos (db w) !! 1%Z = Some (job "Uploading" 4)) by reflexivity.
  assert (H3 : ∀ data, ∃ msg, thumbnails_set env_partial "yt-1" data = Throw msg)
    by (intros data; eexists; reflexivity).
  assert (H4 : ∀ text, ∃ msg, commentThreads_insert env_partial "yt-1" text = Throw msg)
    by (intros text; eexists; reflexivity).
  destruct (done_despite_late_failures env_partial 1 (job "Uploading" 4)
              w sn "yt-1" H1 H2 eq_refl) as [H _].
  destruct (H eq_refl eq_refl) as (_ & (r & Hr & Hs & Hy & He & _) & Htrace).
  repeat (split; [assumption|]).
  split; [by exists r|].
  by rewrite (Htrace H3 H4).
Defined.

End Pipeline.

(** ** Further properties of the scheduling form *)

Module FormFacts.
Import JsString JsDate App DateFacts ExpanderFacts Samples.
Local Open Scope Z_scope.

Lemma spec_candidate_local tza now dayIndex h m :
  0 <= dayIndex <= 6 → 0 <= h <= 23 → 0 <= m <= 59 →
  let c := spec_candidate tza now dayIndex h m in
  WeekDay (LocalTime tza c) = dayIndex
  ∧ TimeWithinDay (LocalTime tza c) = h * msPerHour + m * msPerMinute
  ∧ now - msPerDay < c < now + 7 * msPerDay.
Proof.
  intros Hd Hh Hm c. subst c.
  unfold spec_candidate, UTC, MakeDate, MakeTime, LocalTime, WeekDay,
    TimeWithinDay, Day, msPerDay, msPerHour, msPerMinute.
  set (lt := now + tza).
  replace ((lt / 86400000 + (dayIndex - (lt / 86400000 + 4) mod 7 + 7) mod 7)
           * 86400000 + (h * 3600000 + m * 60000 + 0 * 1000 + 0) - tza + tza)
    with ((lt / 86400000 + (dayIndex - (lt / 86400000 + 4) mod 7 + 7) mod 7)
          * 86400000 + (h * 3600000 + m * 60000)) by lia.
  assert (Hn : now = lt - tza) by (subst lt; lia).
  set (day := lt / 86400000) in *.
  assert (Hlt : day * 86400000 <= lt < day * 86400000 + 86400000)
    by (subst day; div_lia).
  set (delta := (dayIndex - (day + 4) mod 7 + 7) mod 7).
  assert (Hdelta : 0 <= delta <= 6) by (subst delta; div_lia).
  assert (Hwd : (day + delta + 4) mod 7 = dayIndex) by (subst delta; div_lia).
  assert (Hhm : 0 <= h * 3600000 + m * 60000 < 86400000) by lia.
  set (hm := h * 3600000 + m * 60000) in *.
  assert (Hq : ((day + delta) * 86400000 + hm) / 86400000 = day + delta)
    by div_lia.
  assert (Hr : ((day + delta) * 86400000 + hm) mod 86400000 = hm) by div_lia.
  rewrite Hq, Hr, Hwd. repeat split; lia.
Qed.

(** X2. In a time zone whose offset from UTC does not change (the local
    time of the model; a zone that changes its offset within the week is not
    covered): when the date of the loop is read on the local day of [now],
    the scheduled time of a week day and an HH:MM time is the next
    occurrence of that day and time: it is on the chosen week day, at the
    chosen local hour and minute with zero seconds, after [now], and at
    most seven days after [now]. *)
Theorem occurrence_is_next (tza now lag dayIndex : Z) (s : string) :
  0 <= dayIndex <= 6 →
  valid_time s = true →
  Day (LocalTime tza (now + lag)) = Day (LocalTime tza now) →
  ∃ t h m,
    occurrence tza now (now + lag) dayIndex s = Some t
    ∧ parse_time s = (Some h, Some m)
    ∧ WeekDay (LocalTime tza t) = dayIndex
    ∧ TimeWithinDay (LocalTime tza t) = h * msPerHour + m * msPerMinute
    ∧ now < t <= now + 7 * msPerDay.
Proof.
  intros Hd Hv Hday.
  destruct (parse_time_valid s Hv) as (h & m & Hh & Hm & Hp).
  destruct (Expansion.occurrence_same_day_general tza now lag dayIndex s h m Hd Hp Hday)
    as [_ Ho].
  exists (spec_occurrence tza now dayIndex h m), h, m.
  split; [exact Ho|]. split; [exact Hp|].
  destruct (spec_candidate_local tza now dayIndex h m Hd Hh Hm) as (Hw & Ht & Hb).
  unfold spec_occurrence.
  destruct (Z.leb_spec (spec_candidate tza now dayIndex h m) now) as [Hle | Hgt].
  - replace (LocalTime tza (spec_candidate tza now dayIndex h m + 7 * msPerDay))
      with (LocalTime tza (spec_candidate tza now dayIndex h m) + 7 * msPerDay)
      by (unfold LocalTime; lia).
    rewrite TimeWithinDay_shift. unfold WeekDay in *. rewrite Day_shift.
    split; [|split; [exact Ht|unfold msPerDay in *; lia]].
    remember (Day (LocalTime tza (spec_candidate tza now dayIndex h m))) as D.
    clear -Hw. div_lia.
  - split; [exact Hw|]. split; [exact Ht|]. unfold msPerDay in *. lia.
Qed.

Lemma occurrence_is_next_witness :
  (0 <= 1 <= 6)
  ∧ valid_time "09:00" = true
  ∧ Day (LocalTime 0 (1706608800000 + 5)) = Day (LocalTime 0 1706608800000)
  ∧ ∃ t, occurrence 0 1706608800000 (1706608800000 + 5) 1 "09:00" = Some t
         ∧ WeekDay (LocalTime 0 t) = 1
         ∧ 1706608800000 < t <= 1706608800000 + 7 * msPerDay.
Proof.
  assert (H1 : 0 <= 1 <= 6) by lia.
  assert (H2 : valid_time "09:00" = true) by reflexivity.
  assert (H3 : Day (LocalTime 0 (1706608800000 + 5)) = Day (LocalTime 0 1706608800000))
    by reflexivity.
  repeat (split; [assumption|]).
  destruct (occurrence_is_next 0 1706608800000 5 1 "09:00" H1 H2 H3)
    as (t & h & m & Ho & _ & Hw & _ & Hb).
  exists t. split; [exact Ho|]. split; [exact Hw|exact Hb].
Defined.

End FormFacts.

Module FormRules.
Import JsString JsDate App DateFacts ExpanderFacts Samples.
Local Open Scope Z_scope.

(** X3. [submitSchedule] posts nothing exactly when no day is selected, no
    time is given or no file is selected; with no day the toast asks for a
    day, with days but no time it asks for a time, and a request that was
    posted has one entry per pair of a day and a time. *)
Theorem submit_posts_iff (tza now : Z) (clock : nat → N)
    (sel : option string) (fd : FormData) (post_ok : bool) :
  let r := submitSchedule tza now clock sel fd post_ok in
  (posted r = None ↔ fd_days fd = [] ∨ fd_times fd = [] ∨ sel = None)
  ∧ (fd_days fd = [] → toast r = ToastSelectDay)
  ∧ (fd_days fd ≠ [] → fd_times fd = [] → toast r = ToastAddTime)
  ∧ (∀ l, posted r = Some l →
          length l = (length (fd_days fd) * length (fd_times fd))%nat
          ∧ toast r = if post_ok then ToastScheduled (length l) else ToastBulkFailed).
Proof.
  cbv zeta. unfold submitSchedule.
  destruct (fd_days fd) as [|d ds] eqn:Ed; cbn [length Nat.eqb].
  { repeat split; try done; auto. }
  destruct (fd_times fd) as [|t ts] eqn:Et; cbn [length Nat.eqb].
  { repeat split; try done; auto. }
  destruct sel as [vid|]; cbn [posted toast].
  - repeat split; try done.
    + intros H. destruct H as [H | [H | H]]; discriminate H.
    + match goal with E : Some _ = Some _ |- _ => injection E as <- end.
      unfold expand. rewrite Ed, each_day_length, Et. reflexivity.
    + match goal with E : Some _ = Some _ |- _ => by injection E as <- end.
  - repeat split; try done; auto.
Qed.

(** X4. [toggleDay] keeps the selected days free of duplicates, flips the
    selection of its day and leaves the selection of every other day as it
    was. *)
Theorem toggleDay_flips (dayId : Z) (fd : FormData) :
  NoDup (fd_days fd) →
  NoDup (fd_days (toggleDay dayId fd))
  ∧ (dayId ∈ fd_days (toggleDay dayId fd) ↔ dayId ∉ fd_days fd)
  ∧ (∀ d, d ≠ dayId → d ∈ fd_days (toggleDay dayId fd) ↔ d ∈ fd_days fd)
  ∧ fd_times (toggleDay dayId fd) = fd_times fd.
Proof.
  intros Hnd. unfold toggleDay. cbn [fd_days fd_times].
  case_bool_decide as Hin.
  - split; [by apply NoDup_filter|]. split; [|split; [|done]].
    + rewrite list_elem_of_filter. tauto.
    + intros d Hd. rewrite list_elem_of_filter. tauto.
  - split; [|split; [|split; [|done]]].
    + apply NoDup_app. split; [done|]. split; [|apply NoDup_singleton].
      intros x Hx Hx'. apply list_elem_of_singleton in Hx'. by subst.
    + rewrite elem_of_app, list_elem_of_singleton. tauto.
    + intros d Hd. rewrite elem_of_app, list_elem_of_singleton. tauto.
Qed.

Lemma toggleDay_flips_witness :
  NoDup (fd_days sample_form)
  ∧ NoDup (fd_days (toggleDay 3 sample_form))
  ∧ (3 ∈ fd_days (toggleDay 3 sample_form) ↔ 3 ∉ fd_days sample_form).
Proof.
  assert (H : NoDup (fd_days sample_form)).
  { apply (bool_decide_unpack (NoDup (fd_days sample_form))). exact I. }
  destruct (toggleDay_flips 3 sample_form H) as (H1 & H2 & _).
  split; [exact H|]. split; [exact H1|exact H2].
Defined.

(** X25. [addTime] puts one more time, noon, at the end of the times and
    leaves the days and every other field of the form as they are.
    [removeTime] drops the time at a position inside the list and keeps the
    others in order; at a position outside it changes nothing; it leaves
    the days and every other field as they are.  Removing the time that
    [addTime] has just added gives the times back. *)
Theorem time_fields_edit (idx : nat) (fd : FormData) :
  fd_times (addTime fd) = fd_times fd ++ ["12:00"%string]
  ∧ length (fd_times (addTime fd)) = S (length (fd_times fd))
  ∧ fd_days (addTime fd) = fd_days fd
  ∧ (fd_title (addTime fd) = fd_title fd
     ∧ fd_description (addTime fd) = fd_description fd
     ∧ fd_thumbnail (addTime fd) = fd_thumbnail fd
     ∧ fd_firstComment (addTime fd) = fd_firstComment fd)
  ∧ (idx < length (fd_times fd) →
     length (fd_times (removeTime idx fd)) = pred (length (fd_times fd))
     ∧ fd_times (removeTime idx fd)
       = take idx (fd_times fd) ++ drop (S idx) (fd_times fd))%nat
  ∧ (length (fd_times fd) ≤ idx → removeTime idx fd = fd)%nat
  ∧ fd_times (removeTime (length (fd_times fd)) (addTime fd)) = fd_times fd
  ∧ fd_days (removeTime idx fd) = fd_days fd
  ∧ (fd_title (removeTime idx fd) = fd_title fd
     ∧ fd_description (removeTime idx fd) = fd_description fd
     ∧ fd_thumbnail (removeTime idx fd) = fd_thumbnail fd
     ∧ fd_firstComment (removeTime idx fd) = fd_firstComment fd).
Proof.
  unfold removeTime, addTime.
  cbn [fd_times fd_days fd_title fd_description fd_thumbnail fd_firstComment].
  split; [reflexivity|]. split; [rewrite length_app; cbn; lia|].
  split; [reflexivity|]. split; [by repeat split|].
  split; [|split; [|split; [|split; [reflexivity|by repeat split]]]].
  - intros Hlt. split.
    + rewrite length_delete; [lia|]. by apply lookup_lt_is_Some_2.
    + apply delete_take_drop.
  - intros Hge. destruct fd as [t d ts ds th fc]. cbn in *. f_equal.
    rewrite delete_take_drop, take_ge, drop_ge by lia. apply app_nil_r.
  - rewrite delete_take_drop, take_app_length, drop_ge.
    + apply app_nil_r.
    + rewrite length_app. cbn. lia.
Qed.

Lemma time_fields_edit_witness :
  (1 < length (fd_times sample_form))%nat
  ∧ fd_times (addTime sample_form) = ["09:00"; "18:30"; "12:00"]%string
  ∧ fd_times (removeTime 1 sample_form) = ["09:00"%string].
Proof.
  assert (H : (1 < length (fd_times sample_form))%nat) by (cbn; lia).
  destruct (time_fields_edit 1 sample_form) as (Ha & _ & _ & _ & Hr & _).
  split; [exact H|]. split; [exact Ha|]. exact (proj2 (Hr H)).
Defined.

End FormRules.

(** ** Further properties of the scheduling loop *)

Module LoopRules.
Import JsString Json Effects Server System EffectFacts StoreFacts SchedulerFacts
  ProcessFacts Samples.
Local Open Scope eff_scope.

(** X5. While a job has the status [Uploading] and nothing settles or
    resets it, no tick changes anything: after any number of ticks, of any
    outcomes and at any times, the world is as it was. *)
Theorem stale_upload_blocks_ticks (ticks : list (Env * Z)) (w : World) :
  some_uploading (db w) →
  run (map (λ t, OpTick t.1 t.2) ticks) w = w.
Proof.
  intros H. induction ticks as [|[env now] r IH]; [reflexivity|].
  cbn [map run foldl step fst snd].
  rewrite tick_unfold, tick_select_busy by exact H. exact IH.
Qed.

Lemma stale_upload_blocks_ticks_witness :
  let w := world {[1%Z := job "Uploading" 4; 2%Z := job "Pending" 5]} in
  some_uploading (db w)
  ∧ run (map (λ t, OpTick t.1 t.2) [(env_ok, 10%Z); (env_partial, 25%Z)]) w = w.
Proof.
  intros w.
  assert (H : some_uploading (db w)) by (by exists 1%Z, (job "Uploading" 4)).
  split; [exact H|].
  exact (stale_upload_blocks_ticks [(env_ok, 10%Z); (env_partial, 25%Z)] w H).
Defined.

Lemma reset_stuck_fixed d : ¬ some_uploading d → reset_stuck d = d.
Proof.
  intros H. destruct d as [vs n fs st]. unfold reset_stuck, set_videos. cbn.
  f_equal. apply map_eq. intros k. rewrite lookup_fmap.
  destruct (vs !! k) as [v|] eqn:E; [|done]. cbn. f_equal.
  unfold reset_row. destruct (has_status "Uploading" v) eqn:Es; [|done].
  exfalso. apply H. exists k, v. split; [done|]. by apply has_status_true.
Qed.

(** X6. The recovery is idempotent: it reports the number of jobs it has
    reset, and run again it resets none and leaves the database as it
    is. *)
Theorem recovery_idempotent (w : World) :
  let w1 := (update_stuck w).2 in
  (update_stuck w).1 = Ok (count_status "Uploading" (db w))
  ∧ (update_stuck w1).1 = Ok 0%nat
  ∧ db (update_stuck w1).2 = db w1.
Proof.
  cbv zeta. split; [reflexivity|].
  pose proof (reset_stuck_none (db w)) as Hnone.
  change (db (update_stuck w).2) with (reset_stuck (db w)).
  split.
  - change ((update_stuck (update_stuck w).2).1)
      with (Ok (A := nat) (count_status "Uploading" (reset_stuck (db w)))).
    f_equal. apply count_0. intros k v Hk Hs. apply Hnone. by exists k, v.
  - change (db (update_stuck (update_stuck w).2).2)
      with (reset_stuck (reset_stuck (db w))).
    by apply reset_stuck_fixed.
Qed.

(** X7. A whole tick never ends with a job in flight: from a store with no
    job in the status [Uploading] it leads to such a store again, the job it
    has picked ends as [Done] or [Failed], and no other row is touched. *)
Theorem tick_settles_its_job (env : Env) (now : Z) (w : World) :
  ¬ some_uploading (db w) →
  ¬ some_uploading (db (tick env now w).2)
  ∧ (find_next_due now (db w) = None → (tick env now w).2 = w)
  ∧ ∀ id v, find_next_due now (db w) = Some (id, v) →
      (∃ v', videos (db (tick env now w).2) !! id = Some v'
             ∧ (status v' = "Done"%string ∨ status v' = "Failed"%string)
             ∧ scheduledTime v' = scheduledTime v)
      ∧ ∀ k, k ≠ id → videos (db (tick env now w).2) !! k = videos (db w) !! k.
Proof.
  intros H.
  assert (Hpick : ∀ id v, find_next_due now (db w) = Some (id, v) →
            (tick env now w).2
            = (tick_upload env id (with_status "Uploading" v) (marked id w)).2
            ∧ videos (db (marked id w)) !! id = Some (with_status "Uploading" v)).
  { intros id v E. split.
    - by rewrite tick_unfold, (tick_select_pick now w id v H E).
    - apply find_next_due_Some in E as (Hid & _). cbn.
      by rewrite lookup_alter_eq, Hid. }
  split; [|split].
  - destruct (find_next_due now (db w)) as [[id v]|] eqn:E.
    + destruct (Hpick id v eq_refl) as [Et Hrow]. rewrite Et.
      intros (k & x & Hk & Hs). destruct (decide (k = id)) as [->|Hne].
      * rewrite (tick_upload_row _ _ _ _ Hrow) in Hk. injection Hk as <-.
        destruct (settled_status
                    (upload_of env (with_status "Uploading" v) (marked id w)).1
                    (with_status "Uploading" v)) as [E1 | E1];
          rewrite E1 in Hs; discriminate.
      * rewrite tick_upload_others in Hk by exact Hne. cbn in Hk.
        rewrite lookup_alter_ne in Hk by done. apply H. by exists k, x.
    + by rewrite tick_unfold, tick_select_idle.
  - intros E. by rewrite tick_unfold, tick_select_idle.
  - intros id v E. destruct (Hpick id v E) as [Et Hrow]. rewrite Et. split.
    + rewrite (tick_upload_row _ _ _ _ Hrow). eexists. split; [reflexivity|].
      split; [apply settled_status|].
      by destruct ((upload_of env (with_status "Uploading" v) (marked id w)).1).
    + intros k Hk. rewrite tick_upload_others by exact Hk. cbn.
      by rewrite lookup_alter_ne.
Qed.

Lemma tick_settles_its_job_witness :
  let w := world {[1%Z := job "Pending" 9; 2%Z := job "Pending" 4]} in
  ¬ some_uploading (db w)
  ∧ ¬ some_uploading (db (tick env_refused 10 w).2).
Proof.
  intros w.
  assert (H : ¬ some_uploading (db w)) by (by apply find_uploading_None).
  split; [exact H|]. exact (proj1 (tick_settles_its_job env_refused 10 w H)).
Defined.

(** X18. The reset of [initDB] while an upload is outstanding.  Nothing
    orders the reset before the ticks.  When a tick has picked a job that
    had no error, the reset of a start that succeeds then runs, and the
    upload of the tick returns a video id after it: the reset puts the row
    of the job back to [Pending] with its note, and the last [save] of the
    tick, which writes the columns that changed on its instance, stores
    the status [Done] and the id and leaves the note of the reset in the
    error column.  In a tick that nothing comes between, the error of the
    job is empty at the end. *)
Theorem recovery_during_upload
    (env tenv : Env) (now : Z) (w : World) (id : Z) (v : Video) (ytId : string) :
  ¬ some_uploading (db w) →
  find_next_due now (db w) = Some (id, v) →
  started env = true →
  error v = None →
  (upload_of tenv (with_status "Uploading" v) (update_stuck (marked id w)).2).1
  = Ok ytId →
  let p := process env [TurnTickStart now; TurnInit; TurnInit; TurnInit;
                        TurnTickEnd tenv 0] w in
  stage p = InitDone
  ∧ inflight p = []
  ∧ resets (trace (proc_world p)) = S (resets (trace w))
  ∧ (∃ r, videos (db (proc_world p)) !! id = Some r
          ∧ status r = "Done"%string
          ∧ youtubeId r = Some ytId
          ∧ error r = Some "Server restarted during upload"%string)
  ∧ (∀ r, videos (db (tick tenv now w).2) !! id = Some r →
          (upload_of tenv (with_status "Uploading" v) (marked id w)).1 = Ok ytId →
          status r = "Done"%string ∧ youtubeId r = Some ytId ∧ error r = None).
Proof.
  intros Hnone Hdue Hst Herr Hup p.
  destruct (find_next_due_Some now (db w) id v Hdue) as (Hid & _).
  assert (Hstart : process env [TurnTickStart now] w
                   = {| stage := AwaitAuthenticate;
                        inflight := [(id, with_status "Uploading" v)];
                        proc_world := marked id w |}).
  { unfold process, boot. cbn [foldl turn proc_world stage inflight].
    by rewrite (tick_select_pick now w id v Hnone Hdue). }
  assert (Hinit : process env [TurnTickStart now; TurnInit; TurnInit; TurnInit] w
                  = {| stage := InitDone;
                       inflight := [(id, with_status "Uploading" v)];
                       proc_world := (update_stuck (marked id w)).2 |}).
  { change [TurnTickStart now; TurnInit; TurnInit; TurnInit]
      with ([TurnTickStart now] ++ [TurnInit; TurnInit; TurnInit]).
    unfold process in *. rewrite foldl_app, Hstart. cbn [foldl turn].
    unfold init_turn. cbn [stage inflight proc_world].
    unfold started in Hst. destruct (authenticate env) as [u|msg]; [|done].
    destruct (sync env) as [u'|msg]; [|done]. reflexivity. }
  assert (Hp : p = {| stage := InitDone; inflight := [];
                      proc_world := (tick_upload tenv id (with_status "Uploading" v)
                                       (update_stuck (marked id w)).2).2 |}).
  { subst p.
    change [TurnTickStart now; TurnInit; TurnInit; TurnInit; TurnTickEnd tenv 0]
      with ([TurnTickStart now; TurnInit; TurnInit; TurnInit] ++ [TurnTickEnd tenv 0]).
    rewrite process_snoc, Hinit. reflexivity. }
  rewrite Hp. cbn [stage inflight proc_world].
  split; [reflexivity|]. split; [reflexivity|]. split; [|split].
  - rewrite quiet_tick_upload, update_stuck_trace, resets_app, resets_reset.
    cbn [marked trace]. rewrite resets_app.
    change (resets [EvStored id "Uploading"]) with 0%nat. lia.
  - rewrite tick_upload_db, Hup. cbn [videos set_videos settled].
    rewrite lookup_alter_eq.
    change (videos (db (update_stuck (marked id w)).2))
      with (reset_row <$> alter (with_status "Uploading") id (videos (db w))).
    rewrite lookup_fmap, lookup_alter_eq, Hid. cbn.
    eexists. split; [reflexivity|]. cbn. rewrite Herr. cbn.
    split; [reflexivity|]. split; [|reflexivity].
    case_bool_decide as E; [by rewrite E|reflexivity].
  - intros r Hr Hok. rewrite tick_unfold, (tick_select_pick now w id v Hnone Hdue) in Hr.
    rewrite tick_upload_row in Hr by (cbn; by rewrite lookup_alter_eq, Hid).
    rewrite Hok in Hr. injection Hr as <-. by repeat split.
Qed.

Lemma recovery_during_upload_witness :
  let w := world {[1%Z := job "Pending" 4]} in
  let p := process env_ok [TurnTickStart 10; TurnInit; TurnInit; TurnInit;
                           TurnTickEnd env_ok 0] w in
  ∃ r, videos (db (proc_world p)) !! 1%Z = Some r
       ∧ status r = "Done"%string
       ∧ youtubeId r = Some "yt-1"%string
       ∧ error r = Some "Server restarted during upload"%string.
Proof.
  intros w p.
  assert (H1 : ¬ some_uploading (db w)) by (by apply find_uploading_None).
  assert (H2 : find_next_due 10 (db w) = Some (1%Z, job "Pending" 4)) by reflexivity.
  exact (proj1 (proj2 (proj2 (proj2
           (recovery_during_upload env_ok env_ok 10 w 1 (job "Pending" 4) "yt-1"
              H1 H2 eq_refl eq_refl eq_refl))))).
Defined.

End LoopRules.

(** ** Further properties of the upload pipeline *)

Module PipelineRules.
Import JsString Json Effects Server System EffectFacts StoreFacts SchedulerFacts
  Pipeline Samples.
Local Open Scope eff_scope.

(** X8. Without a stored token setting the pipeline throws before it
    calls Drive or YouTube, and the tick leaves the row of the job, which
    was as the instance of the tick had it, with the status [Failed], the
    message that asks to connect the account as the error, and the remote
    id and the content it had. *)
Theorem upload_without_tokens (env : Env) (id : Z) (job : Video) (w : World) :
  settings (db w) !! "google_tokens"%string = None →
  videos (db w) !! id = Some job →
  upload_of env job w
  = (Throw no_tokens_message,
     {| db := db w; trace := trace w ++ [EvPipeline (driveFileId job)] |})
  ∧ ∃ r, videos (db (tick_upload env id job w).2) !! id = Some r
         ∧ status r = "Failed"%string
         ∧ error r = Some "No tokens found. Please connect Google account."%string
         ∧ youtubeId r = youtubeId job
         ∧ same_content r job.
Proof.
  intros Hs Hid.
  assert (E : upload_of env job w
              = (Throw no_tokens_message,
                 {| db := db w; trace := trace w ++ [EvPipeline (driveFileId job)] |})).
  { cbv beta iota delta
      [upload_of processUpload eff_bind log modify getStoredTokens read].
    cbn [db trace fst snd]. rewrite Hs. reflexivity. }
  split; [exact E|].
  eexists. split; [by apply tick_upload_row|]. rewrite E. repeat split.
Qed.

Lemma upload_without_tokens_witness :
  let w := {| db := {| videos := {[1%Z := job "Uploading" 4]}; next_id := 2;
                       favorites := []; settings := ∅ |};
              trace := [] |} in
  settings (db w) !! "google_tokens"%string = None
  ∧ videos (db w) !! 1%Z = Some (job "Uploading" 4)
  ∧ ∃ r, videos (db (tick_upload env_ok 1 (job "Uploading" 4) w).2) !! 1%Z = Some r
         ∧ status r = "Failed"%string
         ∧ error r = Some "No tokens found. Please connect Google account."%string.
Proof.
  intros w.
  assert (H1 : settings (db w) !! "google_tokens"%string = None) by reflexivity.
  assert (H2 : videos (db w) !! 1%Z = Some (job "Uploading" 4)) by reflexivity.
  split; [exact H1|]. split; [exact H2|].
  destruct (upload_without_tokens env_ok 1 (job "Uploading" 4) w H1 H2)
    as (_ & r & Hr & Hs & He & _).
  by exists r.
Defined.

(** X9. When the download from Drive throws, the pipeline throws with the
    same message and has called nothing of YouTube: it recorded its start
    and nothing else, and the tick leaves the row of the job, which was as
    the instance of the tick had it, with the status [Failed], that message
    as the error, and the remote id and the content it had. *)
Theorem upload_download_fails (env : Env) (id : Z) (job : Video)
    (w : World) (msg : string) :
  connected (db w) = true →
  drive_files_get env (driveFileId job) = Throw msg →
  videos (db w) !! id = Some job →
  upload_of env job w
  = (Throw msg, {| db := db w; trace := trace w ++ [EvPipeline (driveFileId job)] |})
  ∧ ∃ r, videos (db (tick_upload env id job w).2) !! id = Some r
         ∧ status r = "Failed"%string
         ∧ error r = Some msg
         ∧ youtubeId r = youtubeId job
         ∧ same_content r job.
Proof.
  intros Hc Hd Hid.
  assert (E : upload_of env job w
              = (Throw msg,
                 {| db := db w; trace := trace w ++ [EvPipeline (driveFileId job)] |})).
  { unfold upload_of, processUpload.
    unfold eff_bind at 1. cbn [log modify fst snd]. unfold eff_bind at 1.
    destruct (getStoredTokens_connected
                {| db := db w; trace := trace w ++ [EvPipeline (driveFileId job)] |} Hc)
      as (tokens & Et & Hp).
    cbv beta iota delta [log modify]. rewrite Et, Hp. cbn [negb].
    destruct (parse_tags (description job) (tags job) (hashtags job)) as [tgs fdesc].
    unfold eff_bind at 1. unfold lift at 1. by rewrite Hd. }
  split; [exact E|].
  eexists. split; [by apply tick_upload_row|]. rewrite E. repeat split.
Qed.

Lemma upload_download_fails_witness :
  let w := world {[1%Z := job "Uploading" 4]} in
  connected (db w) = true
  ∧ drive_files_get env_offline "file-1" = Throw "File not found"
  ∧ videos (db w) !! 1%Z = Some (job "Uploading" 4)
  ∧ ∃ r, videos (db (tick_upload env_offline 1 (job "Uploading" 4) w).2) !! 1%Z
         = Some r
         ∧ status r = "Failed"%string
         ∧ error r = Some "File not found"%string.
Proof.
  intros w.
  assert (H1 : connected (db w) = true) by reflexivity.
  assert (H2 : drive_files_get env_offline "file-1" = Throw "File not found")
    by reflexivity.
  assert (H3 : videos (db w) !! 1%Z = Some (job "Uploading" 4)) by reflexivity.
  repeat (split; [assumption|]).
  destruct (upload_download_fails env_offline 1 (job "Uploading" 4) w
              "File not found" H1 H2 H3) as (_ & r & Hr & Hs & He & _).
  by exists r.
Defined.

(** X10. A job created with tags that are a JSON object can never be
    uploaded: the routes store the object as the tags text, and the pipeline,
    after it has downloaded the file, throws on the call of [slice] before
    the insert, so that the tick stores the job as [Failed]. *)
Theorem object_tags_fail_upload (env : Env) (f : JobFields) (v : Video)
    (fields : list (string * Json)) (w : World) :
  jf_tags f = Some (JObj fields) →
  row_of_create f = Some v ∨ row_of_bulk f = Some v →
  connected (db w) = true →
  drive_files_get env (driveFileId v) = Ok tt →
  upload_of env v w
  = (Throw "tags.slice is not a function",
     {| db := db w;
        trace := trace w ++ [EvPipeline (driveFileId v);
                             EvDownloaded (driveFileId v)] |}).
Proof.
  intros Ht Hrow Hc Hd.
  assert (Htags : tags v = Some (Encodes (JObj fields))).
  { unfold row_of_create, row_of_bulk in Hrow.
    destruct (jf_driveFileId f), (jf_scheduledTime f);
      destruct Hrow as [Hrow | Hrow]; try discriminate;
      injection Hrow as <-; cbn; by rewrite Ht. }
  unfold upload_of, processUpload.
  unfold eff_bind at 1. cbn [log modify fst snd]. unfold eff_bind at 1.
  destruct (getStoredTokens_connected
              {| db := db w; trace := trace w ++ [EvPipeline (driveFileId v)] |} Hc)
    as (tokens & Et & Hp).
  cbv beta iota delta [log modify]. rewrite Et, Hp. cbn [negb].
  assert (Hpt : (parse_tags (description v) (tags v) (hashtags v)).1 = JObj fields).
  { unfold parse_tags. rewrite Htags. cbn [text_truthy parse].
    repeat case_match; reflexivity. }
  destruct (parse_tags (description v) (tags v) (hashtags v)) as [tgs fdesc].
  cbn [fst] in Hpt. subst tgs.
  unfold eff_bind at 1. unfold lift at 1. rewrite Hd.
  unfold eff_bind at 1. cbn [db trace].
  unfold eff_bind at 1. unfold lift at 1. cbn. by rewrite <- app_assoc.
Qed.

Lemma object_tags_fail_upload_witness :
  let f := {| jf_driveFileId := Some "file-1"%string; jf_title := None;
              jf_description := None; jf_thumbnail := None;
              jf_firstComment := None;
              jf_tags := Some (JObj [("a"%string, JNum "1")]);
              jf_hashtags := None; jf_scheduledTime := Some 3%Z;
              jf_status := None; jf_youtubeId := None; jf_error := None |} in
  ∃ v, jf_tags f = Some (JObj [("a"%string, JNum "1")])
       ∧ row_of_create f = Some v
       ∧ connected (db (world ∅)) = true
       ∧ drive_files_get env_ok (driveFileId v) = Ok tt
       ∧ (upload_of env_ok v (world ∅)).1 = Throw "tags.slice is not a function".
Proof.
  intros f. eexists.
  assert (H1 : jf_tags f = Some (JObj [("a"%string, JNum "1")])) by reflexivity.
  split; [exact H1|]. split; [reflexivity|]. split; [reflexivity|].
  split; [reflexivity|].
  by rewrite (object_tags_fail_upload env_ok f _ _ (world ∅) H1
                (or_introl eq_refl) eq_refl eq_refl).
Defined.

End PipelineRules.

Module RequestRules.
Import JsString Json Effects Server System EffectFacts StoreFacts SchedulerFacts
  Pipeline Samples.
Local Open Scope eff_scope.

Lemma take_chars_length n s : (String.length (take_chars n s) ≤ n)%nat.
Proof.
  revert s. induction n as [|n IH]; intros [|c r]; cbn; try lia.
  specialize (IH r). lia.
Qed.

Lemma take_chars_short n s : (String.length s ≤ n)%nat → take_chars n s = s.
Proof.
  revert s. induction n as [|n IH]; intros [|c r]; cbn; try done; [lia|].
  intros H. f_equal. apply IH. lia.
Qed.

Lemma or_default_nonempty o d : d ≠ EmptyString → or_default o d ≠ EmptyString.
Proof. intros Hd. destruct o as [[|c r]|]; cbn; done. Qed.

(** X11. The request sent to the YouTube insert call keeps the limits of
    the code: a title of 1 to 100 characters ([Untitled Video] when the
    job has none), which is the title of the job when that has up to 100
    characters; at most 50 tags, the first ones of the stored tags; the
    category 22 and the privacy status private. *)
Theorem snippet_limits (title : option string) (finalDescription : string)
    (tgs : Json) (sn : Snippet) :
  build_snippet title finalDescription tgs = Ok sn →
  (1 ≤ String.length (sn_title sn) ≤ 100)%nat
  ∧ (truthy title = false → sn_title sn = "Untitled Video"%string)
  ∧ (∀ s, title = Some s → truthy title = true →
          (String.length s ≤ 100)%nat → sn_title sn = s)
  ∧ sn_description sn = finalDescription
  ∧ sn_categoryId sn = "22"%string
  ∧ sn_privacyStatus sn = "private"%string
  ∧ match tgs with
    | JArr items => sn_tags sn = Some (JArr (take 50 items))
                    ∧ (length (take 50 items) ≤ 50)%nat
    | JStr s => sn_tags sn = Some (JStr (take_chars 50 s))
    | _ => False
    end.
Proof.
  unfold build_snippet. intros H.
  assert (Htitle : (1 ≤ String.length (take_chars 100 (or_default title "Untitled Video"))
                    ≤ 100)%nat).
  { split; [|apply take_chars_length].
    pose proof (or_default_nonempty title "Untitled Video" ltac:(discriminate)) as Hne.
    destruct (or_default title "Untitled Video") as [|c r]; [done|]. cbn. lia. }
  unfold slice_front in H.
  destruct tgs as [| b | repr | s | items | fields]; try discriminate;
    injection H as <-; cbn [sn_title sn_description sn_categoryId sn_privacyStatus sn_tags].
  - repeat split; try apply Htitle.
    + intros Ht. destruct title as [[|c r]|]; done.
    + intros s0 -> Ht Hl. destruct s0 as [|c r]; [done|].
      change (take_chars 100 (String c r) = String c r).
      by apply take_chars_short.
  - repeat split; try apply Htitle.
    + intros Ht. destruct title as [[|c r]|]; done.
    + intros s0 -> Ht Hl. destruct s0 as [|c r]; [done|].
      change (take_chars 100 (String c r) = String c r).
      by apply take_chars_short.
    + rewrite length_take. lia.
Qed.

Lemma snippet_limits_witness :
  ∃ sn, build_snippet (Some "clip"%string) "text"
          (JArr (replicate 60 (JStr "t"))) = Ok sn
        ∧ sn_title sn = "clip"%string
        ∧ sn_tags sn = Some (JArr (replicate 50 (JStr "t"))).
Proof.
  eexists. split; [reflexivity|].
  destruct (snippet_limits (Some "clip"%string) "text"
              (JArr (replicate 60 (JStr "t"))) _ eq_refl)
    as (_ & _ & Ht & _ & _ & _ & Hg & _).
  split; [|exact Hg].
  apply (Ht "clip"%string eq_refl eq_refl). cbn. lia.
Defined.



(** X13. The suggestion route always answers with status 200 and a JSON
    body, and leaves the world as it is: the suggestion of the model when
    the call and the parsing succeed, the fallback otherwise. *)
Theorem suggest_route_always_answers (env : Env) (filename : option string)
    (w : World) :
  ∃ v, get_metadata_suggest env filename w = (Ok (ok (BJson v)), w)
       ∧ (failed_suggestion env filename = true → v = fallback_metadata filename)
       ∧ (∀ text data, generateContent env filename = Ok text →
                       parse_reply env (clean_reply text) = Some data → v = data).
Proof.
  unfold get_metadata_suggest, handler, try_catch, eff_bind.
  rewrite generateMetadata_run. eexists. split; [reflexivity|].
  unfold failed_suggestion.
  destruct (generateContent env filename) as [text|msg]; split; try done.
  - by destruct (parse_reply env (clean_reply text)).
  - intros text' data [= <-] ->. reflexivity.
Qed.

End RequestRules.

Module ListingRules.
Import JsString Json Effects Server System EffectFacts StoreFacts Samples.
Local Open Scope eff_scope.

Lemma insert_desc_perm kv l : insert_desc kv l ≡ₚ kv :: l.
Proof.
  induction l as [|x r IH]; cbn; [done|].
  case_match; [done|]. rewrite IH. apply Permutation_swap.
Qed.

Lemma sort_desc_perm l : sort_desc l ≡ₚ l.
Proof.
  induction l as [|x r IH]; cbn; [done|].
  fold (sort_desc r). by rewrite insert_desc_perm, IH.
Qed.

Lemma descending_insert kv l : descending l → descending (insert_desc kv l).
Proof.
  induction l as [|x r IH]; cbn.
  - intros _. split; [|done]. intros kv' H. by apply elem_of_nil in H.
  - intros [Hx Hr].
    destruct (Z.leb_spec (scheduledTime x.2) (scheduledTime kv.2)) as [Hle | Hgt].
    + cbn. split; [|by split]. intros kv' Hin.
      apply elem_of_cons in Hin as [-> | Hin]; [done|].
      specialize (Hx kv' Hin). lia.
    + cbn. split; [|by apply IH]. intros kv' Hin.
      rewrite insert_desc_perm in Hin.
      apply elem_of_cons in Hin as [-> | Hin]; [lia|by apply Hx].
Qed.

Lemma descending_sort l : descending (sort_desc l).
Proof.
  induction l as [|x r IH]; cbn; [done|]. by apply descending_insert.
Qed.

Lemma descending_split n l :
  descending l →
  descending (take n l)
  ∧ ∀ x y, x ∈ take n l → y ∈ drop n l →
           (scheduledTime y.2 ≤ scheduledTime x.2)%Z.
Proof.
  revert n. induction l as [|a r IH]; intros [|n]; cbn; intros H.
  - split; [done|]. intros x y Hx. by apply elem_of_nil in Hx.
  - split; [done|]. intros x y Hx. by apply elem_of_nil in Hx.
  - split; [done|]. intros x y Hx. by apply elem_of_nil in Hx.
  - destruct H as [Ha Hr]. destruct (IH n Hr) as [Ht Hd]. split.
    + split; [|done]. intros kv' Hin. apply Ha.
      by apply (subseteq_take n r).
    + intros x y Hx Hy. apply elem_of_cons in Hx as [-> | Hx].
      * apply Ha. by apply (subseteq_drop n r).
      * by apply Hd.
Qed.

(** X14. The listing route answers with the jobs of the table in
    descending order of the scheduled time, each once, and at most 50 of
    them: all the jobs when there are up to 50, and otherwise 50 jobs such
    that no job left out is scheduled later than a job listed. *)
Theorem schedule_listing (w : World) :
  ∃ rows,
    get_schedule w = (Ok (ok (BVideos rows)), w)
    ∧ length rows = min 50 (size (videos (db w)))
    ∧ descending rows
    ∧ NoDup rows
    ∧ (∀ k v, (k, v) ∈ rows → videos (db w) !! k = Some v)
    ∧ (∀ k v, videos (db w) !! k = Some v →
         (k, v) ∈ rows
         ∨ (length rows = 50%nat
            ∧ ∀ kv, kv ∈ rows → (scheduledTime v ≤ scheduledTime kv.2)%Z)).
Proof.
  exists (take 50 (sort_desc (map_to_list (videos (db w))))).
  pose proof (sort_desc_perm (map_to_list (videos (db w)))) as Hperm.
  pose proof (descending_split 50 _ (descending_sort (map_to_list (videos (db w)))))
    as [Hdesc Hcut].
  set (sorted := sort_desc (map_to_list (videos (db w)))) in *.
  assert (Hlen : length sorted = size (videos (db w))).
  { rewrite Hperm. apply length_map_to_list. }
  split; [reflexivity|]. split; [|split; [exact Hdesc|split; [|split]]].
  - rewrite length_take, Hlen. lia.
  - apply (sublist_NoDup _ sorted); [|apply sublist_take].
    rewrite Hperm. apply NoDup_map_to_list.
  - intros k v Hin. apply elem_of_map_to_list. rewrite <- Hperm.
    by apply (subseteq_take 50 sorted).
  - intros k v Hk.
    assert (Hin : (k, v) ∈ sorted)
      by (rewrite Hperm; by apply elem_of_map_to_list).
    rewrite <- (take_drop 50 sorted) in Hin.
    apply elem_of_app in Hin as [Hin | Hin]; [by left|]. right. split.
    + rewrite length_take. apply Nat.min_l.
      destruct (decide (50 ≤ length sorted)%nat) as [|Hn]; [done|].
      rewrite drop_ge in Hin by lia. by apply elem_of_nil in Hin.
    + intros kv Hkv. by apply (Hcut kv (k, v)).
Qed.

End ListingRules.

Module StoreRules.
Import JsString Json Effects Server System EffectFacts StoreFacts SchedulerFacts
  Pipeline Samples.
Local Open Scope eff_scope.

Lemma omap_cons_file (f : Favorite) (r : list Favorite) :
  omap fav_driveFileId (f :: r)
  = match fav_driveFileId f with
    | Some k => k :: omap fav_driveFileId r
    | None => omap fav_driveFileId r
    end.
Proof. reflexivity. Qed.

Lemma same_file_exists k (l : list Favorite) :
  existsb (same_file (Some k)) l = true ↔ k ∈ omap fav_driveFileId l.
Proof.
  induction l as [|f r IH]; [cbn; by rewrite elem_of_nil|].
  rewrite omap_cons_file. cbn [existsb]. rewrite orb_true_iff, IH.
  unfold same_file. destruct (fav_driveFileId f) as [k'|].
  - rewrite elem_of_cons, String.eqb_eq. tauto.
  - split; [intros [?|?]; done|auto].
Qed.

Lemma omap_filter_other k (l : list Favorite) :
  omap fav_driveFileId (filter (λ f, same_file (Some k) f = false) l)
  = filter (λ x, x ≠ k) (omap fav_driveFileId l).
Proof.
  induction l as [|f r IH]; [done|].
  rewrite filter_cons, omap_cons_file.
  destruct (same_file (Some k) f) eqn:Es.
  - rewrite decide_False by done. unfold same_file in Es.
    destruct (fav_driveFileId f) as [k'|]; [|done].
    apply String.eqb_eq in Es. subst k'.
    rewrite filter_cons, decide_False by auto. exact IH.
  - rewrite decide_True by done. rewrite omap_cons_file. unfold same_file in Es.
    destruct (fav_driveFileId f) as [k'|]; [|exact IH].
    apply String.eqb_neq in Es.
    rewrite filter_cons, decide_True by auto. by rewrite IH.
Qed.

(** X15. The favorites keep one row per file: a favorite of a file that is
    already there is refused with status 500 and leaves the favorites as
    they are; a favorite of another file, whose file id and name have up to
    255 characters, is added at the end; the delete route removes the
    favorite of its file and no other.  Both keep the file ids of the table
    free of duplicates, and neither touches the jobs. *)
Theorem favorites_unique (f : Favorite) (k : string) (w : World) :
  NoDup (favorite_ids (db w)) →
  NoDup (favorite_ids (db (post_favorites f w).2))
  ∧ NoDup (favorite_ids (db (delete_favorites k w).2))
  ∧ (fav_driveFileId f = Some k → k ∈ favorite_ids (db w) →
     favorites (db (post_favorites f w).2) = favorites (db w)
     ∧ ∃ msg, (post_favorites f w).1 = Ok {| code := 500; body := BError msg |})
  ∧ (fav_driveFileId f = Some k → k ∉ favorite_ids (db w) →
     storable_favorite f = true →
     (post_favorites f w).1 = Ok {| code := 200; body := BFavorite f |}
     ∧ favorites (db (post_favorites f w).2) = favorites (db w) ++ [f])
  ∧ (k ∉ favorite_ids (db (delete_favorites k w).2))
  ∧ (∀ k', k' ≠ k →
       (k' ∈ favorite_ids (db (delete_favorites k w).2) ↔ k' ∈ favorite_ids (db w)))
  ∧ (delete_favorites k w).1 = Ok {| code := 200; body := BSuccess |}
  ∧ videos (db (delete_favorites k w).2) = videos (db w)
  ∧ videos (db (post_favorites f w).2) = videos (db w).
Proof.
  intros Hnd. unfold favorite_ids in *.
  assert (Hdel : favorites (db (delete_favorites k w).2)
                 = filter (λ f, same_file (Some k) f = false) (favorites (db w)))
    by reflexivity.
  assert (Hpost : post_favorites f w
                  = if existsb (same_file (fav_driveFileId f)) (favorites (db w))
                    then (Ok {| code := 500; body := BError unique_violation |}, w)
                    else (Ok (ok (BFavorite f)),
                          set_db (set_favorites (favorites (db w) ++ [f]) (db w)) w)).
  { unfold post_favorites, handler, try_catch, eff_bind, get.
    by destruct (existsb (same_file (fav_driveFileId f)) (favorites (db w))). }
  split; [|split; [|split; [|split; [|split; [|split; [|split; [|split]]]]]]].
  - rewrite Hpost.
    destruct (existsb (same_file (fav_driveFileId f)) (favorites (db w))) eqn:E;
      [done|].
    cbn. rewrite omap_app. cbn. destruct (fav_driveFileId f) as [k0|] eqn:Ef; cbn.
    + apply NoDup_app. split; [done|]. split; [|apply NoDup_singleton].
      intros x Hx Hx'. apply list_elem_of_singleton in Hx'. subst x.
      apply same_file_exists in Hx. congruence.
    + by rewrite app_nil_r.
  - rewrite Hdel, omap_filter_other. by apply NoDup_filter.
  - intros Ef Hin. rewrite Hpost, Ef.
    apply same_file_exists in Hin. rewrite Hin. split; [reflexivity|by eexists].
  - intros Ef Hnin _. rewrite Hpost, Ef.
    destruct (existsb (same_file (Some k)) (favorites (db w))) eqn:E; [|done].
    apply same_file_exists in E. contradiction.
  - rewrite Hdel, omap_filter_other, list_elem_of_filter. tauto.
  - intros k' Hne. rewrite Hdel, omap_filter_other, list_elem_of_filter. tauto.
  - reflexivity.
  - reflexivity.
  - rewrite Hpost.
    by destruct (existsb (same_file (fav_driveFileId f)) (favorites (db w))).
Qed.

Lemma favorites_unique_witness :
  let fav := {| fav_driveFileId := Some "file-1"%string; fav_name := Some "clip"%string;
                fav_thumbnailLink := None |} in
  let w := (post_favorites fav (world ∅)).2 in
  NoDup (favorite_ids (db w))
  ∧ favorites (db (post_favorites fav w).2) = [fav]
  ∧ "file-1"%string ∉ favorite_ids (db (delete_favorites "file-1" w).2).
Proof.
  intros fav w.
  assert (H : NoDup (favorite_ids (db w))).
  { apply (bool_decide_unpack (NoDup (favorite_ids (db w)))). exact I. }
  destruct (favorites_unique fav "file-1" w H) as (_ & _ & H3 & _ & H5 & _).
  split; [exact H|]. split; [|exact H5].
  apply H3; [reflexivity|]. apply list_elem_of_singleton. reflexivity.
Defined.

(** X16. The exchange route stores the tokens it obtained, and the
    pipeline reads back the very same value: the store is connected
    afterwards exactly when the tokens are truthy.  When the exchange throws
    the route answers with status 500 and the message, and stores
    nothing. *)
Theorem exchange_stores_tokens (env : Env) (code : option string) (w : World) :
  (∀ tokens, getToken env code = Ok tokens →
     let w' := (post_auth_exchange env code w).2 in
     (post_auth_exchange env code w).1 = Ok (ok BSuccess)
     ∧ getStoredTokens w' = (Ok (Some tokens), w')
     ∧ connected (db w') = js_truthy tokens
     ∧ videos (db w') = videos (db w)
     ∧ trace w' = trace w)
  ∧ (∀ msg, getToken env code = Throw msg →
       post_auth_exchange env code w
       = (Ok {| code := 500; body := BError msg |}, w)).
Proof.
  unfold post_auth_exchange, handler, try_catch, eff_bind, lift.
  split.
  - intros tokens ->. cbn.
    unfold getStoredTokens, connected, eff_bind, read. cbn.
    rewrite lookup_insert_eq. cbn. repeat split.
  - intros msg ->. reflexivity.
Qed.

(** X17. The delete route touches the row of its key only: every other row
    stays, a key of the key column that has no row leaves the world as it
    is with the answer of success, and a parameter that is not an integer
    of the key column is refused with status 500 and changes nothing.  The
    route never moves the next key. *)
Theorem delete_touches_one_row (id : Z) (w : World) :
  (∀ k, k ≠ id →
     videos (db (delete_schedule (Some id) w).2) !! k = videos (db w) !! k)
  ∧ (in_key_range id = true → videos (db w) !! id = None →
     delete_schedule (Some id) w = (Ok {| code := 200; body := BSuccess |}, w))
  ∧ (delete_schedule None w).2 = w
  ∧ (∃ msg, (delete_schedule None w).1 = Ok {| code := 500; body := BError msg |})
  ∧ next_id (db (delete_schedule (Some id) w).2) = next_id (db w)
  ∧ trace (delete_schedule (Some id) w).2 = trace w.
Proof.
  split; [|split; [|split; [|split; [|split]]]].
  - intros k Hk. rewrite delete_schedule_db. unfold destroy_pending.
    destruct (videos (db w) !! id) as [v|]; [|done].
    destruct (has_status "Pending" v); [|done]. cbn. by rewrite lookup_delete_ne.
  - intros _ Hid. unfold delete_schedule, handler, try_catch, eff_bind, modify.
    cbn. unfold destroy_pending. rewrite Hid. by destruct w.
  - reflexivity.
  - eexists. reflexivity.
  - rewrite delete_schedule_db. unfold destroy_pending.
    destruct (videos (db w) !! id) as [v|]; [|done].
    by destruct (has_status "Pending" v).
  - reflexivity.
Qed.

Lemma delete_touches_one_row_witness :
  let w := world {[1%Z := job "Pending" 4]} in
  in_key_range 7 = true
  ∧ videos (db w) !! 7%Z = None
  ∧ delete_schedule (Some 7%Z) w = (Ok {| code := 200; body := BSuccess |}, w).
Proof.
  intros w. split; [reflexivity|]. split; [reflexivity|].
  exact (proj1 (proj2 (delete_touches_one_row 7 w)) eq_refl eq_refl).
Defined.

End StoreRules.

Module KeyRules.
Import JsString Json Effects Server System EffectFacts StoreFacts SchedulerFacts
  Pipeline Samples.
Local Open Scope eff_scope.

Lemma well_keyed_sub d d' :
  (∀ k, is_Some (videos d' !! k) → is_Some (videos d !! k)) →
  (next_id d ≤ next_id d')%Z → well_keyed d → well_keyed d'.
Proof. intros Hsub Hn H k Hk. specialize (H k (Hsub k Hk)). lia. Qed.

Lemma well_keyed_alter f id d :
  well_keyed d → well_keyed (set_videos (alter f id (videos d)) d).
Proof.
  apply well_keyed_sub; [|done]. intros k. cbn. rewrite lookup_alter.
  case_decide; [subst k; by rewrite fmap_is_Some|done].
Qed.

Lemma well_keyed_reset d : well_keyed d → well_keyed (reset_stuck d).
Proof.
  apply well_keyed_sub; [|done]. intros k. cbn.
  by rewrite lookup_fmap, fmap_is_Some.
Qed.

Lemma well_keyed_destroy id d : well_keyed d → well_keyed (destroy_pending id d).
Proof.
  unfold destroy_pending. destruct (videos d !! id) as [v|]; [|done].
  destruct (has_status "Pending" v); [|done].
  apply well_keyed_sub; [|done]. intros k. cbn. rewrite lookup_delete.
  case_decide; [by intros []|done].
Qed.






End KeyRules.

(** ** From the form to the job table *)

Module EndToEnd.
Import JsString JsDate App Json Effects Server System EffectFacts StoreFacts
  SchedulerFacts DateFacts ExpanderFacts KeyRules Samples.
Local Open Scope eff_scope.


Lemma rows_of_bulk_missing (l : list JobFields) f :
  f ∈ l → row_of_bulk f = None → rows_of_bulk l = None.
Proof.
  induction l as [|x r IH]; intros Hin Hf; [by apply elem_of_nil in Hin|].
  apply elem_of_cons in Hin as [<- | Hin]; cbn.
  - by rewrite Hf.
  - rewrite (IH Hin Hf). by destruct (row_of_bulk x).
Qed.






Lemma candidate_invalid tza now date0 dayIndex s :
  (parse_time s).1 = None ∨ (parse_time s).2 = None →
  occurrence tza now date0 dayIndex s = None.
Proof.
  intros H. unfold occurrence, candidate.
  destruct (parse_time s) as [[h|] [m|]]; cbn [fst snd] in H;
    try (destruct H; discriminate); reflexivity.
Qed.

Lemma each_time_member tza now clock vid fd k d ts s :
  s ∈ ts → ∃ k', schedule_entry tza now clock vid fd k' d s
                  ∈ each_time tza now clock vid fd k d ts.
Proof.
  revert k. induction ts as [|t r IH]; intros k Hin; [by apply elem_of_nil in Hin|].
  apply elem_of_cons in Hin as [-> | Hin]; cbn [each_time].
  - exists k. apply elem_of_cons. by left.
  - destruct (IH (S k) Hin) as [k' Hk']. exists k'. apply elem_of_cons. by right.
Qed.

(** X21. A time field that does not parse (a cleared field, for one) gives
    entries whose scheduled time is an Invalid Date, and the bulk route
    refuses the whole request because of them: it answers with status 500
    and stores none of the entries, not even those of the times that are
    valid. *)
Theorem unparsed_time_rejects_request
    (tza now : Z) (clock : nat → N) (vid : string) (fd : FormData)
    (s : string) (w : World) :
  fd_days fd ≠ [] →
  s ∈ fd_times fd →
  (parse_time s).1 = None ∨ (parse_time s).2 = None →
  ∃ schedules,
    posted (submitSchedule tza now clock (Some vid) fd true) = Some schedules
    ∧ (∃ e, e ∈ schedules ∧ s_scheduledTime e = None)
    ∧ (∃ msg, (post_schedule_bulk (Some (map entry_of_schedule schedules)) w).1
              = Ok {| code := 500; body := BError msg |})
    ∧ videos (db (post_schedule_bulk (Some (map entry_of_schedule schedules)) w).2)
      = videos (db w)
    ∧ trace (post_schedule_bulk (Some (map entry_of_schedule schedules)) w).2
      = trace w.
Proof.
  intros Hd Hs Hp. unfold submitSchedule.
  destruct (fd_days fd) as [|d ds] eqn:Ed; [done|].
  destruct (fd_times fd) as [|t ts] eqn:Et; [by apply elem_of_nil in Hs|].
  cbn [length Nat.eqb posted].
  exists (expand tza now clock vid fd). split; [reflexivity|].
  assert (He : ∃ e, e ∈ expand tza now clock vid fd ∧ s_scheduledTime e = None).
  { unfold expand. rewrite Ed. cbn [each_day]. rewrite Et.
    destruct (each_time_member tza now clock vid fd 0 d (t :: ts) s Hs) as [k Hk].
    eexists. split; [apply elem_of_app; left; exact Hk|].
    cbn [schedule_entry s_scheduledTime]. by apply candidate_invalid. }
  split; [exact He|]. destruct He as (e & Hin & Hnone).
  unfold post_schedule_bulk, handler, try_catch, eff_bind.
  rewrite (rows_of_bulk_missing _ (entry_of_schedule e)).
  - split; [by eexists|]. by split.
  - apply list_elem_of_fmap. by exists e.
  - unfold row_of_bulk, entry_of_schedule. cbn. by rewrite Hnone.
Qed.

Lemma unparsed_time_rejects_request_witness :
  let fd := {| fd_title := None; fd_description := None;
               fd_times := ["09:00"; ""]%string; fd_days := [1%Z];
               fd_thumbnail := None; fd_firstComment := None |} in
  fd_days fd ≠ []
  ∧ ""%string ∈ fd_times fd
  ∧ ((parse_time "").1 = None ∨ (parse_time "").2 = None)
  ∧ ∃ schedules,
      posted (submitSchedule 0 1706745599999 (λ _, 0%N) (Some "file"%string) fd true)
      = Some schedules
      ∧ videos (db (post_schedule_bulk (Some (map entry_of_schedule schedules))
                      (world ∅)).2) = ∅.
Proof.
  intros fd.
  assert (H1 : fd_days fd ≠ []) by discriminate.
  assert (H2 : ""%string ∈ fd_times fd)
    by (apply elem_of_cons; right; apply elem_of_cons; by left).
  assert (H3 : (parse_time "").1 = None ∨ (parse_time "").2 = None)
    by (left; reflexivity).
  repeat (split; [assumption|]).
  destruct (unparsed_time_rejects_request 0 1706745599999 (λ _, 0%N) "file" fd ""
              (world ∅) H1 H2 H3) as (schedules & Hp & _ & _ & Hv & _).
  exists schedules. split; [exact Hp|exact Hv].
Defined.

End EndToEnd.

(** ** The earlier server, the first comment and the reply of the model *)

Module VersionRules.
Import JsString Json Effects Server System EffectFacts StoreFacts SchedulerFacts
  Pipeline Samples.
Local Open Scope eff_scope.

Lemma changed_settled r job :
  status job = "Uploading"%string → changed job (settled r job) = true.
Proof. intros H. unfold changed. destruct r; cbn; by rewrite H. Qed.

(** X22. The second part of a tick of the earlier server, for a job in the
    status [Uploading] whose row is as the instance of the tick had it: it
    returns, leaves the row with the content it had and the status [Done],
    the id of the video as the remote id and no error when its pipeline
    returns, or the status [Failed] and the message as the error when its
    pipeline throws, and changes no other row.  It does nothing else after
    the pipeline: it adds the last [save] to the trace and no
    notification.  While a job is uploading a tick changes nothing. *)
Theorem tick_v1_outcome (env : Env) (now : Z) (id : Z) (job : Video) (w : World) :
  videos (db w) !! id = Some job →
  status job = "Uploading"%string →
  let pr := ServerV1.processUpload env (driveFileId job) (title job)
              (description job) (thumbnail job) (firstComment job) w in
  let w' := (ServerV1.tick_upload env id job w).2 in
  (ServerV1.tick_upload env id job w).1 = Ok tt
  ∧ trace w' = trace pr.2 ++ [EvStored id match pr.1 with
                                          | Ok _ => "Done"%string
                                          | Throw _ => "Failed"%string
                                          end]
  ∧ (∃ r, videos (db w') !! id = Some r
          ∧ same_content r job
          ∧ match pr.1 with
            | Ok ytId =>
                status r = "Done"%string ∧ youtubeId r = Some ytId ∧ error r = None
            | Throw msg =>
                status r = "Failed"%string ∧ error r = Some msg
                ∧ youtubeId r = youtubeId job
            end)
  ∧ (∀ k, k ≠ id → videos (db w') !! k = videos (db w) !! k)
  ∧ (ServerV1.tick env now w).2 = w.
Proof.
  intros Hid Hst pr w'.
  assert (E : ServerV1.tick_upload env id job w
              = (Ok tt,
                 {| db := set_videos (alter (write_changed job (settled pr.1 job)) id
                                            (videos (db w))) (db w);
                    trace := trace pr.2 ++ [EvStored id (status (settled pr.1 job))] |})).
  { subst pr. unfold ServerV1.tick_upload, eff_bind, attempt.
    pose proof (processUpload_v1_keeps_db env (driveFileId job) (title job)
                  (description job) (thumbnail job) (firstComment job) w) as Hdb.
    destruct (ServerV1.processUpload env (driveFileId job) (title job)
                (description job) (thumbnail job) (firstComment job) w)
      as [r w1]. cbn [fst snd] in *.
    change (match r with
            | Ok ytId => with_outcome "Done" (Some ytId) None job
            | Throw msg => with_outcome "Failed" (youtubeId job) (Some msg) job
            end) with (settled r job).
    by rewrite save_run, changed_settled, Hdb. }
  subst w'. split; [by rewrite E|]. split; [|split; [|split]].
  - rewrite E. cbn [snd trace]. by destruct pr.1.
  - eexists. split; [by apply tick_upload_v1_row|]. fold pr.
    split; [apply settled_content|]. by destruct pr.1.
  - intros k Hk. rewrite E. cbn. by rewrite lookup_alter_ne.
  - unfold ServerV1.tick, try_catch, eff_bind.
    rewrite tick_select_busy; [done|]. by exists id, job.
Qed.

Lemma tick_v1_outcome_witness :
  let w := world {[1%Z := job "Uploading" 4]} in
  videos (db w) !! 1%Z = Some (job "Uploading" 4)
  ∧ ∃ r, videos (db (ServerV1.tick_upload env_refused 1 (job "Uploading" 4) w).2) !! 1%Z
         = Some r
         ∧ status r = "Failed"%string
         ∧ error r = Some "quotaExceeded"%string.
Proof.
  intros w.
  assert (H : videos (db w) !! 1%Z = Some (job "Uploading" 4)) by reflexivity.
  split; [exact H|].
  destruct (tick_v1_outcome env_refused 0 1 (job "Uploading" 4) w H eq_refl)
    as (_ & _ & (r & Hr & _ & Ho) & _).
  exists r. split; [exact Hr|].
  assert (E : (ServerV1.processUpload env_refused "file-1" (Some "clip"%string) None
                 (Some "data:image/jpeg;base64,AAAA"%string) (Some "first"%string) w).1
              = Throw "quotaExceeded"%string) by reflexivity.
  change (driveFileId (job "Uploading" 4)) with "file-1"%string in Ho.
  cbn [title description thumbnail firstComment job] in Ho.
  rewrite E in Ho. destruct Ho as (Hs & He & _). by split.
Defined.

(** X23. The first comment.  On the current server a comment that is
    posted is recorded and never pinned.  On the earlier server it is posted
    and then pinned; when the pin throws the comment stays posted, unpinned,
    and the step still returns.  No step runs for a job without a first
    comment. *)
Theorem first_comment_steps (env : Env) (videoId text cid : string) (w : World) :
  truthy (Some text) = true →
  commentThreads_insert env videoId text = Ok cid →
  comment_step env videoId (Some text) w
  = (Ok tt, {| db := db w; trace := trace w ++ [EvCommented videoId text cid] |})
  ∧ (comments_setManagementStatus env cid = Ok tt →
     ServerV1.comment_step env videoId (Some text) w
     = (Ok tt, {| db := db w;
                  trace := trace w ++ [EvCommented videoId text cid; EvPinned cid] |}))
  ∧ (∀ msg, comments_setManagementStatus env cid = Throw msg →
     ServerV1.comment_step env videoId (Some text) w
     = (Ok tt, {| db := db w; trace := trace w ++ [EvCommented videoId text cid] |}))
  ∧ comment_step env videoId None w = (Ok tt, w)
  ∧ ServerV1.comment_step env videoId (Some EmptyString) w = (Ok tt, w).
Proof.
  intros Ht Hc.
  assert (Hd : or_default (Some text) "" = text) by (by destruct text).
  unfold comment_step, ServerV1.comment_step. rewrite Ht, Hd.
  unfold try_catch, eff_bind, lift, log, modify. rewrite Hc. cbn.
  split; [reflexivity|]. split; [|split; [|by split]].
  - intros ->. cbn. by rewrite <- app_assoc.
  - intros msg ->. reflexivity.
Qed.

Lemma first_comment_steps_witness :
  truthy (Some "first"%string) = true
  ∧ commentThreads_insert env_ok "yt-1" "first" = Ok "c-1"%string
  ∧ comment_step env_ok "yt-1" (Some "first"%string) (world ∅)
    = (Ok tt, {| db := db (world ∅);
                 trace := [EvCommented "yt-1" "first" "c-1"] |}).
Proof.
  split; [reflexivity|]. split; [reflexivity|].
  exact (proj1 (first_comment_steps env_ok "yt-1" "first" "c-1" (world ∅)
                  eq_refl eq_refl)).
Defined.

Lemma strip_fences_other a r :
  Ascii.eqb a bq = false → strip_fences (String a r) = String a (strip_fences r).
Proof.
  intros H. destruct r as [|b [|c r3]]; cbn [strip_fences]; rewrite ?H; reflexivity.
Qed.

Lemma strip_fences_plain s t :
  no_backquote s = true → strip_fences (s ++ t) = (s ++ strip_fences t)%string.
Proof.
  induction s as [|a r IH]; [done|]. cbn [no_backquote String.append].
  intros H. apply andb_prop in H as [Ha Hr]. apply negb_true_iff in Ha.
  change (String a r +:+ t) with (String a (r +:+ t)).
  change (String a r +:+ strip_fences t) with (String a (r +:+ strip_fences t)).
  rewrite strip_fences_other by done. by rewrite IH.
Qed.

Lemma append_empty s : (s +:+ "")%string = s.
Proof.
  induction s as [|a r IH]; [done|].
  change (String a r +:+ "") with (String a (r +:+ "")). by rewrite IH.
Qed.

Lemma drop_trailing_app_space s c :
  is_space c = true →
  drop_trailing_spaces (s +:+ String c EmptyString) = drop_trailing_spaces s.
Proof.
  intros Hc. induction s as [|a r IH].
  - change ("" +:+ String c "") with (String c "").
    cbn [drop_trailing_spaces]. by rewrite Hc.
  - change (String a r +:+ String c "") with (String a (r +:+ String c "")).
    cbn [drop_trailing_spaces]. by rewrite IH.
Qed.

Lemma trim_app_space s c :
  is_space c = true → trim (s +:+ String c EmptyString) = trim s.
Proof.
  intros Hc. unfold trim. induction s as [|a r IH].
  - change ("" +:+ String c "") with (String c "").
    cbn [skip_spaces drop_trailing_spaces]. by rewrite Hc.
  - change (String a r +:+ String c "") with (String a (r +:+ String c "")).
    cbn [skip_spaces]. destruct (is_space a); [exact IH|].
    by apply (drop_trailing_app_space (String a r)).
Qed.

(** X24. Cleaning the reply of the model: a text without a backquote is
    only trimmed, and a text wrapped in a code fence marked [json] is
    unwrapped and trimmed. *)
Theorem clean_reply_unwraps (body : string) :
  no_backquote body = true →
  clean_reply body = trim body
  ∧ clean_reply (fence +:+ "json" +:+ body +:+ fence) = trim body
  ∧ clean_reply (fence +:+ "json" +:+ nl +:+ body +:+ nl +:+ fence) = trim body.
Proof.
  intros H. unfold clean_reply.
  assert (E0 : strip_fences fence = EmptyString) by reflexivity.
  assert (E1 : ∀ t, strip_fences (fence +:+ "json" +:+ t) = strip_fences t)
    by (intros t; reflexivity).
  assert (Eplain : ∀ t, strip_fences (body +:+ t) = body +:+ strip_fences t)
    by (intros t; by apply strip_fences_plain).
  split; [|split].
  - rewrite <- (append_empty body) at 1. rewrite Eplain. cbn [strip_fences].
    by rewrite append_empty.
  - by rewrite E1, Eplain, E0, append_empty.
  - rewrite E1.
    change (nl +:+ body +:+ nl +:+ fence)
      with (String (ascii_of_nat 10) (body +:+ String (ascii_of_nat 10) fence)).
    rewrite strip_fences_other by reflexivity. rewrite Eplain.
    rewrite strip_fences_other by reflexivity. rewrite E0.
    unfold trim at 1. cbn [skip_spaces].
    change (is_space (ascii_of_nat 10)) with true. cbv iota.
    by apply trim_app_space.
Qed.

Lemma clean_reply_unwraps_witness :
  no_backquote "{ }" = true
  ∧ clean_reply (fence +:+ "json" +:+ nl +:+ "{ }" +:+ nl +:+ fence) = "{ }"%string.
Proof.
  split; [reflexivity|].
  destruct (clean_reply_unwraps "{ }" eq_refl) as (_ & _ & H).
  rewrite H. reflexivity.
Defined.

End VersionRules.
